(** * babel-plugin-trace: a shallow embedding of the label rewriter

    The plugin rewrites labeled statements ([trace:], [log:], [warn:] or
    configured aliases) into logging calls.  This development embeds the
    plugin (index.js) and its macro adapter (macro.js): the environment
    override reader, the default renderer, options normalization, the
    prefix and metadata computation, the strip decision, and the rewrite of
    one labeled statement.

    Conventions.
    - JavaScript strings are modelled by [string]; [toLowerCase] and [trim]
      are the ASCII ones.
    - JavaScript objects used as dictionaries are [gmap string _]; the
      alias table is read through its own entries (a label is not expected
      to be named like a member of [Object.prototype]).
    - A thrown exception is a value of [result].
    - The syntax tree is a typed tree ([expr], [stmt], [member]); the
      [handled] symbol the plugin attaches to the statements it creates is a
      boolean field of [ExpressionStatement]. *)

From Stdlib Require Import String Ascii List Lia Bool.
From Stdlib Require Import DecimalString.
From stdpp Require Import base option list strings gmap fin_maps.

Import ListNotations.
Set Warnings "-register-all".
Local Open Scope string_scope.
Local Open Scope bool_scope.
Local Open Scope list_scope.

(** ** JavaScript string primitives *)

Module JsString.

Definition isUpper (c : ascii) : bool :=
  (65 <=? nat_of_ascii c)%nat && (nat_of_ascii c <=? 90)%nat.

Definition lowerChar (c : ascii) : ascii :=
  if isUpper c then ascii_of_nat (nat_of_ascii c + 32) else c.

(** [s.toLowerCase()] *)
Fixpoint toLowerCase (s : string) : string :=
  match s with
  | EmptyString => EmptyString
  | String c r => String (lowerChar c) (toLowerCase r)
  end.

(** White space in the sense of [String.prototype.trim], ASCII range. *)
Definition isSpace (c : ascii) : bool :=
  let n := nat_of_ascii c in
  ((9 <=? n)%nat && (n <=? 13)%nat) || (n =? 32)%nat.

Fixpoint trimStart (s : string) : string :=
  match s with
  | EmptyString => EmptyString
  | String c r => if isSpace c then trimStart r else s
  end.

(** Drops the trailing white space. *)
Fixpoint trimEnd (s : string) : string :=
  match s with
  | EmptyString => EmptyString
  | String c r =>
      match trimEnd r with
      | EmptyString => if isSpace c then EmptyString else String c EmptyString
      | r' => String c r'
      end
  end.

(** [s.trim()] *)
Definition trim (s : string) : string := trimEnd (trimStart s).

(** [s.split(sep)] for a one-character separator. *)
Fixpoint split (sep : ascii) (s : string) : list string :=
  match s with
  | EmptyString => [EmptyString]
  | String c r =>
      if Ascii.eqb c sep then EmptyString :: split sep r
      else match split sep r with
           | [] => [String c EmptyString]
           | w :: ws => String c w :: ws
           end
  end.

(** [s.includes(sub)] *)
Fixpoint includes (s sub : string) : bool :=
  String.prefix sub s ||
  match s with
  | EmptyString => false
  | String _ r => includes r sub
  end.

(** Truthiness of a string value. *)
Definition truthy (s : string) : bool := negb (String.eqb s "").

(** [parts.join(sep)] *)
Fixpoint join (sep : string) (parts : list string) : string :=
  match parts with
  | [] => ""
  | [p] => p
  | p :: ps => p +:+ sep +:+ join sep ps
  end.

(** [(new Array(n + 1)).join(unit)]: [n] copies of [unit]. *)
Fixpoint repeat (unit : string) (n : nat) : string :=
  match n with
  | O => ""
  | S k => unit +:+ repeat unit k
  end.

(** Decimal rendering of a number inside a template string. *)
Definition ofNat (n : nat) : string := NilEmpty.string_of_uint (Nat.to_uint n).

Definition isDigit (c : ascii) : bool :=
  (48 <=? nat_of_ascii c)%nat && (nat_of_ascii c <=? 57)%nat.

Fixpoint digits (acc : nat) (s : string) : option nat :=
  match s with
  | EmptyString => Some acc
  | String c r =>
      if isDigit c then digits (10 * acc + (nat_of_ascii c - 48)) r else None
  end.

(** A canonical array index: a decimal numeral without leading zero. *)
Definition canonicalIndex (key : string) : option nat :=
  match key with
  | EmptyString => None
  | String c r =>
      if Ascii.eqb c "0" then (if String.eqb r "" then Some 0 else None)
      else digits 0 key
  end.

End JsString.

(** ** Node's [path] module (POSIX flavour), as far as the plugin uses it *)

Module fspath.

Definition slash : ascii := "/"%char.
Definition dot : ascii := "."%char.

Definition isSlash (c : ascii) : bool := Ascii.eqb c slash.

Fixpoint dropSlashes (l : list ascii) : list ascii :=
  match l with
  | c :: r => if isSlash c then dropSlashes r else l
  | [] => []
  end.

(** The longest slash-free prefix. *)
Fixpoint component (l : list ascii) : list ascii :=
  match l with
  | c :: r => if isSlash c then [] else c :: component r
  | [] => []
  end.

(** What is left after the longest slash-free prefix. *)
Fixpoint afterComponent (l : list ascii) : list ascii :=
  match l with
  | c :: r => if isSlash c then l else afterComponent r
  | [] => []
  end.

(** The last path component, reversed: the scan of [basename] runs from
    the end of the path, skips the trailing slashes and stops at the next
    slash. *)
Definition lastComponentRev (path : string) : list ascii :=
  component (dropSlashes (rev (list_ascii_of_string path))).

(** [path.basename(p)] *)
Definition basename1 (path : string) : string :=
  string_of_list_ascii (rev (lastComponentRev path)).

Fixpoint stripPrefix (p l : list ascii) : option (list ascii) :=
  match p, l with
  | [], _ => Some l
  | a :: p', b :: l' => if Ascii.eqb a b then stripPrefix p' l' else None
  | _ :: _, [] => None
  end.

Fixpoint isPrefix (p l : list ascii) : bool :=
  match p, l with
  | [], _ => true
  | a :: p', b :: l' => Ascii.eqb a b && isPrefix p' l'
  | _ :: _, [] => false
  end.

(** [path.basename(p, ext)].  The extension is compared from the end of
    the last component; when the component is exhausted before the
    extension is, Node returns the component together with the trailing
    slashes of the path. *)
Definition basename (path ext : string) : string :=
  if String.eqb ext "" || (String.length path <? String.length ext)%nat
  then basename1 path
  else if String.eqb ext path then ""
  else
    let rpath := rev (list_ascii_of_string path) in
    let comp := lastComponentRev path in
    let rext := rev (list_ascii_of_string ext) in
    match stripPrefix rext comp with
    | Some [] => string_of_list_ascii (rev comp)
    | Some stem => string_of_list_ascii (rev stem)
    | None =>
        if isPrefix comp rext
        then string_of_list_ascii
               (rev comp ++ rev (firstn (length rpath - length (dropSlashes rpath)) rpath))
        else string_of_list_ascii (rev comp)
    end.

(** [path.dirname(p)]: the scan runs from the end down to index 1. *)
Definition dirname (path : string) : string :=
  match list_ascii_of_string path with
  | [] => "."
  | c0 :: rest =>
      let hasRoot := isSlash c0 in
      match afterComponent (dropSlashes (rev rest)) with
      | [] => if hasRoot then "/" else "."
      | _ :: before =>
          if hasRoot && (length before =? 0)%nat then "//"
          else string_of_list_ascii (c0 :: rev before)
      end
  end.

Fixpoint lastDotRev (l : list ascii) : option (list ascii * list ascii) :=
  match l with
  | [] => None
  | c :: r =>
      if Ascii.eqb c dot then Some ([c], r)
      else match lastDotRev r with
           | Some (ext, pre) => Some (c :: ext, pre)
           | None => None
           end
  end.

(** [path.extname(p)]: from the last dot of the last component, unless
    that dot opens the component or the component is [..]. *)
Definition extname (path : string) : string :=
  let comp := lastComponentRev path in
  match lastDotRev comp with
  | None => ""
  | Some (_, []) => ""
  | Some (rext, _ :: _) =>
      if String.eqb (string_of_list_ascii (rev comp)) ".." then ""
      else string_of_list_ascii (rev rext)
  end.

Definition segments (p : string) : list string :=
  filter (fun s => JsString.truthy s = true) (JsString.split slash p).

(** [normalizeString]: drops [.] and resolves [..] against the segments
    already kept (none is kept above the root). *)
Fixpoint normalizeSegments (kept : list string) (l : list string) : list string :=
  match l with
  | [] => rev kept
  | s :: r =>
      if String.eqb s "." then normalizeSegments kept r
      else if String.eqb s ".." then normalizeSegments (tl kept) r
      else normalizeSegments (s :: kept) r
  end.

(** [path.resolve(cwd, file)], where [cwd] is [process.cwd()], an
    absolute path. *)
Definition resolve (cwd file : string) : string :=
  let joined :=
    if String.eqb file "" then cwd +:+ "/"
    else if String.prefix "/" file then file +:+ "/"
    else cwd +:+ "/" +:+ file +:+ "/" in
  "/" +:+ JsString.join "/" (normalizeSegments [] (segments joined)).

End fspath.

(** ** The syntax tree

    The node kinds the plugin inspects or builds, with Babel's field names.
    [line] is [loc.start.line].  Parameters of functions are left out: the
    plugin never looks at them. *)

Inductive expr : Type :=
| Identifier (name : string)
| StringLiteral (value : string)
| NumericLiteral (value : nat)
| BooleanLiteral (value : bool)
| NullLiteral
| ThisExpression
| ArrayExpression (elements : list expr)
| ObjectExpression (properties : list member)
| SequenceExpression (expressions : list expr)
| UnaryExpression (operator : string) (argument : expr)
| BinaryExpression (operator : string) (left right : expr)
| ConditionalExpression (test consequent alternate : expr)
| AssignmentExpression (operator : string) (left right : expr)
| UpdateExpression (operator : string) (prefix : bool) (argument : expr)
| YieldExpression (argument : option expr)
| AwaitExpression (argument : expr)
| CallExpression (callee : expr) (arguments : list expr)
| MemberExpression (object property : expr) (computed : bool)
| FunctionExpression (id : option string) (line : nat) (body : list stmt)
| ArrowFunctionExpression (line : nat) (body : list stmt + expr)
| ClassExpression (id : option string) (line : nat) (superClass : option expr)
    (body : list member)
with stmt : Type :=
| ExpressionStatement (handled : bool) (expression : expr)
| LabeledStatement (label : string) (body : stmt)
| BlockStatement (body : list stmt)
| EmptyStatement
| IfStatement (test : expr) (consequent : stmt) (alternate : option stmt)
| WhileStatement (test : expr) (body : stmt)
| ReturnStatement (argument : option expr)
| ThrowStatement (argument : expr)
| BreakStatement (label : option string)
| VariableDeclaration (kind : string) (declarations : list (string * option expr))
| FunctionDeclaration (id : option string) (line : nat) (body : list stmt)
| ClassDeclaration (id : option string) (line : nat) (superClass : option expr)
    (body : list member)
with member : Type :=
| ObjectProperty (key : expr) (value : expr)
| ObjectMethod (key : expr) (line : nat) (body : list stmt)
| ClassMethod (key : expr) (line : nat) (body : list stmt)
| ClassProperty (key : expr) (value : option expr).

(** Any node, as a path or a template sees it.  [ClassBody] and [Program]
    only occur as ancestors; [OtherNode] stands for the kinds that are not
    modelled (a declarator, a switch case, ...). *)
Inductive node : Type :=
| ExprNode (e : expr)
| StmtNode (s : stmt)
| MemberNode (m : member)
| ClassBody (body : list member)
| Program (body : list stmt)
| OtherNode (type : string).

(** *** Type predicates of [babel-types] *)

Definition isSequenceExpression (e : expr) : bool :=
  match e with SequenceExpression _ => true | _ => false end.

Definition isClassMethod (n : node) : bool :=
  match n with MemberNode (ClassMethod _ _ _) => true | _ => false end.

Definition isClassDeclaration (n : node) : bool :=
  match n with StmtNode (ClassDeclaration _ _ _ _) => true | _ => false end.

(** The [Function] alias: declarations, expressions, arrows and methods. *)
Definition isFunction (n : node) : bool :=
  match n with
  | StmtNode (FunctionDeclaration _ _ _) => true
  | ExprNode (FunctionExpression _ _ _) => true
  | ExprNode (ArrowFunctionExpression _ _) => true
  | MemberNode (ObjectMethod _ _ _) => true
  | MemberNode (ClassMethod _ _ _) => true
  | _ => false
  end.

Definition isProgram (n : node) : bool :=
  match n with Program _ => true | _ => false end.

Definition isClassBody (n : node) : bool :=
  match n with ClassBody _ => true | _ => false end.

Definition isBlockStatement (n : node) : bool :=
  match n with StmtNode (BlockStatement _) => true | _ => false end.

Definition isLabeledStatement (n : node) : bool :=
  match n with StmtNode (LabeledStatement _ _) => true | _ => false end.

(** [node[$handled]]: only the statements built by the plugin carry it. *)
Definition nodeHandled (n : node) : bool :=
  match n with StmtNode (ExpressionStatement h _) => h | _ => false end.

(** ** Records of the plugin *)

Record Metadata := {
  indent : nat;
  prefix : string;
  parentName : string;
  context : string;
  hasStartMessage : bool;
  isStartMessage : bool;
  filename : string;
  dirname : string;
  basename : string;
  extname : string
}.

(** The object handed to a renderer: literals, and the payload. *)
Record Message := {
  m_prefix : expr;
  m_content : expr;
  m_hasStartMessage : expr;
  m_isStartMessage : expr;
  m_indent : expr;
  m_parentName : expr;
  m_filename : expr;
  m_dirname : expr;
  m_basename : expr;
  m_extname : expr
}.

(** The property names of a [Message] object, in the order of the object
    literal in [handleLabeledStatement]. *)
Definition messageEntries (m : Message) : list (string * node) :=
  [ ("prefix", ExprNode (m_prefix m));
    ("content", ExprNode (m_content m));
    ("hasStartMessage", ExprNode (m_hasStartMessage m));
    ("isStartMessage", ExprNode (m_isStartMessage m));
    ("indent", ExprNode (m_indent m));
    ("parentName", ExprNode (m_parentName m));
    ("filename", ExprNode (m_filename m));
    ("dirname", ExprNode (m_dirname m));
    ("basename", ExprNode (m_basename m));
    ("extname", ExprNode (m_extname m)) ].

Abbreviation TemplateIds := (gmap string node).

Definition messageIds (m : Message) : TemplateIds := list_to_map (messageEntries m).

Abbreviation Template := (TemplateIds -> node).
Abbreviation LogFunction := (Message -> Metadata -> node).

(** The [babel] argument: [types] is the constructors above, [template] is
    the host's template compiler. *)
Record PluginParams := {
  template : string -> Template
}.

Inductive AliasValue : Type :=
| AliasString (source : string)
| AliasFunction (f : LogFunction).

Inductive StripConfig : Type :=
| StripAbsent
| StripBool (b : bool)
| StripString (s : string)
| StripObject (m : gmap string bool).

Record PluginOptions := {
  aliases : option (gmap string AliasValue);
  strip : StripConfig;
  normalized : bool
}.

(** [process]: the environment variables and the working directory. *)
Record Process := {
  NODE_ENV : option string;
  TRACE_CONTEXT : option string;
  TRACE_FILE : option string;
  TRACE_LEVEL : option string;
  cwd : string
}.

(** Exceptions. *)
Inductive error : Type :=
| CodeFrameError (at_node : stmt) (message : string)
| TypeError (message : string).

Inductive result (A : Type) : Type :=
| Ok (a : A)
| Throw (e : error).
Arguments Ok {A} a.
Arguments Throw {A} e.

(** ** Environment override reader *)

(** [normalizeEnv]: the comma-separated tokens, lower-cased and trimmed,
    the empty ones dropped; nothing for a missing or empty variable. *)
Definition normalizeEnv (input : option string) : list string :=
  match input with
  | None => []
  | Some s =>
      if negb (JsString.truthy s) then []
      else
        filter (fun id => JsString.truthy id = true)
          (map (fun context => JsString.trim (JsString.toLowerCase context))
             (JsString.split "," s))
  end.

Definition PRESERVE_CONTEXTS (p : Process) : list string := normalizeEnv (TRACE_CONTEXT p).
Definition PRESERVE_FILES (p : Process) : list string := normalizeEnv (TRACE_FILE p).
Definition PRESERVE_LEVELS (p : Process) : list string := normalizeEnv (TRACE_LEVEL p).

(** ** The default renderer *)

(** [expression]: like [template], but an expression statement is
    unwrapped to its expression. *)
Definition expression (input : string) (template : string -> Template) : Template :=
  let fn := template input in
  fun ids =>
    match fn ids with
    | StmtNode (ExpressionStatement _ e) => ExprNode e
    | n => n
    end.

(** The source of the call template, and the substitution
    [{LOGLEVEL: ..., PREFIX: ..., CONTENT: ...}] it is instantiated with. *)
Definition callTemplate : string := "console.LOGLEVEL(PREFIX, CONTENT)".

Definition callIds (level prefix content : expr) : TemplateIds :=
  <["LOGLEVEL" := ExprNode level]>
    (<["PREFIX" := ExprNode prefix]> (<["CONTENT" := ExprNode content]> ∅)).

(** [getLogFunction]: the default [log()] function of a level. *)
Definition getLogFunction (babel : PluginParams) (logLevel : string) : LogFunction :=
  fun message metadata =>
    let prefix := context metadata +:+ ":" in
    let prefix :=
      if negb (indent metadata =? 0)%nat
      then prefix +:+ JsString.repeat "  " (indent metadata)
      else prefix in
    match m_content message with
    | SequenceExpression expressions =>
        ExprNode
          (CallExpression
             (MemberExpression (Identifier "console") (Identifier logLevel) false)
             ([StringLiteral prefix] ++ expressions))
    | content =>
        expression callTemplate (template babel)
          (callIds (Identifier logLevel) (StringLiteral prefix) content)
    end.

(** ** Options normalization *)

Definition aliasTruthy (v : AliasValue) : bool :=
  match v with
  | AliasString s => JsString.truthy s
  | AliasFunction _ => true
  end.

(** The body of the [forEach] over the keys of [opts.aliases]: a non-empty
    string is compiled into a renderer of the message alone. *)
Definition normalizeAlias (babel : PluginParams) (v : AliasValue) : AliasValue :=
  match v with
  | AliasString s =>
      if JsString.truthy s then
        let expr := expression s (template babel) in
        AliasFunction (fun message _ => expr (messageIds message))
      else v
  | AliasFunction _ => v
  end.

Definition defaultAliases (babel : PluginParams) : gmap string AliasValue :=
  let log := getLogFunction babel "log" in
  <["log" := AliasFunction log]>
    (<["trace" := AliasFunction log]>
       (<["warn" := AliasFunction (getLogFunction babel "warn")]> ∅)).

(** [normalizeOpts] mutates and returns its argument; here it returns the
    new value of the object. *)
Definition normalizeOpts (babel : PluginParams) (opts : PluginOptions) : PluginOptions :=
  if normalized opts then opts
  else
    {| aliases :=
         match aliases opts with
         | None => Some (defaultAliases babel)
         | Some table => Some (normalizeAlias babel <$> table)
         end;
       strip := strip opts;
       normalized := true |}.

(** [opts.aliases[name]], as the truthiness tests of the plugin see it: an
    entry with an empty string counts as missing.  [normalizeOpts] runs
    first, so [opts.aliases] is an object when it is read. *)
Definition aliasLookup (opts : PluginOptions) (name : string) : option AliasValue :=
  match aliases opts with
  | Some table =>
      match table !! name with
      | Some v => if aliasTruthy v then Some v else None
      | None => None
      end
  | None => None
  end.

Definition isAlias (opts : PluginOptions) (name : string) : bool :=
  match aliasLookup opts name with Some _ => true | None => false end.

(** ** Prefix *)

Definition generatePrefix (dirname basename : string) : string :=
  if negb (String.eqb basename "index") then basename
  else
    let basename := fspath.basename1 dirname in
    if negb (String.eqb basename "src") && negb (String.eqb basename "lib")
    then basename
    else fspath.basename1 (fspath.dirname dirname).

(** ** Metadata collection *)

(** A path to a labeled statement: the label and the body of its node, its
    index in the list that holds it, the nodes of its ancestors from the
    parent outwards ([getAncestry().slice(1)]) and the file name of the
    hub. *)
Record NodePath := {
  path_label : string;
  path_body : stmt;
  path_key : nat;
  path_parents : list node;
  path_filename : string
}.

(** The accumulator of the reduction over the ancestry: the names, the
    [parent] variable and the [indent] variable of [collectMetadata]. *)
Record Ancestry := {
  parts : list string;
  parent : option node;
  depth : nat
}.

Definition setParent (acc : Ancestry) (item : node) : option node :=
  match parent acc with
  | None => Some item
  | Some p => Some p
  end.

Definition unshift (name : string) (acc : Ancestry) (item : node) : Ancestry :=
  {| parts := name :: parts acc; parent := setParent acc item; depth := depth acc |}.

Definition anonymous (line : nat) : string :=
  "[anonymous@" +:+ JsString.ofNat line +:+ "]".

Definition anonymousClass (line : nat) : string :=
  "[anonymous class@" +:+ JsString.ofNat line +:+ "]".

(** [(item.node.id && item.node.id.name) || `[anonymous@...]`] *)
Definition functionName (id : option string) (line : nat) : string :=
  match id with
  | Some name => if JsString.truthy name then name else anonymous line
  | None => anonymous line
  end.

(** The reducer.  The cases follow the order of the tests in the source:
    class method, class declaration, function, program, anything else. *)
Definition ancestryStep (acc : Ancestry) (item : node) : Ancestry :=
  match item with
  | MemberNode (ClassMethod key _ _) =>
      unshift (match key with Identifier name => name | _ => "[computed method]" end)
        acc item
  | StmtNode (ClassDeclaration id line _ _) =>
      unshift (match id with Some name => name | None => anonymousClass line end)
        acc item
  | StmtNode (FunctionDeclaration id line _) => unshift (functionName id line) acc item
  | ExprNode (FunctionExpression id line _) => unshift (functionName id line) acc item
  | ExprNode (ArrowFunctionExpression line _) => unshift (functionName None line) acc item
  | MemberNode (ObjectMethod _ line _) => unshift (functionName None line) acc item
  | Program _ =>
      {| parts := parts acc; parent := setParent acc item; depth := depth acc |}
  | _ =>
      match parent acc with
      | None =>
          if negb (isClassBody item) && negb (isBlockStatement item)
          then {| parts := parts acc; parent := None; depth := S (depth acc) |}
          else acc
      | Some _ => acc
      end
  end.

Definition walkAncestry (ancestors : list node) : Ancestry :=
  fold_left ancestryStep ancestors {| parts := []; parent := None; depth := 0 |}.

(** [parent.get('body').get('body')]: the statements of a function body,
    the members of a class body. *)
Definition scopeChildren (scope : node) : list node :=
  match scope with
  | MemberNode (ClassMethod _ _ body) => map StmtNode body
  | MemberNode (ObjectMethod _ _ body) => map StmtNode body
  | StmtNode (FunctionDeclaration _ _ body) => map StmtNode body
  | ExprNode (FunctionExpression _ _ body) => map StmtNode body
  | ExprNode (ArrowFunctionExpression _ (inl body)) => map StmtNode body
  | StmtNode (ClassDeclaration _ _ _ body) => map MemberNode body
  | Program body => map StmtNode body
  | _ => []
  end.

(** Node identity.  The nodes of a tree are distinct objects, so
    [child.node === path.node], for the [i]-th statement [child] of the
    body of the parent scope, holds exactly when the path sits in that very
    list at index [i]: its first ancestor is the block that is the body of
    the function found as parent, and its key is [i]. *)
Definition inParentBody (path : NodePath) : bool :=
  match path_parents path with
  | block :: scope :: _ => isBlockStatement block && isFunction scope
  | _ => false
  end.

Definition sameNode (path : NodePath) (i : nat) : bool :=
  inParentBody path && (path_key path =? i)%nat.

(** The loop over the statements of the parent scope; the result is
    [(hasStartMessage, isStartMessage)].  [i] is the index of the head of
    [children] in the body. *)
Fixpoint startMessageScan (opts : PluginOptions) (path : NodePath) (i : nat)
    (children : list node) : bool * bool :=
  match children with
  | [] => (false, false)
  | child :: rest =>
      if nodeHandled child then (true, false)
      else
        match child with
        | StmtNode (LabeledStatement label _) =>
            if isAlias opts label then (true, sameNode path i)
            else startMessageScan opts path (S i) rest
        | _ => (false, false)
        end
  end.

Definition startMessage (opts : PluginOptions) (path : NodePath) (parent : option node)
    : bool * bool :=
  match parent with
  | Some scope =>
      if negb (isProgram scope)
      then startMessageScan opts path 0 (scopeChildren scope)
      else (false, false)
  | None => (false, false)
  end.

Definition collectMetadata (proc : Process) (path : NodePath) (opts : PluginOptions)
    : Metadata :=
  let filename := fspath.resolve (cwd proc) (path_filename path) in
  let dirname := fspath.dirname filename in
  let extname := fspath.extname filename in
  let basename := fspath.basename filename extname in
  let prefix := generatePrefix dirname basename in
  let walk := walkAncestry (path_parents path) in
  let parentName := JsString.join ":" (parts walk) in
  let flags := startMessage opts path (parent walk) in
  let context := prefix +:+ ":" +:+ parentName in
  {| indent := depth walk; prefix := prefix; parentName := parentName;
     context := context; hasStartMessage := fst flags; isStartMessage := snd flags;
     filename := filename; dirname := dirname; basename := basename;
     extname := extname |}.

(** ** Strip decision *)

(** Property names that every object inherits ([Object.prototype]); their
    values are functions or objects, hence truthy. *)
Definition objectPrototype : list string :=
  [ "constructor"; "hasOwnProperty"; "isPrototypeOf"; "propertyIsEnumerable";
    "toLocaleString"; "toString"; "valueOf"; "__proto__";
    "__defineGetter__"; "__defineSetter__"; "__lookupGetter__"; "__lookupSetter__" ].

(** Method names of [String.prototype], those of Annex B included, as a
    current engine has them ([at], [isWellFormed], [matchAll], [padEnd],
    [padStart], [replaceAll], [toWellFormed], [trimEnd] and [trimStart] came
    after ES2015). *)
Definition stringPrototype : list string :=
  [ "anchor"; "at"; "big"; "blink"; "bold"; "charAt"; "charCodeAt"; "codePointAt";
    "concat"; "endsWith"; "fixed"; "fontcolor"; "fontsize"; "includes"; "indexOf";
    "isWellFormed"; "italics"; "lastIndexOf"; "link"; "localeCompare"; "match";
    "matchAll"; "normalize"; "padEnd"; "padStart"; "repeat"; "replace"; "replaceAll";
    "search"; "slice"; "small"; "split"; "startsWith"; "strike"; "sub"; "substr";
    "substring"; "sup"; "toLocaleLowerCase"; "toLocaleUpperCase"; "toLowerCase";
    "toUpperCase"; "toWellFormed"; "trim"; "trimEnd"; "trimLeft"; "trimRight";
    "trimStart" ].

Definition inList (key : string) (l : list string) : bool :=
  existsb (String.eqb key) l.

(** The property key that [process.env.NODE_ENV] converts to. *)
Definition envKey (env : option string) : string :=
  match env with
  | Some name => name
  | None => "undefined"
  end.

(** Truthiness of [strip[key]].  A string has its [length] and its
    characters as own properties; a dictionary has its entries; the rest is
    inherited. *)
Definition stripProperty (strip : StripConfig) (key : string) : bool :=
  match strip with
  | StripAbsent => false
  | StripBool _ => inList key objectPrototype
  | StripString s =>
      (String.eqb key "length" && negb (String.length s =? 0)%nat)
      || match JsString.canonicalIndex key with
         | Some i => (i <? String.length s)%nat
         | None => false
         end
      || inList key stringPrototype
      || inList key objectPrototype
  | StripObject m =>
      match m !! key with
      | Some b => b
      | None => inList key objectPrototype
      end
  end.

Definition stripTruthy (strip : StripConfig) : bool :=
  match strip with
  | StripAbsent => false
  | StripBool b => b
  | StripString s => JsString.truthy s
  | StripObject _ => true
  end.

(** [strip === true] *)
Definition stripIsTrue (strip : StripConfig) : bool :=
  match strip with StripBool true => true | _ => false end.

(** [strip === process.env.NODE_ENV] *)
Definition stripIsEnv (strip : StripConfig) (env : option string) : bool :=
  match strip, env with
  | StripString s, Some name => String.eqb s name
  | StripAbsent, None => true
  | _, _ => false
  end.

(** The condition of the outer [if] of [shouldStrip]. *)
Definition stripRequested (proc : Process) (strip : StripConfig) : bool :=
  stripTruthy strip &&
  (stripIsTrue strip
   || stripIsEnv strip (NODE_ENV proc)
   || stripProperty strip (envKey (NODE_ENV proc))).

Definition preservedContext (proc : Process) (metadata : Metadata) : bool :=
  let context := JsString.toLowerCase (context metadata) in
  existsb (fun pc => JsString.includes context pc) (PRESERVE_CONTEXTS proc).

Definition preservedFile (proc : Process) (metadata : Metadata) : bool :=
  let filename := JsString.toLowerCase (filename metadata) in
  existsb (fun pf => JsString.includes filename pf) (PRESERVE_FILES proc).

Definition preservedLevel (proc : Process) (name : string) : bool :=
  let level := JsString.toLowerCase name in
  existsb (fun pl => String.eqb level pl) (PRESERVE_LEVELS proc).

Definition shouldStrip (proc : Process) (name : string) (metadata : Metadata)
    (opts : PluginOptions) : bool :=
  if stripRequested proc (strip opts) then
    if preservedContext proc metadata then false
    else if preservedFile proc metadata then false
    else if preservedLevel proc name then false
    else true
  else false.

(** ** The rewrite of one labeled statement *)

Definition path_node (path : NodePath) : stmt :=
  LabeledStatement (path_label path) (path_body path).

#[global] Instance result_ret : MRet result := fun A a => Ok a.

#[global] Instance result_bind : MBind result := fun A B k r =>
  match r with
  | Ok a => k a
  | Throw e => Throw e
  end.

Section MapM.
Context {A B : Type} (f : A -> result B).

Fixpoint mapList (l : list A) : result (list B) :=
  match l with
  | [] => Ok []
  | a :: r => b ← f a; bs ← mapList r; Ok (b :: bs)
  end.

Definition mapOpt (o : option A) : result (option B) :=
  match o with
  | None => Ok None
  | Some a => b ← f a; Ok (Some b)
  end.
End MapM.

(** The traversal below an expression.  Only the throwing visitor can fire
    there: the statements an expression holds are inside functions, and the
    visitor throws at the function.  [true] means that it throws. *)
Fixpoint scanExpr (e : expr) : bool :=
  match e with
  | Identifier _ | StringLiteral _ | NumericLiteral _ | BooleanLiteral _
  | NullLiteral | ThisExpression => false
  | ArrayExpression elements => existsb scanExpr elements
  | ObjectExpression properties => existsb scanMember properties
  | SequenceExpression expressions => existsb scanExpr expressions
  | UnaryExpression _ argument => scanExpr argument
  | BinaryExpression _ lhs rhs => scanExpr lhs || scanExpr rhs
  | ConditionalExpression test consequent alternate =>
      scanExpr test || scanExpr consequent || scanExpr alternate
  | AssignmentExpression _ _ _ => true
  | UpdateExpression _ _ _ => true
  | YieldExpression _ => true
  | AwaitExpression argument => scanExpr argument
  | CallExpression callee arguments => scanExpr callee || existsb scanExpr arguments
  | MemberExpression object property _ => scanExpr object || scanExpr property
  | FunctionExpression _ _ _ => true
  | ArrowFunctionExpression _ _ => true
  | ClassExpression _ _ superClass body =>
      match superClass with Some c => scanExpr c | None => false end
      || existsb scanMember body
  end
with scanMember (m : member) : bool :=
  match m with
  | ObjectProperty key value => scanExpr key || scanExpr value
  | ObjectMethod _ _ _ => true
  | ClassMethod _ _ _ => true
  | ClassProperty key value =>
      scanExpr key || match value with Some v => scanExpr v | None => false end
  end.

Section Traverse.
(** The error of the throwing visitor, and the expression of the
    replacement that the [ExpressionStatement] visitor builds from a
    payload. *)
Variable sideEffect : error.
Variable render : expr -> result expr.

Definition visitExpr (e : expr) : result unit :=
  if scanExpr e then Throw sideEffect else Ok tt.

(** [path.traverse(...)] below a statement, in document order.  A
    statement that was replaced is visited again: it is marked, so the
    visitor returns, and the traversal goes on below the new node. *)
Fixpoint traverse (s : stmt) : result stmt :=
  match s with
  | ExpressionStatement true e => _ ← visitExpr e; Ok s
  | ExpressionStatement false e =>
      e' ← render e;
      _ ← visitExpr e';
      Ok (ExpressionStatement true e')
  | LabeledStatement label body =>
      body' ← traverse body; Ok (LabeledStatement label body')
  | BlockStatement body =>
      body' ← mapList traverse body; Ok (BlockStatement body')
  | EmptyStatement => Ok s
  | IfStatement test consequent alternate =>
      _ ← visitExpr test;
      consequent' ← traverse consequent;
      alternate' ← mapOpt traverse alternate;
      Ok (IfStatement test consequent' alternate')
  | WhileStatement test body =>
      _ ← visitExpr test;
      body' ← traverse body;
      Ok (WhileStatement test body')
  | ReturnStatement _ => Throw sideEffect
  | ThrowStatement argument => _ ← visitExpr argument; Ok s
  | BreakStatement _ => Ok s
  | VariableDeclaration _ _ => Throw sideEffect
  | FunctionDeclaration _ _ _ => Throw sideEffect
  | ClassDeclaration _ _ superClass body =>
      if match superClass with Some c => scanExpr c | None => false end
         || existsb scanMember body
      then Throw sideEffect else Ok s
  end.
End Traverse.

(** The message built for a payload. *)
Definition buildMessage (metadata : Metadata) (content : expr) : Message :=
  {| m_prefix := StringLiteral (prefix metadata);
     m_content := content;
     m_hasStartMessage := BooleanLiteral (hasStartMessage metadata);
     m_isStartMessage := BooleanLiteral (isStartMessage metadata);
     m_indent := NumericLiteral (indent metadata);
     m_parentName := StringLiteral (parentName metadata);
     m_filename := StringLiteral (filename metadata);
     m_dirname := StringLiteral (dirname metadata);
     m_basename := StringLiteral (basename metadata);
     m_extname := StringLiteral (extname metadata) |}.

(** Calling [opts.aliases[name]]. *)
Definition callAlias (v : AliasValue) (message : Message) (metadata : Metadata)
    : result node :=
  match v with
  | AliasFunction f => Ok (f message metadata)
  | AliasString _ => Throw (TypeError "opts.aliases[label.node.name] is not a function")
  end.

(** The expression of
    [t.expressionStatement(opts.aliases[name](message, metadata))]: the
    builder rejects a node that is not an expression. *)
Definition renderPayload (alias : AliasValue) (metadata : Metadata) (content : expr)
    : result expr :=
  n ← callAlias alias (buildMessage metadata content) metadata;
  match n with
  | ExprNode e => Ok e
  | _ => Throw (TypeError "Property expression of ExpressionStatement expected node to be of a type [Expression]")
  end.

Definition sideEffectMessage : string := "Logging statements cannot have side effects.".

(** What [handleLabeledStatement] does to the path. *)
Inductive Mutation : Type :=
| Untouched
| Remove
| ReplaceWith (replacement : stmt)
| ReplaceWithMultiple (replacements : list stmt).

(** [handleLabeledStatement]: the options after the call, and the mutation
    of the tree or the exception. *)
Definition handleLabeledStatement (babel : PluginParams) (proc : Process)
    (path : NodePath) (opts : PluginOptions) : PluginOptions * result Mutation :=
  let opts := normalizeOpts babel opts in
  match aliasLookup opts (path_label path) with
  | None => (opts, Ok Untouched)
  | Some alias =>
      let metadata := collectMetadata proc path opts in
      if shouldStrip proc (path_label path) metadata opts then (opts, Ok Remove)
      else
        (opts,
         body ← traverse (CodeFrameError (path_node path) sideEffectMessage)
                   (renderPayload alias metadata) (path_body path);
         match body with
         | BlockStatement statements => Ok (ReplaceWithMultiple statements)
         | single => Ok (ReplaceWith single)
         end)
  end.

(** The statements that the call hands to the host in place of the labeled
    statement: none for [remove], the node of [replaceWith], the nodes of
    [replaceWithMultiple].  Where the host puts them is [placed]. *)
Definition contributed (original : stmt) (m : Mutation) : list stmt :=
  match m with
  | Untouched => [original]
  | Remove => []
  | ReplaceWith replacement => [replacement]
  | ReplaceWithMultiple replacements => replacements
  end.

(** How the parent holds the labeled statement: as an element of a list of
    statements (the body of a block or of the program), in a slot for one
    statement (the consequent or the alternate of an [if], the body of a
    loop), as the body of another labeled statement, or in a way that is
    not modelled. *)
Inductive Container : Type :=
| InList
| InSlot
| UnderLabel
| Elsewhere.

Definition container (path : NodePath) : Container :=
  match path_parents path with
  | StmtNode (BlockStatement _) :: _ => InList
  | Program _ :: _ => InList
  | StmtNode (IfStatement _ _ _) :: _ => InSlot
  | StmtNode (WhileStatement _ _) :: _ => InSlot
  | StmtNode (LabeledStatement _ _) :: _ => UnderLabel
  | _ => Elsewhere
  end.

(** What the host leaves in the parent where the labeled statement stood
    ([remove], [replaceWith] and [replaceWithMultiple] of Babel's paths).
    [replaceWith] puts the node there.  In a list of statements, [remove]
    takes the element out and [replaceWithMultiple] splices the nodes in.
    In a slot for one statement, [remove] leaves an empty block (the
    removal hook for the consequent of an [if] and the body of a loop), and
    [replaceWithMultiple] leaves one block that holds the nodes.  Under a
    label the host changes the parent itself (it inserts the nodes after
    the parent and removes it), which is no placement in the slot: [None],
    as for the containers that are not modelled. *)
Definition placed (path : NodePath) (m : Mutation) : option (list stmt) :=
  match m, container path with
  | Untouched, _ => Some [path_node path]
  | ReplaceWith replacement, _ => Some [replacement]
  | Remove, InList => Some []
  | Remove, InSlot => Some [BlockStatement []]
  | ReplaceWithMultiple replacements, InList => Some replacements
  | ReplaceWithMultiple replacements, InSlot => Some [BlockStatement replacements]
  | _, _ => None
  end.

(** ** The macro adapter *)

(** The [config] of the macro.  [cfg_warningLabels] is [None] when the
    property is left out, [Some None] when it is set to a falsy value. *)
Record MacroConfig := {
  cfg_aliases : option (gmap string AliasValue);
  cfg_strip : StripConfig;
  cfg_warningLabels : option (option (list string))
}.

(** The names of [references] other than [default]. *)
Definition refNames (references : list string) : list string :=
  filter (fun ref => ref ≠ "default") references.

(** [warningLabels && warningLabels.includes(key) ? 'warn' : 'log'] *)
Definition warningLevel (warningLabels : option (list string)) (key : string) : string :=
  match warningLabels with
  | Some labels => if inList key labels then "warn" else "log"
  | None => "log"
  end.

(** The reducer that builds the alias table from the imported names. *)
Definition macroAlias (babel : PluginParams) (warningLabels : option (list string))
    (map : gmap string AliasValue) (key : string) : gmap string AliasValue :=
  let logLevel := warningLevel warningLabels key in
  <[key := AliasFunction (getLogFunction babel logLevel)]> map.

(** The [warningLabels] of the destructured [config]: [['warn']] unless
    the configuration sets the property. *)
Definition warningLabelsOf (config : option MacroConfig) : option (list string) :=
  match config with
  | Some c => match cfg_warningLabels c with Some l => l | None => Some ["warn"] end
  | None => Some ["warn"]
  end.

(** The options the macro hands to [handleLabeledStatement]; [config] is
    [None] when the macro is not configured. *)
Definition macroOptions (babel : PluginParams) (config : option MacroConfig)
    (references : list string) : PluginOptions :=
  let aliases := match config with Some c => cfg_aliases c | None => None end in
  let strip := match config with Some c => cfg_strip c | None => StripAbsent end in
  let warningLabels := warningLabelsOf config in
  let names := refNames references in
  let aliases :=
    if (0 <? length names)%nat
    then Some (fold_left (macroAlias babel warningLabels) names ∅)
    else aliases in
  {| aliases := aliases; strip := strip; normalized := false |}.

(** ** The host's template compiler

    [babel-template] parses a source text and substitutes the placeholders.
    The plugin's own template is the call [console.LOGLEVEL(PREFIX,
    CONTENT)]; what the host makes of it is stated as a law. *)

Definition TemplateLaw (babel : PluginParams) : Prop :=
  forall level prefix content,
    template babel callTemplate (callIds level prefix content)
    = StmtNode
        (ExpressionStatement false
           (CallExpression (MemberExpression (Identifier "console") level false)
              [prefix; content])).

(** The call template, instantiated by looking the placeholders up. *)
Definition instantiateCall (ids : TemplateIds) : node :=
  match ids !! "LOGLEVEL", ids !! "PREFIX", ids !! "CONTENT" with
  | Some (ExprNode level), Some (ExprNode prefix), Some (ExprNode content) =>
      StmtNode
        (ExpressionStatement false
           (CallExpression (MemberExpression (Identifier "console") level false)
              [prefix; content]))
  | _, _, _ => OtherNode "unbound placeholder"
  end.

(** A host that compiles the call template and keeps any other source as
    an opaque statement; used to run the plugin on examples. *)
Definition sampleBabel : PluginParams :=
  {| template := fun source ids =>
       if String.eqb source callTemplate then instantiateCall ids
       else StmtNode (ExpressionStatement false (Identifier source)) |}.

(** ** The nodes below a node

    The node itself and every node under it, in document order, function
    and class bodies included. *)

Fixpoint exprNodes (e : expr) : list node :=
  ExprNode e ::
  match e with
  | Identifier _ | StringLiteral _ | NumericLiteral _ | BooleanLiteral _
  | NullLiteral | ThisExpression => []
  | ArrayExpression elements => flat_map exprNodes elements
  | ObjectExpression properties => flat_map memberNodes properties
  | SequenceExpression expressions => flat_map exprNodes expressions
  | UnaryExpression _ argument => exprNodes argument
  | BinaryExpression _ lhs rhs => exprNodes lhs ++ exprNodes rhs
  | ConditionalExpression test consequent alternate =>
      exprNodes test ++ exprNodes consequent ++ exprNodes alternate
  | AssignmentExpression _ lhs rhs => exprNodes lhs ++ exprNodes rhs
  | UpdateExpression _ _ argument => exprNodes argument
  | YieldExpression argument =>
      match argument with Some a => exprNodes a | None => [] end
  | AwaitExpression argument => exprNodes argument
  | CallExpression callee arguments => exprNodes callee ++ flat_map exprNodes arguments
  | MemberExpression object property _ => exprNodes object ++ exprNodes property
  | FunctionExpression _ _ body => flat_map stmtNodes body
  | ArrowFunctionExpression _ body =>
      match body with
      | inl statements => flat_map stmtNodes statements
      | inr value => exprNodes value
      end
  | ClassExpression _ _ superClass body =>
      match superClass with Some c => exprNodes c | None => [] end
      ++ flat_map memberNodes body
  end
with stmtNodes (s : stmt) : list node :=
  StmtNode s ::
  match s with
  | ExpressionStatement _ e => exprNodes e
  | LabeledStatement _ body => stmtNodes body
  | BlockStatement body => flat_map stmtNodes body
  | EmptyStatement => []
  | IfStatement test consequent alternate =>
      exprNodes test ++ stmtNodes consequent
      ++ match alternate with Some a => stmtNodes a | None => [] end
  | WhileStatement test body => exprNodes test ++ stmtNodes body
  | ReturnStatement argument =>
      match argument with Some a => exprNodes a | None => [] end
  | ThrowStatement argument => exprNodes argument
  | BreakStatement _ => []
  | VariableDeclaration _ declarations =>
      flat_map (fun d => match d with
                         | (_, Some init) => exprNodes init
                         | (_, None) => []
                         end) declarations
  | FunctionDeclaration _ _ body => flat_map stmtNodes body
  | ClassDeclaration _ _ superClass body =>
      match superClass with Some c => exprNodes c | None => [] end
      ++ flat_map memberNodes body
  end
with memberNodes (m : member) : list node :=
  MemberNode m ::
  match m with
  | ObjectProperty key value => exprNodes key ++ exprNodes value
  | ObjectMethod key _ body => exprNodes key ++ flat_map stmtNodes body
  | ClassMethod key _ body => exprNodes key ++ flat_map stmtNodes body
  | ClassProperty key value =>
      exprNodes key ++ match value with Some v => exprNodes v | None => [] end
  end.

(** The node kinds of the throwing visitor:
    [VariableDeclaration|Function|AssignmentExpression|UpdateExpression|
     YieldExpression|ReturnStatement]. *)
Definition isSideEffect (n : node) : bool :=
  match n with
  | StmtNode (VariableDeclaration _ _) => true
  | ExprNode (AssignmentExpression _ _ _) => true
  | ExprNode (UpdateExpression _ _ _) => true
  | ExprNode (YieldExpression _) => true
  | StmtNode (ReturnStatement _) => true
  | _ => isFunction n
  end.

Definition mentionsSideEffect (nodes : list node) : bool := existsb isSideEffect nodes.

(** The [Class] alias: class declarations and class expressions. *)
Definition isClass (n : node) : bool :=
  match n with
  | StmtNode (ClassDeclaration _ _ _ _) => true
  | ExprNode (ClassExpression _ _ _ _) => true
  | _ => false
  end.

(** ** Induction over the tree *)

Section Lifting.
Context {A : Type} {S : A -> Prop} (f : forall a, S a).

Fixpoint allOf (l : list A) : Forall S l :=
  match l with
  | [] => @List.Forall_nil A S
  | a :: r => @List.Forall_cons A S a r (f a) (allOf r)
  end.

Definition optOf (o : option A) : forall a, o = Some a -> S a :=
  match o with
  | Some b => fun a E => match E in _ = x return match x with Some y => S y | None => True end with eq_refl => f b end
  | None => fun a E => match E in _ = x return match x with Some y => S y | None => True end with eq_refl => I end
  end.
End Lifting.

Section TreeInduction.
Variables (P : expr -> Prop) (Q : stmt -> Prop) (R : member -> Prop).

Definition OptP (o : option expr) : Prop := forall e, o = Some e -> P e.
Definition OptQ (o : option stmt) : Prop := forall s, o = Some s -> Q s.

Hypothesis HIdentifier : forall name, P (Identifier name).
Hypothesis HStringLiteral : forall value, P (StringLiteral value).
Hypothesis HNumericLiteral : forall value, P (NumericLiteral value).
Hypothesis HBooleanLiteral : forall value, P (BooleanLiteral value).
Hypothesis HNullLiteral : P NullLiteral.
Hypothesis HThisExpression : P ThisExpression.
Hypothesis HArrayExpression : forall l, Forall P l -> P (ArrayExpression l).
Hypothesis HObjectExpression : forall l, Forall R l -> P (ObjectExpression l).
Hypothesis HSequenceExpression : forall l, Forall P l -> P (SequenceExpression l).
Hypothesis HUnaryExpression : forall op a, P a -> P (UnaryExpression op a).
Hypothesis HBinaryExpression : forall op a b, P a -> P b -> P (BinaryExpression op a b).
Hypothesis HConditionalExpression :
  forall a b c, P a -> P b -> P c -> P (ConditionalExpression a b c).
Hypothesis HAssignmentExpression :
  forall op a b, P a -> P b -> P (AssignmentExpression op a b).
Hypothesis HUpdateExpression : forall op pre a, P a -> P (UpdateExpression op pre a).
Hypothesis HYieldExpression : forall a, OptP a -> P (YieldExpression a).
Hypothesis HAwaitExpression : forall a, P a -> P (AwaitExpression a).
Hypothesis HCallExpression : forall c l, P c -> Forall P l -> P (CallExpression c l).
Hypothesis HMemberExpression : forall a b c, P a -> P b -> P (MemberExpression a b c).
Hypothesis HFunctionExpression :
  forall id line body, Forall Q body -> P (FunctionExpression id line body).
Hypothesis HArrowBlock :
  forall line body, Forall Q body -> P (ArrowFunctionExpression line (inl body)).
Hypothesis HArrowValue :
  forall line value, P value -> P (ArrowFunctionExpression line (inr value)).
Hypothesis HClassExpression :
  forall id line sup body, OptP sup -> Forall R body -> P (ClassExpression id line sup body).

Hypothesis HExpressionStatement : forall h e, P e -> Q (ExpressionStatement h e).
Hypothesis HLabeledStatement : forall label body, Q body -> Q (LabeledStatement label body).
Hypothesis HBlockStatement : forall body, Forall Q body -> Q (BlockStatement body).
Hypothesis HEmptyStatement : Q EmptyStatement.
Hypothesis HIfStatement :
  forall t c a, P t -> Q c -> OptQ a -> Q (IfStatement t c a).
Hypothesis HWhileStatement : forall t b, P t -> Q b -> Q (WhileStatement t b).
Hypothesis HReturnStatement : forall a, OptP a -> Q (ReturnStatement a).
Hypothesis HThrowStatement : forall a, P a -> Q (ThrowStatement a).
Hypothesis HBreakStatement : forall label, Q (BreakStatement label).
Hypothesis HVariableDeclaration :
  forall kind ds, Forall (fun d => OptP (snd d)) ds -> Q (VariableDeclaration kind ds).
Hypothesis HFunctionDeclaration :
  forall id line body, Forall Q body -> Q (FunctionDeclaration id line body).
Hypothesis HClassDeclaration :
  forall id line sup body, OptP sup -> Forall R body -> Q (ClassDeclaration id line sup body).

Hypothesis HObjectProperty : forall k v, P k -> P v -> R (ObjectProperty k v).
Hypothesis HObjectMethod :
  forall k line body, P k -> Forall Q body -> R (ObjectMethod k line body).
Hypothesis HClassMethod :
  forall k line body, P k -> Forall Q body -> R (ClassMethod k line body).
Hypothesis HClassProperty : forall k v, P k -> OptP v -> R (ClassProperty k v).

Fixpoint expr_tree_ind (e : expr) : P e :=
  match e with
  | Identifier name => HIdentifier name
  | StringLiteral value => HStringLiteral value
  | NumericLiteral value => HNumericLiteral value
  | BooleanLiteral value => HBooleanLiteral value
  | NullLiteral => HNullLiteral
  | ThisExpression => HThisExpression
  | ArrayExpression l => HArrayExpression l (allOf expr_tree_ind l)
  | ObjectExpression l => HObjectExpression l (allOf member_tree_ind l)
  | SequenceExpression l => HSequenceExpression l (allOf expr_tree_ind l)
  | UnaryExpression op a => HUnaryExpression op a (expr_tree_ind a)
  | BinaryExpression op a b => HBinaryExpression op a b (expr_tree_ind a) (expr_tree_ind b)
  | ConditionalExpression a b c =>
      HConditionalExpression a b c (expr_tree_ind a) (expr_tree_ind b) (expr_tree_ind c)
  | AssignmentExpression op a b =>
      HAssignmentExpression op a b (expr_tree_ind a) (expr_tree_ind b)
  | UpdateExpression op pre a => HUpdateExpression op pre a (expr_tree_ind a)
  | YieldExpression a => HYieldExpression a (optOf expr_tree_ind a)
  | AwaitExpression a => HAwaitExpression a (expr_tree_ind a)
  | CallExpression c l => HCallExpression c l (expr_tree_ind c) (allOf expr_tree_ind l)
  | MemberExpression a b c => HMemberExpression a b c (expr_tree_ind a) (expr_tree_ind b)
  | FunctionExpression id line body =>
      HFunctionExpression id line body (allOf stmt_tree_ind body)
  | ArrowFunctionExpression line (inl body) => HArrowBlock line body (allOf stmt_tree_ind body)
  | ArrowFunctionExpression line (inr value) => HArrowValue line value (expr_tree_ind value)
  | ClassExpression id line sup body =>
      HClassExpression id line sup body (optOf expr_tree_ind sup) (allOf member_tree_ind body)
  end
with stmt_tree_ind (s : stmt) : Q s :=
  match s with
  | ExpressionStatement h e => HExpressionStatement h e (expr_tree_ind e)
  | LabeledStatement label body => HLabeledStatement label body (stmt_tree_ind body)
  | BlockStatement body => HBlockStatement body (allOf stmt_tree_ind body)
  | EmptyStatement => HEmptyStatement
  | IfStatement t c a =>
      HIfStatement t c a (expr_tree_ind t) (stmt_tree_ind c) (optOf stmt_tree_ind a)
  | WhileStatement t b => HWhileStatement t b (expr_tree_ind t) (stmt_tree_ind b)
  | ReturnStatement a => HReturnStatement a (optOf expr_tree_ind a)
  | ThrowStatement a => HThrowStatement a (expr_tree_ind a)
  | BreakStatement label => HBreakStatement label
  | VariableDeclaration kind ds =>
      HVariableDeclaration kind ds
        (allOf (fun d => optOf expr_tree_ind (snd d)) ds)
  | FunctionDeclaration id line body =>
      HFunctionDeclaration id line body (allOf stmt_tree_ind body)
  | ClassDeclaration id line sup body =>
      HClassDeclaration id line sup body (optOf expr_tree_ind sup) (allOf member_tree_ind body)
  end
with member_tree_ind (m : member) : R m :=
  match m with
  | ObjectProperty k v => HObjectProperty k v (expr_tree_ind k) (expr_tree_ind v)
  | ObjectMethod k line body =>
      HObjectMethod k line body (expr_tree_ind k) (allOf stmt_tree_ind body)
  | ClassMethod k line body =>
      HClassMethod k line body (expr_tree_ind k) (allOf stmt_tree_ind body)
  | ClassProperty k v => HClassProperty k v (expr_tree_ind k) (optOf expr_tree_ind v)
  end.

Definition tree_ind : (forall e, P e) /\ (forall s, Q s) /\ (forall m, R m) :=
  conj expr_tree_ind (conj stmt_tree_ind member_tree_ind).
End TreeInduction.


(** ** Vocabulary of the specification *)

(** A labeled statement with the given label. *)
Definition isLabeled (label : string) (n : node) : bool :=
  match n with
  | StmtNode (LabeledStatement l _) => String.eqb l label
  | _ => false
  end.

(** The label occurs on a statement among the nodes. *)
Definition labelOccurs (label : string) (nodes : list node) : bool :=
  existsb (isLabeled label) nodes.

Definition isStatement (n : node) : bool :=
  match n with StmtNode _ => true | _ => false end.

(** The statements that a body stands for: those of a block, or the
    single statement. *)
Definition statementsOf (body : stmt) : list stmt :=
  match body with
  | BlockStatement statements => statements
  | single => [single]
  end.

(** A letter in upper case; any other character as it is. *)
Definition upperLetter (c : ascii) : ascii :=
  if (97 <=? nat_of_ascii c)%nat && (nat_of_ascii c <=? 122)%nat
  then ascii_of_nat (nat_of_ascii c - 32)
  else c.

Fixpoint upperCase (s : string) : string :=
  match s with
  | EmptyString => EmptyString
  | String c r => String (upperLetter c) (upperCase r)
  end.

(** [entry] occurs in [text], letter case ignored: it does once both are
    written in capitals. *)
Definition caseInsensitiveSubstring (entry text : string) : bool :=
  JsString.includes (upperCase text) (upperCase entry).


(** The process without the three override variables. *)
Definition withoutOverrides (proc : Process) : Process :=
  {| NODE_ENV := NODE_ENV proc; TRACE_CONTEXT := None; TRACE_FILE := None;
     TRACE_LEVEL := None; cwd := cwd proc |}.

(** An absolute path written from its components. *)
Definition renderPath (components : list string) : string :=
  "/" +:+ JsString.join "/" components.

(** A path component: not empty, and free of slashes. *)
Definition isComponent (s : string) : bool :=
  JsString.truthy s && forallb (fun c => negb (fspath.isSlash c)) (list_ascii_of_string s).

(** The display prefix: the context, a colon, and two spaces per level of
    indentation. *)
Definition displayPrefix (metadata : Metadata) : string :=
  context metadata +:+ ":" +:+ JsString.repeat "  " (indent metadata).

(** A name of a directory of an absolute, normalized path. *)
Definition isName (s : string) : bool :=
  isComponent s && negb (String.eqb s ".") && negb (String.eqb s "..").

(** The traversal of a statement either returns or throws the error of
    the throwing visitor. *)
Definition Settled (sideEffect : error) (render : expr -> result expr) (s : stmt) : Prop :=
  (exists s', traverse sideEffect render s = Ok s') \/
  traverse sideEffect render s = Throw sideEffect.

(** A renderer, seen from the traversal, keeps the side effects of the
    payload: it returns an expression, and the throwing visitor fires in
    it when it fires in the payload. *)
Definition KeepsSideEffects (render : expr -> result expr) : Prop :=
  forall e, exists e', render e = Ok e' /\ (scanExpr e = true -> scanExpr e' = true).

(** It adds none of its own either. *)
Definition Faithful (render : expr -> result expr) : Prop :=
  forall e, exists e', render e = Ok e' /\ scanExpr e' = scanExpr e.

(** The rewrite of the expression statements below a label's body: every
    unmarked expression statement, at any depth, is replaced by a marked
    statement that wraps the result of the renderer, applied to the message
    of literals and to the metadata; everything else is kept. *)
Inductive Rewritten (alias : AliasValue) (metadata : Metadata) : stmt -> stmt -> Prop :=
| RwMarked e :
    Rewritten alias metadata (ExpressionStatement true e) (ExpressionStatement true e)
| RwExpression e e' :
    callAlias alias
      {| m_prefix := StringLiteral (prefix metadata);
         m_content := e;
         m_hasStartMessage := BooleanLiteral (hasStartMessage metadata);
         m_isStartMessage := BooleanLiteral (isStartMessage metadata);
         m_indent := NumericLiteral (indent metadata);
         m_parentName := StringLiteral (parentName metadata);
         m_filename := StringLiteral (filename metadata);
         m_dirname := StringLiteral (dirname metadata);
         m_basename := StringLiteral (basename metadata);
         m_extname := StringLiteral (extname metadata) |}
      metadata = Ok (ExprNode e') ->
    Rewritten alias metadata (ExpressionStatement false e) (ExpressionStatement true e')
| RwLabeled label body body' :
    Rewritten alias metadata body body' ->
    Rewritten alias metadata (LabeledStatement label body) (LabeledStatement label body')
| RwBlock body body' :
    Forall2 (Rewritten alias metadata) body body' ->
    Rewritten alias metadata (BlockStatement body) (BlockStatement body')
| RwIf test consequent consequent' alternate alternate' :
    Rewritten alias metadata consequent consequent' ->
    option_Forall2 (Rewritten alias metadata) alternate alternate' ->
    Rewritten alias metadata (IfStatement test consequent alternate)
      (IfStatement test consequent' alternate')
| RwWhile test body body' :
    Rewritten alias metadata body body' ->
    Rewritten alias metadata (WhileStatement test body) (WhileStatement test body')
| RwEmpty : Rewritten alias metadata EmptyStatement EmptyStatement
| RwThrow argument :
    Rewritten alias metadata (ThrowStatement argument) (ThrowStatement argument)
| RwBreak label : Rewritten alias metadata (BreakStatement label) (BreakStatement label)
| RwClass id line superClass body :
    Rewritten alias metadata (ClassDeclaration id line superClass body)
      (ClassDeclaration id line superClass body).

(** ** Vocabulary of the further properties *)

(** Only commas and white space. *)
Definition isBlank (s : string) : bool :=
  forallb (fun c => JsString.isSpace c || Ascii.eqb c ",") (list_ascii_of_string s).

(** [entry] is a token of the comma-separated variable: lower-cased,
    trimmed, and not empty. *)
Definition overrideToken (variable : option string) (entry : string) : Prop :=
  exists s token,
    variable = Some s /\ In token (JsString.split "," s) /\
    entry = JsString.trim (JsString.toLowerCase token) /\ entry <> "".

(** The labels of a configuration: the three default ones when [aliases]
    is left out, else the names with a value other than the empty string. *)
Definition configuredLabel (opts : PluginOptions) (label : string) : bool :=
  match aliases opts with
  | None => inList label ["log"; "trace"; "warn"]
  | Some table =>
      match table !! label with
      | Some v => aliasTruthy v
      | None => false
      end
  end.

(** The call [console.level(prefix, payload)]; the expressions of a
    sequence are spliced in. *)
Definition consoleCall (level : string) (metadata : Metadata) (content : expr) : expr :=
  CallExpression (MemberExpression (Identifier "console") (Identifier level) false)
    (StringLiteral (displayPrefix metadata) ::
     match content with
     | SequenceExpression expressions => expressions
     | _ => [content]
     end).

(** The level of the renderer of a default label. *)
Definition defaultLevel (label : string) : string :=
  if String.eqb label "warn" then "warn" else "log".

(** The name an ancestor contributes to the parent name, if any. *)
Definition scopeName (n : node) : option string :=
  match n with
  | MemberNode (ClassMethod (Identifier name) _ _) => Some name
  | MemberNode (ClassMethod _ _ _) => Some "[computed method]"
  | StmtNode (ClassDeclaration (Some name) _ _ _) => Some name
  | StmtNode (ClassDeclaration None line _ _) => Some (anonymousClass line)
  | StmtNode (FunctionDeclaration id line _) => Some (functionName id line)
  | ExprNode (FunctionExpression id line _) => Some (functionName id line)
  | ExprNode (ArrowFunctionExpression line _) => Some (anonymous line)
  | MemberNode (ObjectMethod _ line _) => Some (anonymous line)
  | _ => None
  end.

(** The ancestors that end the search for the parent scope. *)
Definition isScope (n : node) : bool :=
  isClassMethod n || isClassDeclaration n || isFunction n || isProgram n.

(** The ancestors that count for the indentation. *)
Definition indents (n : node) : bool := negb (isClassBody n) && negb (isBlockStatement n).

(** A labeled statement whose label is an alias. *)
Definition isAliasLabel (opts : PluginOptions) (n : node) : bool :=
  match n with
  | StmtNode (LabeledStatement label _) => isAlias opts label
  | _ => false
  end.

(** A labeled statement that the scan for the start message steps over. *)
Definition isSkippedLabel (opts : PluginOptions) (n : node) : bool :=
  isLabeledStatement n && negb (isAliasLabel opts n).

(** A labeled statement whose label the alias table does not hold, be it
    as an entry of its own or as a member that every object inherits. *)
Definition isOtherLabel (opts : PluginOptions) (n : node) : bool :=
  match n with
  | StmtNode (LabeledStatement label _) =>
      negb (isAlias opts label) && negb (inList label objectPrototype)
  | _ => false
  end.

(** ** Sample inputs *)

Definition sampleProcess : Process :=
  {| NODE_ENV := None; TRACE_CONTEXT := None; TRACE_FILE := None;
     TRACE_LEVEL := None; cwd := "/home/user/project" |}.

(** No configuration at all. *)
Definition noOptions : PluginOptions :=
  {| aliases := None; strip := StripAbsent; normalized := false |}.

(** [{ strip: true }] *)
Definition stripAll : PluginOptions :=
  {| aliases := None; strip := StripBool true; normalized := false |}.

(** [{ aliases: {} }] *)
Definition emptyAliases : PluginOptions :=
  {| aliases := Some ∅; strip := StripAbsent; normalized := false |}.

(** A labeled statement at the top of a program in [a.js]. *)
Definition topLevel (label : string) (body : stmt) : NodePath :=
  {| path_label := label; path_body := body; path_key := 0;
     path_parents := [Program [LabeledStatement label body]];
     path_filename := "a.js" |}.

(** [(x = 5);] *)
Definition assignmentStatement : stmt :=
  ExpressionStatement false (AssignmentExpression "=" (Identifier "x") (NumericLiteral 5)).

(** ['hello', username;] *)
Definition sequenceStatement : stmt :=
  ExpressionStatement false (SequenceExpression [StringLiteral "hello"; Identifier "username"]).

(** [(class {});] *)
Definition classStatement : stmt :=
  ExpressionStatement false (ClassExpression None 1 None []).

(** [class A {}] *)
Definition classDeclaration : stmt := ClassDeclaration (Some "A") 1 None [].

(** [{ if (c) { 'x'; } }] *)
Definition nestedStatement : stmt :=
  BlockStatement
    [IfStatement (Identifier "c")
       (BlockStatement [ExpressionStatement false (StringLiteral "x")]) None].

(** [trace: 'x';] *)
Definition innerLabel : stmt :=
  LabeledStatement "trace" (ExpressionStatement false (StringLiteral "x")).

(** [function login () { trace: 'a'; trace: 'b', user; return; }] in
    [src/db/models/index.js]. *)
Definition loginBody : list stmt :=
  [ LabeledStatement "trace" (ExpressionStatement false (StringLiteral "a"));
    LabeledStatement "trace" sequenceStatement;
    ReturnStatement None ].

Definition loginFunction : stmt := FunctionDeclaration (Some "login") 3 loginBody.

Definition loginPath (key : nat) (body : stmt) : NodePath :=
  {| path_label := "trace"; path_body := body; path_key := key;
     path_parents :=
       [StmtNode (BlockStatement loginBody); StmtNode loginFunction; Program [loginFunction]];
     path_filename := "src/db/models/index.js" |}.

(** [function later () { setup(); trace: 'x'; }] *)
Definition laterBody : list stmt :=
  [ ExpressionStatement false (CallExpression (Identifier "setup") []); innerLabel ].

Definition laterFunction : stmt := FunctionDeclaration (Some "later") 7 laterBody.

Definition laterPath : NodePath :=
  {| path_label := "trace"; path_body := ExpressionStatement false (StringLiteral "x");
     path_key := 1;
     path_parents :=
       [StmtNode (BlockStatement laterBody); StmtNode laterFunction; Program [laterFunction]];
     path_filename := "src/db/models/index.js" |}.

(** [function authenticate () { trace: 'a'; setup(); trace: 'x'; }], and
    its body once the first label is rewritten. *)
Definition authenticateBody : list stmt :=
  [ LabeledStatement "trace" (ExpressionStatement false (StringLiteral "a"));
    ExpressionStatement false (CallExpression (Identifier "setup") []);
    innerLabel ].

Definition authenticateRewritten : list stmt :=
  [ ExpressionStatement true
      (CallExpression (MemberExpression (Identifier "console") (Identifier "log") false)
         [StringLiteral "models:authenticate:"; StringLiteral "a"]);
    ExpressionStatement false (CallExpression (Identifier "setup") []);
    innerLabel ].

(** The path of the last label of a function with the given body. *)
Definition lastLabelPath (body : list stmt) : NodePath :=
  {| path_label := "trace"; path_body := ExpressionStatement false (StringLiteral "x");
     path_key := 2;
     path_parents :=
       [ StmtNode (BlockStatement body);
         StmtNode (FunctionDeclaration (Some "authenticate") 3 body);
         Program [FunctionDeclaration (Some "authenticate") 3 body] ];
     path_filename := "src/db/models/index.js" |}.

(** [{ 'a'; 'b', c; }] *)
Definition twoStatements : stmt :=
  BlockStatement
    [ ExpressionStatement false (StringLiteral "a");
      ExpressionStatement false (SequenceExpression [StringLiteral "b"; Identifier "c"]) ].

(** The renderer of [trace] in the default table. *)
Definition traceAlias : AliasValue := AliasFunction (getLogFunction sampleBabel "log").

(** The metadata of a label of [login]. *)
Definition sampleMetadata : Metadata :=
  collectMetadata sampleProcess (loginPath 0 (ExpressionStatement false (StringLiteral "a")))
    (normalizeOpts sampleBabel noOptions).

(** A production build with [TRACE_LEVEL=" WARN,Debug "]. *)
Definition levelProcess : Process :=
  {| NODE_ENV := Some "production"; TRACE_CONTEXT := None; TRACE_FILE := None;
     TRACE_LEVEL := Some " WARN,Debug "; cwd := "/home/user/project" |}.

(** [TRACE_CONTEXT="Models:LOGIN"], and a level that matches as well. *)
Definition contextProcess : Process :=
  {| NODE_ENV := Some "production"; TRACE_CONTEXT := Some "Models:LOGIN";
     TRACE_FILE := None; TRACE_LEVEL := Some "trace"; cwd := "/home/user/project" |}.

(** [TRACE_FILE="other.js, DB/Models"] *)
Definition fileProcess : Process :=
  {| NODE_ENV := Some "production"; TRACE_CONTEXT := Some "logout";
     TRACE_FILE := Some "other.js, DB/Models"; TRACE_LEVEL := None;
     cwd := "/home/user/project" |}.

(** [{ strip: "production" }] and [{ strip: { production: true, test: false } }] *)
Definition stripProduction : PluginOptions :=
  {| aliases := None; strip := StripString "production"; normalized := false |}.

Definition stripTable : PluginOptions :=
  {| aliases := None;
     strip := StripObject (<["production" := true]> (<["test" := false]> ∅));
     normalized := false |}.





(** [if (c) trace: { 'a'; 'b', c; }]: the label is the consequent of the
    [if]. *)
Definition consequentPath : NodePath :=
  {| path_label := "trace"; path_body := twoStatements; path_key := 0;
     path_parents :=
       [ StmtNode (IfStatement (Identifier "c") (LabeledStatement "trace" twoStatements) None);
         Program [IfStatement (Identifier "c") (LabeledStatement "trace" twoStatements) None] ];
     path_filename := "a.js" |}.

(** A configuration of the macro with aliases of its own. *)
Definition macroConfig : MacroConfig :=
  {| cfg_aliases := Some (<["trace" := AliasString "console.log(content)"]> ∅);
     cfg_strip := StripAbsent; cfg_warningLabels := None |}.

(** * Properties *)

(** ** Strings *)

Lemma lowerChar_idem (c : ascii) :
  JsString.lowerChar (JsString.lowerChar c) = JsString.lowerChar c.
Proof. destruct c as [[] [] [] [] [] [] [] []]; reflexivity. Qed.

Lemma isSpace_lowerChar (c : ascii) :
  JsString.isSpace (JsString.lowerChar c) = JsString.isSpace c.
Proof. destruct c as [[] [] [] [] [] [] [] []]; reflexivity. Qed.

Lemma toLowerCase_idem (s : string) :
  JsString.toLowerCase (JsString.toLowerCase s) = JsString.toLowerCase s.
Proof.
  induction s as [|c s IH]; simpl; [reflexivity|].
  rewrite lowerChar_idem, IH. reflexivity.
Qed.

Lemma toLowerCase_trimStart (s : string) :
  JsString.toLowerCase (JsString.trimStart s) = JsString.trimStart (JsString.toLowerCase s).
Proof.
  induction s as [|c s IH]; simpl; [reflexivity|].
  rewrite isSpace_lowerChar. destruct (JsString.isSpace c); [exact IH | reflexivity].
Qed.

Lemma toLowerCase_trimEnd (s : string) :
  JsString.toLowerCase (JsString.trimEnd s) = JsString.trimEnd (JsString.toLowerCase s).
Proof.
  induction s as [|c s IH]; simpl; [reflexivity|].
  rewrite <- IH, isSpace_lowerChar.
  destruct (JsString.trimEnd s) as [|a r]; simpl.
  - destruct (JsString.isSpace c); reflexivity.
  - reflexivity.
Qed.

Lemma toLowerCase_trim (s : string) :
  JsString.toLowerCase (JsString.trim s) = JsString.trim (JsString.toLowerCase s).
Proof.
  unfold JsString.trim. rewrite toLowerCase_trimEnd, toLowerCase_trimStart. reflexivity.
Qed.

(** The entries of an override list are in lower case already. *)
Lemma normalizeEnv_lower (input : option string) (entry : string) :
  In entry (normalizeEnv input) -> JsString.toLowerCase entry = entry.
Proof.
  unfold normalizeEnv. destruct input as [s|]; [|intros []].
  destruct (negb (JsString.truthy s)); [intros []|].
  intros H. apply list_elem_of_In, list_elem_of_filter in H. destruct H as [_ H].
  apply list_elem_of_In, in_map_iff in H. destruct H as (c & <- & _).
  rewrite toLowerCase_trim, toLowerCase_idem. reflexivity.
Qed.

Lemma existsb_ext_In {A : Type} (f g : A -> bool) (l : list A) :
  (forall a, In a l -> f a = g a) -> existsb f l = existsb g l.
Proof.
  induction l as [|a l IH]; intros H; simpl; [reflexivity|].
  rewrite (H a (or_introl eq_refl)), IH; [reflexivity|].
  intros b Hb. apply H. right. exact Hb.
Qed.

(** ** Strip decision *)

Lemma upper_lower (c : ascii) : upperLetter (JsString.lowerChar c) = upperLetter c.
Proof. destruct c as [[] [] [] [] [] [] [] []]; reflexivity. Qed.

Lemma lower_upper (c : ascii) : JsString.lowerChar (upperLetter c) = JsString.lowerChar c.
Proof. destruct c as [[] [] [] [] [] [] [] []]; reflexivity. Qed.

(** Two characters are the same in lower case exactly when they are the
    same in upper case. *)
Lemma letters_agree (a b : ascii) :
  JsString.lowerChar a = JsString.lowerChar b <-> upperLetter a = upperLetter b.
Proof.
  split; intros H.
  - rewrite <- (upper_lower a), <- (upper_lower b), H. reflexivity.
  - rewrite <- (lower_upper a), <- (lower_upper b), H. reflexivity.
Qed.

Lemma prefix_letters (e t : string) :
  String.prefix (JsString.toLowerCase e) (JsString.toLowerCase t)
  = String.prefix (upperCase e) (upperCase t).
Proof.
  revert t. induction e as [|a e IH]; intros [|b t]; try reflexivity.
  cbn [JsString.toLowerCase upperCase String.prefix].
  destruct (ascii_dec (JsString.lowerChar a) (JsString.lowerChar b)) as [El|Nl];
    destruct (ascii_dec (upperLetter a) (upperLetter b)) as [Eu|Nu].
  - apply IH.
  - exfalso. apply Nu, letters_agree, El.
  - exfalso. apply Nl, letters_agree, Eu.
  - reflexivity.
Qed.

(** Looking for the entry in lower case in the text in lower case is
    looking for the entry in the text, letter case ignored. *)
Lemma includes_letters (text entry : string) :
  JsString.includes (JsString.toLowerCase text) (JsString.toLowerCase entry)
  = caseInsensitiveSubstring entry text.
Proof.
  unfold caseInsensitiveSubstring. induction text as [|c text IH].
  - change (String.prefix (JsString.toLowerCase entry) (JsString.toLowerCase "") || false
            = String.prefix (upperCase entry) (upperCase "") || false).
    rewrite prefix_letters. reflexivity.
  - change (String.prefix (JsString.toLowerCase entry) (JsString.toLowerCase (String c text))
            || JsString.includes (JsString.toLowerCase text) (JsString.toLowerCase entry)
            = String.prefix (upperCase entry) (upperCase (String c text))
              || JsString.includes (upperCase text) (upperCase entry)).
    rewrite IH, prefix_letters. reflexivity.
Qed.

Lemma preservedContext_spec (proc : Process) (metadata : Metadata) :
  preservedContext proc metadata
  = existsb (fun entry => caseInsensitiveSubstring entry (context metadata))
      (PRESERVE_CONTEXTS proc).
Proof.
  unfold preservedContext.
  apply existsb_ext_In. intros entry H.
  unfold PRESERVE_CONTEXTS in H.
  rewrite <- includes_letters, (normalizeEnv_lower _ _ H). reflexivity.
Qed.

Lemma preservedLevel_spec (proc : Process) (name : string) :
  preservedLevel proc name
  = existsb (fun entry => String.eqb entry (JsString.toLowerCase name)) (PRESERVE_LEVELS proc).
Proof.
  unfold preservedLevel. apply existsb_ext_In. intros entry _. apply String.eqb_sym.
Qed.

Lemma withoutOverrides_requested (proc : Process) (strip : StripConfig) :
  stripRequested (withoutOverrides proc) strip = stripRequested proc strip.
Proof. reflexivity. Qed.

(** C3.  [shouldStrip] is false for a falsy strip configuration.  For a
    configuration that is [true], or the current environment name, or a
    dictionary that maps the current environment name to [true], it is true
    unless an override matches, in this order: a context entry that occurs
    in the context whatever the letter case, else a file entry that occurs
    in the lower-cased file name, else a level entry equal to the
    lower-cased label.  Whenever it is true with the overrides, it is true
    without them. *)
Theorem shouldStrip_decision (proc : Process) (name : string) (metadata : Metadata)
    (opts : PluginOptions) :
  (stripTruthy (strip opts) = false -> shouldStrip proc name metadata opts = false) /\
  (stripTruthy (strip opts) = true ->
   (strip opts = StripBool true \/
    (exists s, strip opts = StripString s /\ NODE_ENV proc = Some s) \/
    (exists m, strip opts = StripObject m /\ m !! envKey (NODE_ENV proc) = Some true)) ->
   shouldStrip proc name metadata opts =
     if existsb (fun entry => caseInsensitiveSubstring entry (context metadata))
          (PRESERVE_CONTEXTS proc) then false
     else if existsb (fun entry =>
                        JsString.includes (JsString.toLowerCase (filename metadata)) entry)
               (PRESERVE_FILES proc) then false
     else if existsb (fun entry => String.eqb entry (JsString.toLowerCase name))
               (PRESERVE_LEVELS proc) then false
     else true) /\
  (shouldStrip proc name metadata opts = true ->
   shouldStrip (withoutOverrides proc) name metadata opts = true).
Proof.
  split; [|split].
  - intros H. unfold shouldStrip, stripRequested. rewrite H. reflexivity.
  - intros Ht Hc. unfold shouldStrip.
    assert (Hr : stripRequested proc (strip opts) = true).
    { unfold stripRequested. rewrite Ht. simpl.
      destruct Hc as [-> | [(s & -> & ->) | (m & -> & Hm)]]; simpl.
      - reflexivity.
      - rewrite String.eqb_refl. reflexivity.
      - rewrite Hm. reflexivity. }
    rewrite Hr, <- preservedContext_spec, <- preservedLevel_spec. reflexivity.
  - unfold shouldStrip. rewrite withoutOverrides_requested.
    destruct (stripRequested proc (strip opts)); [|discriminate].
    intros _. reflexivity.
Qed.

Lemma shouldStrip_decision_witness :
  (shouldStrip levelProcess "Warn" sampleMetadata stripAll = false /\
   shouldStrip levelProcess "trace" sampleMetadata stripAll = true) /\
  (shouldStrip contextProcess "warn" sampleMetadata stripAll = false /\
   shouldStrip fileProcess "warn" sampleMetadata stripAll = false) /\
  (shouldStrip levelProcess "trace" sampleMetadata stripProduction = true /\
   shouldStrip levelProcess "debug" sampleMetadata stripProduction = false /\
   shouldStrip levelProcess "trace" sampleMetadata stripTable = true) /\
  shouldStrip (withoutOverrides levelProcess) "trace" sampleMetadata stripAll = true /\
  shouldStrip contextProcess "trace" sampleMetadata noOptions = false.
Proof.
  pose proof (shouldStrip_decision levelProcess "Warn" sampleMetadata stripAll)
    as (_ & Hwarn & _).
  pose proof (shouldStrip_decision levelProcess "trace" sampleMetadata stripAll)
    as (_ & Htrace & Hmono).
  pose proof (shouldStrip_decision contextProcess "warn" sampleMetadata stripAll)
    as (_ & Hcontext & _).
  pose proof (shouldStrip_decision fileProcess "warn" sampleMetadata stripAll)
    as (_ & Hfile & _).
  pose proof (shouldStrip_decision levelProcess "trace" sampleMetadata stripProduction)
    as (_ & Hname & _).
  pose proof (shouldStrip_decision levelProcess "debug" sampleMetadata stripProduction)
    as (_ & Hdebug & _).
  pose proof (shouldStrip_decision levelProcess "trace" sampleMetadata stripTable)
    as (_ & Htable & _).
  pose proof (shouldStrip_decision contextProcess "trace" sampleMetadata noOptions)
    as (Hfalsy & _ & _).
  assert (H : shouldStrip levelProcess "trace" sampleMetadata stripAll = true).
  { rewrite Htrace; [reflexivity | reflexivity | left; reflexivity]. }
  split; [split|split; [split|split; [split; [|split]|split]]].
  - rewrite Hwarn; [reflexivity | reflexivity | left; reflexivity].
  - exact H.
  - rewrite Hcontext; [reflexivity | reflexivity | left; reflexivity].
  - rewrite Hfile; [reflexivity | reflexivity | left; reflexivity].
  - rewrite Hname; [reflexivity | reflexivity |].
    right. left. exists "production". split; reflexivity.
  - rewrite Hdebug; [reflexivity | reflexivity |].
    right. left. exists "production". split; reflexivity.
  - rewrite Htable; [reflexivity | reflexivity |].
    right. right. eexists. split; reflexivity.
  - exact (Hmono H).
  - apply Hfalsy. reflexivity.
Defined.

(** The override priority of the specification: with [strip: true] and
    [TRACE_LEVEL=warn], a [warn] label is kept and a [trace] label is
    stripped. *)
Example override_priority :
  let proc := {| NODE_ENV := None; TRACE_CONTEXT := None; TRACE_FILE := None;
                 TRACE_LEVEL := Some "warn"; cwd := "/home/user/project" |} in
  shouldStrip proc "warn" sampleMetadata stripAll = false /\
  shouldStrip proc "trace" sampleMetadata stripAll = true.
Proof. split; vm_compute; reflexivity. Qed.

(** For a string configuration, [strip[NODE_ENV]] reads a property of the
    string: with [NODE_ENV=length] every non-empty string strips. *)
Lemma string_strip_length (proc : Process) (s : string) :
  JsString.truthy s = true -> NODE_ENV proc = Some "length" ->
  stripRequested proc (StripString s) = true.
Proof.
  intros Hs Henv. unfold stripRequested. rewrite Henv. simpl. rewrite Hs. simpl.
  destruct s as [|c s]; [discriminate Hs|]. simpl. apply orb_true_r.
Qed.

(** C4.  A string configuration that differs from the environment name
    still strips when the environment name is a property of the string:
    with [strip: "production"] and [NODE_ENV=length], [strip[NODE_ENV]] is
    the length of the string, which is truthy. *)
Theorem string_strip_other_environment :
  let proc := {| NODE_ENV := Some "length"; TRACE_CONTEXT := None; TRACE_FILE := None;
                 TRACE_LEVEL := None; cwd := "/home/user/project" |} in
  let opts := {| aliases := None; strip := StripString "production"; normalized := false |} in
  String.eqb "production" "length" = false /\
  stripRequested proc (strip opts) = true /\
  shouldStrip proc "trace" sampleMetadata opts = true.
Proof. repeat split; vm_compute; reflexivity. Qed.

(** ** The default renderer *)

Lemma append_cons (c : ascii) (s t : string) : String c s +:+ t = String c (s +:+ t).
Proof. reflexivity. Qed.

Lemma append_nil_r (s : string) : s +:+ "" = s.
Proof.
  induction s as [|c s IH]; [reflexivity|]. rewrite append_cons, IH. reflexivity.
Qed.

Lemma append_assoc (s t u : string) : (s +:+ t) +:+ u = s +:+ (t +:+ u).
Proof.
  induction s as [|c s IH]; [reflexivity|]. rewrite !append_cons, IH. reflexivity.
Qed.

Lemma displayPrefix_spec (metadata : Metadata) :
  (if negb (indent metadata =? 0)%nat
   then (context metadata +:+ ":") +:+ JsString.repeat "  " (indent metadata)
   else context metadata +:+ ":")
  = displayPrefix metadata.
Proof.
  unfold displayPrefix. destruct (indent metadata) as [|n]; simpl negb; cbv iota.
  - change (JsString.repeat "  " 0) with "". rewrite append_nil_r. reflexivity.
  - apply append_assoc.
Qed.

Lemma callTemplate_ids (level prefix content : expr) :
  instantiateCall (callIds level prefix content)
  = StmtNode
      (ExpressionStatement false
         (CallExpression (MemberExpression (Identifier "console") level false)
            [prefix; content])).
Proof.
  unfold instantiateCall, callIds.
  rewrite lookup_insert_eq.
  rewrite lookup_insert_ne by discriminate. rewrite lookup_insert_eq.
  rewrite !lookup_insert_ne by discriminate. rewrite lookup_insert_eq.
  reflexivity.
Qed.

Lemma getLogFunction_sequence (babel : PluginParams) (level : string) (message : Message)
    (metadata : Metadata) (expressions : list expr) :
  m_content message = SequenceExpression expressions ->
  getLogFunction babel level message metadata
  = ExprNode
      (CallExpression (MemberExpression (Identifier "console") (Identifier level) false)
         (StringLiteral (displayPrefix metadata) :: expressions)).
Proof.
  intros H. unfold getLogFunction. rewrite H, displayPrefix_spec. reflexivity.
Qed.

Lemma getLogFunction_single (babel : PluginParams) (level : string) (message : Message)
    (metadata : Metadata) :
  TemplateLaw babel ->
  isSequenceExpression (m_content message) = false ->
  getLogFunction babel level message metadata
  = ExprNode
      (CallExpression (MemberExpression (Identifier "console") (Identifier level) false)
         [StringLiteral (displayPrefix metadata); m_content message]).
Proof.
  intros Hlaw H. unfold getLogFunction. rewrite displayPrefix_spec.
  destruct (m_content message); try discriminate H;
    unfold expression; rewrite Hlaw; reflexivity.
Qed.



Lemma sampleBabel_law : TemplateLaw sampleBabel.
Proof. intros level prefix content. apply callTemplate_ids. Qed.


(** ** Options normalization *)

Lemma normalizeOpts_normalized (babel : PluginParams) (opts : PluginOptions) :
  normalized (normalizeOpts babel opts) = true.
Proof.
  unfold normalizeOpts. destruct (normalized opts) eqn:H; [exact H | reflexivity].
Qed.

Lemma normalizeOpts_tagged (babel : PluginParams) (opts : PluginOptions) :
  normalized opts = true -> normalizeOpts babel opts = opts.
Proof. intros H. unfold normalizeOpts. rewrite H. reflexivity. Qed.

Lemma defaultAliases_lookup (babel : PluginParams) :
  defaultAliases babel !! "log" = Some (AliasFunction (getLogFunction babel "log")) /\
  defaultAliases babel !! "trace" = Some (AliasFunction (getLogFunction babel "log")) /\
  defaultAliases babel !! "warn" = Some (AliasFunction (getLogFunction babel "warn")).
Proof.
  unfold defaultAliases. split; [|split].
  - apply lookup_insert_eq.
  - rewrite lookup_insert_ne by discriminate. apply lookup_insert_eq.
  - rewrite !lookup_insert_ne by discriminate. apply lookup_insert_eq.
Qed.

Lemma defaultAliases_other (babel : PluginParams) (name : string) :
  name <> "log" -> name <> "trace" -> name <> "warn" -> defaultAliases babel !! name = None.
Proof.
  intros H1 H2 H3. unfold defaultAliases.
  rewrite !lookup_insert_ne by congruence. apply lookup_empty.
Qed.

(** C8, as the code has it.  Normalizing twice gives what normalizing
    once gives, and a tagged object is returned as it is.  When
    [aliases] is absent, the table becomes the defaults: [log] and [trace]
    with the one renderer of level [log], [warn] with the renderer of level
    [warn], and nothing else; this table is not empty.  When [aliases] is
    present, its keys are kept and each value is normalized once; the
    table is empty exactly when the configured one is. *)
Theorem normalizeOpts_idempotent (babel : PluginParams) (opts : PluginOptions) :
  normalizeOpts babel (normalizeOpts babel opts) = normalizeOpts babel opts /\
  (normalized opts = true -> normalizeOpts babel opts = opts) /\
  (normalized opts = false -> aliases opts = None ->
   exists table,
     aliases (normalizeOpts babel opts) = Some table /\
     table !! "log" = Some (AliasFunction (getLogFunction babel "log")) /\
     table !! "trace" = Some (AliasFunction (getLogFunction babel "log")) /\
     table !! "warn" = Some (AliasFunction (getLogFunction babel "warn")) /\
     (forall name, name <> "log" -> name <> "trace" -> name <> "warn" ->
                   table !! name = None) /\
     table <> ∅) /\
  (normalized opts = false -> forall configured, aliases opts = Some configured ->
   exists table,
     aliases (normalizeOpts babel opts) = Some table /\
     (forall name, table !! name = normalizeAlias babel <$> configured !! name) /\
     (table = ∅ <-> configured = ∅)).
Proof.
  split; [|split; [|split]].
  - apply normalizeOpts_tagged, normalizeOpts_normalized.
  - apply normalizeOpts_tagged.
  - intros Hn Ha. exists (defaultAliases babel).
    destruct (defaultAliases_lookup babel) as (Hlog & Htrace & Hwarn).
    split; [|split; [|split; [|split; [|split]]]]; try assumption.
    + unfold normalizeOpts. rewrite Hn, Ha. reflexivity.
    + apply defaultAliases_other.
    + intros He. rewrite He, lookup_empty in Hlog. discriminate.
  - intros Hn configured Ha. exists (normalizeAlias babel <$> configured).
    split; [|split].
    + unfold normalizeOpts. rewrite Hn, Ha. reflexivity.
    + intros name. apply lookup_fmap.
    + apply fmap_empty_iff.
Qed.

Lemma normalizeOpts_idempotent_witness :
  normalized noOptions = false /\ aliases noOptions = None /\
  exists table,
    aliases (normalizeOpts sampleBabel noOptions) = Some table /\
    table !! "trace" = table !! "log" /\ table <> ∅.
Proof.
  split; [reflexivity|]. split; [reflexivity|].
  destruct (normalizeOpts_idempotent sampleBabel noOptions) as (_ & _ & Hdefault & _).
  destruct (Hdefault eq_refl eq_refl) as (table & Ht & Hlog & Htrace & _ & _ & Hne).
  exists table. split; [exact Ht|]. split; [|exact Hne].
  rewrite Hlog, Htrace. reflexivity.
Defined.

(** C8 as stated fails: a configuration with an empty [aliases] object is
    normalized to an empty table. *)
Lemma normalizeOpts_empty_table :
  aliases (normalizeOpts sampleBabel emptyAliases) = Some ∅.
Proof. unfold normalizeOpts, emptyAliases. simpl. rewrite fmap_empty. reflexivity. Qed.

(** ** The macro adapter *)

Lemma macroAlias_fold (babel : PluginParams) (warningLabels : option (list string))
    (names : list string) (table : gmap string AliasValue) (key : string) :
  fold_left (macroAlias babel warningLabels) names table !! key
  = if inList key names
    then Some (AliasFunction (getLogFunction babel (warningLevel warningLabels key)))
    else table !! key.
Proof.
  revert table. induction names as [|a names IH]; intros table; [reflexivity|].
  simpl fold_left. rewrite IH. unfold inList. simpl existsb. fold (inList key names).
  destruct (inList key names); [rewrite orb_true_r; reflexivity|].
  rewrite orb_false_r. unfold macroAlias.
  destruct (String.eqb_spec key a) as [->|Hne].
  - apply lookup_insert_eq.
  - apply lookup_insert_ne. congruence.
Qed.

Lemma refNames_In (references : list string) (name : string) :
  In name (refNames references) <-> In name references /\ name <> "default".
Proof.
  unfold refNames. rewrite <- !list_elem_of_In, list_elem_of_filter. tauto.
Qed.

Lemma inList_In (key : string) (l : list string) : inList key l = true <-> In key l.
Proof.
  unfold inList. rewrite existsb_exists. split.
  - intros (x & Hx & E). apply String.eqb_eq in E. subst x. exact Hx.
  - intros H. exists key. split; [exact H | apply String.eqb_refl].
Qed.

(** Without a name other than [default], [refNames] is empty. *)
Lemma refNames_nil (references : list string) :
  (forall name, In name references -> name = "default") -> refNames references = [].
Proof.
  intros H. destruct (refNames references) as [|name names] eqn:E; [reflexivity|].
  assert (Hin : In name (refNames references)) by (rewrite E; left; reflexivity).
  apply refNames_In in Hin as [Hin Hne]. elim Hne. exact (H name Hin).
Qed.

(** C10.  When the references hold a name other than [default], the table
    the macro uses maps each referenced name other than [default] to the
    default renderer, of level [warn] if the name is one of the warning
    labels ([['warn']] unless the configuration sets them; none when it
    sets a falsy value) and of level [log] otherwise, and has no other
    entry, none for [default] either, whatever aliases the configuration
    holds.  When every reference is [default], or there is none, the
    configured aliases are used. *)
Theorem macro_aliases (babel : PluginParams) (config : option MacroConfig)
    (references : list string) :
  let warningLabels :=
    match config with
    | Some {| cfg_warningLabels := Some given |} => given
    | _ => Some ["warn"]
    end in
  let level (key : string) :=
    match warningLabels with
    | Some labels => if inList key labels then "warn" else "log"
    | None => "log"
    end in
  ((exists name, In name references /\ name <> "default") ->
   exists table,
     aliases (macroOptions babel config references) = Some table /\
     (forall key,
        In key references -> key <> "default" ->
        table !! key = Some (AliasFunction (getLogFunction babel (level key)))) /\
     (forall key, ~ In key references -> table !! key = None) /\
     table !! "default" = None) /\
  ((forall name, In name references -> name = "default") ->
   aliases (macroOptions babel config references)
   = match config with Some c => cfg_aliases c | None => None end).
Proof.
  intros warningLabels level.
  assert (Hlabels : warningLabelsOf config = warningLabels).
  { unfold warningLabels, warningLabelsOf. destruct config as [[a s [l|]]|]; reflexivity. }
  split.
  - intros (name & Hin & Hne).
    assert (Href : refNames references <> []).
    { intros E. assert (H : In name (refNames references)) by (apply refNames_In; tauto).
      rewrite E in H. destruct H. }
    exists (fold_left (macroAlias babel (warningLabelsOf config)) (refNames references) ∅).
    split; [|split; [|split]].
    + unfold macroOptions. simpl.
      destruct (refNames references); [congruence | reflexivity].
    + intros key Hk Hd. rewrite macroAlias_fold.
      assert (E : inList key (refNames references) = true).
      { apply inList_In, refNames_In. tauto. }
      rewrite E, Hlabels. reflexivity.
    + intros key Hk. rewrite macroAlias_fold, lookup_empty.
      destruct (inList key (refNames references)) eqn:E; [|reflexivity].
      apply inList_In, refNames_In in E. tauto.
    + rewrite macroAlias_fold, lookup_empty.
      destruct (inList "default" (refNames references)) eqn:E; [|reflexivity].
      apply inList_In, refNames_In in E. destruct E as [_ E]. elim E. reflexivity.
  - intros He. unfold macroOptions. simpl. rewrite (refNames_nil references He). reflexivity.
Qed.

Lemma macro_aliases_witness :
  (exists name, In name ["default"; "log"; "warn"; "announce"] /\ name <> "default") /\
  (exists table,
     aliases (macroOptions sampleBabel (Some macroConfig)
                ["default"; "log"; "warn"; "announce"]) = Some table /\
     table !! "announce" = Some (AliasFunction (getLogFunction sampleBabel "log")) /\
     table !! "warn" = Some (AliasFunction (getLogFunction sampleBabel "warn")) /\
     table !! "trace" = None /\
     table !! "default" = None) /\
  aliases (macroOptions sampleBabel (Some macroConfig) ["default"]) = cfg_aliases macroConfig /\
  aliases (macroOptions sampleBabel (Some macroConfig) []) = cfg_aliases macroConfig.
Proof.
  assert (Hne : exists name, In name ["default"; "log"; "warn"; "announce"] /\ name <> "default").
  { exists "log". split; [right; left; reflexivity | discriminate]. }
  split; [exact Hne|].
  destruct (macro_aliases sampleBabel (Some macroConfig)
              ["default"; "log"; "warn"; "announce"]) as [H _].
  destruct (macro_aliases sampleBabel (Some macroConfig) ["default"]) as [_ Hdefault].
  destruct (macro_aliases sampleBabel (Some macroConfig) []) as [_ Hnone].
  destruct (H Hne) as (table & Ht & Hin & Hout & Hd).
  split; [|split].
  - exists table. split; [exact Ht|]. split; [|split; [|split]].
    + rewrite Hin; [reflexivity | simpl; tauto | discriminate].
    + rewrite Hin; [reflexivity | simpl; tauto | discriminate].
    + apply Hout. simpl. intros [E | [E | [E | [E | []]]]]; discriminate E.
    + exact Hd.
  - apply Hdefault. intros name [<- | []]. reflexivity.
  - apply Hnone. intros name [].
Defined.

(** ** Paths and the prefix *)

Lemma chars_app (s t : string) :
  list_ascii_of_string (s +:+ t) = list_ascii_of_string s ++ list_ascii_of_string t.
Proof.
  induction s as [|c s IH]; [reflexivity|]. rewrite append_cons. simpl. rewrite IH. reflexivity.
Qed.

Lemma isComponent_chars (s : string) :
  isComponent s = true ->
  list_ascii_of_string s <> [] /\
  forallb (fun c => negb (fspath.isSlash c)) (list_ascii_of_string s) = true.
Proof.
  unfold isComponent. intros H. apply andb_true_iff in H as [Hne Hall].
  split; [|exact Hall]. destruct s; [discriminate Hne | discriminate].
Qed.

Lemma forallb_rev {A : Type} (f : A -> bool) (l : list A) :
  forallb f (rev l) = forallb f l.
Proof.
  induction l as [|a l IH]; [reflexivity|]. simpl.
  rewrite forallb_app, IH. simpl. rewrite andb_true_r. apply andb_comm.
Qed.

Lemma dropSlashes_head (c : ascii) (l : list ascii) :
  fspath.isSlash c = false -> fspath.dropSlashes (c :: l) = c :: l.
Proof. intros H. simpl. rewrite H. reflexivity. Qed.

(** Read backwards, a component starts with a character that is not a
    slash and holds none. *)
Lemma component_rev (s : string) :
  isComponent s = true ->
  exists c r,
    rev (list_ascii_of_string s) = c :: r /\ fspath.isSlash c = false /\
    forallb (fun c => negb (fspath.isSlash c)) (c :: r) = true.
Proof.
  intros H. destruct (isComponent_chars s H) as [Hne Hall].
  destruct (rev (list_ascii_of_string s)) as [|c r] eqn:E.
  - apply (f_equal (@rev ascii)) in E. rewrite rev_involutive in E. contradiction.
  - exists c, r. rewrite <- forallb_rev, E in Hall. split; [reflexivity|].
    split; [|exact Hall]. simpl in Hall. apply andb_true_iff in Hall as [Hc _].
    destruct (fspath.isSlash c); [discriminate | reflexivity].
Qed.

Lemma component_slash (l rest : list ascii) :
  forallb (fun c => negb (fspath.isSlash c)) l = true ->
  fspath.component (l ++ fspath.slash :: rest) = l.
Proof.
  induction l as [|c l IH]; simpl; [reflexivity|]. intros H.
  apply andb_true_iff in H as [Hc Hl]. destruct (fspath.isSlash c); [discriminate|].
  rewrite IH by exact Hl. reflexivity.
Qed.

Lemma afterComponent_slash (l rest : list ascii) :
  forallb (fun c => negb (fspath.isSlash c)) l = true ->
  fspath.afterComponent (l ++ fspath.slash :: rest) = fspath.slash :: rest.
Proof.
  induction l as [|c l IH]; simpl; [reflexivity|]. intros H.
  apply andb_true_iff in H as [Hc Hl]. destruct (fspath.isSlash c); [discriminate|].
  apply IH. exact Hl.
Qed.

Lemma afterComponent_none (l : list ascii) :
  forallb (fun c => negb (fspath.isSlash c)) l = true -> fspath.afterComponent l = [].
Proof.
  induction l as [|c l IH]; simpl; [reflexivity|]. intros H.
  apply andb_true_iff in H as [Hc Hl]. destruct (fspath.isSlash c); [discriminate|].
  apply IH. exact Hl.
Qed.

Lemma chars_slash (s : string) :
  list_ascii_of_string ("/" +:+ s) = fspath.slash :: list_ascii_of_string s.
Proof. reflexivity. Qed.

(** The last component of [pre/s] is [s]. *)
Lemma basename1_slash (pre s : string) :
  isComponent s = true -> fspath.basename1 (pre +:+ "/" +:+ s) = s.
Proof.
  intros H. destruct (component_rev s H) as (c & r & E & Hc & Hall).
  unfold fspath.basename1, fspath.lastComponentRev.
  rewrite chars_app, chars_slash, rev_app_distr.
  change (rev (fspath.slash :: list_ascii_of_string s))
    with (rev (list_ascii_of_string s) ++ [fspath.slash]).
  rewrite <- app_assoc, E. change ([fspath.slash] ++ ?x) with (fspath.slash :: x).
  rewrite <- app_comm_cons, dropSlashes_head by exact Hc.
  rewrite app_comm_cons, component_slash by exact Hall.
  rewrite <- E, rev_involutive. apply string_of_list_ascii_of_string.
Qed.

Lemma join_snoc (sep : string) (parts : list string) (s : string) :
  parts <> [] ->
  JsString.join sep (parts ++ [s]) = JsString.join sep parts +:+ sep +:+ s.
Proof.
  induction parts as [|p parts IH]; [congruence|]. intros _.
  destruct parts as [|q parts]; [reflexivity|].
  change (JsString.join sep ((p :: q :: parts) ++ [s]))
    with (p +:+ sep +:+ JsString.join sep ((q :: parts) ++ [s])).
  rewrite IH by discriminate.
  change (JsString.join sep (p :: q :: parts)) with (p +:+ sep +:+ JsString.join sep (q :: parts)).
  rewrite !append_assoc. reflexivity.
Qed.

Lemma renderPath_snoc (dirs : list string) (s : string) :
  exists pre, renderPath (dirs ++ [s]) = pre +:+ "/" +:+ s.
Proof.
  unfold renderPath. destruct dirs as [|d dirs].
  - exists "". reflexivity.
  - exists ("/" +:+ JsString.join "/" (d :: dirs)).
    rewrite join_snoc by discriminate. rewrite !append_assoc. reflexivity.
Qed.

Lemma basename1_renderPath (dirs : list string) (s : string) :
  isComponent s = true -> fspath.basename1 (renderPath (dirs ++ [s])) = s.
Proof.
  intros H. destruct (renderPath_snoc dirs s) as [pre ->]. apply basename1_slash. exact H.
Qed.

Lemma join_components (parts : list string) :
  parts <> [] -> Forall (fun s => isComponent s = true) parts ->
  list_ascii_of_string (JsString.join "/" parts) <> [].
Proof.
  destruct parts as [|p parts]; [congruence|]. intros _ H.
  apply Forall_cons_1 in H as [Hp _]. destruct (isComponent_chars p Hp) as [Hne _].
  destruct parts as [|q parts].
  - exact Hne.
  - change (JsString.join "/" (p :: q :: parts)) with (p +:+ "/" +:+ JsString.join "/" (q :: parts)).
    rewrite chars_app. intros E. apply app_eq_nil in E as [E _]. exact (Hne E).
Qed.

(** The directory of [/d1/.../dn/s] is [/d1/.../dn]. *)
Lemma dirname_renderPath (dirs : list string) (s : string) :
  Forall (fun s => isComponent s = true) dirs -> isComponent s = true ->
  fspath.dirname (renderPath (dirs ++ [s])) = renderPath dirs.
Proof.
  intros Hdirs Hs. destruct (component_rev s Hs) as (c & r & E & Hc & Hall).
  unfold fspath.dirname, renderPath. destruct dirs as [|d dirs].
  - change (JsString.join "/" ([] ++ [s])) with s. rewrite chars_slash.
    cbv iota beta. rewrite E, dropSlashes_head by exact Hc.
    rewrite afterComponent_none by exact Hall. reflexivity.
  - rewrite join_snoc by discriminate.
    pose proof (join_components (d :: dirs) ltac:(discriminate) Hdirs) as Hj.
    remember (JsString.join "/" (d :: dirs)) as j eqn:Ej. clear Ej.
    rewrite chars_slash. cbv iota beta.
    rewrite chars_app, chars_slash, rev_app_distr.
    change (rev (fspath.slash :: list_ascii_of_string s))
      with (rev (list_ascii_of_string s) ++ [fspath.slash]).
    rewrite <- app_assoc, E. change ([fspath.slash] ++ ?x) with (fspath.slash :: x).
    rewrite <- app_comm_cons, dropSlashes_head by exact Hc.
    rewrite app_comm_cons, afterComponent_slash by exact Hall.
    rewrite length_rev.
    destruct (list_ascii_of_string j) as [|c' r'] eqn:E'; [congruence|].
    simpl length. simpl Nat.eqb. rewrite andb_false_r.
    rewrite rev_involutive, <- E'.
    change (string_of_list_ascii (fspath.slash :: list_ascii_of_string j))
      with (String fspath.slash (string_of_list_ascii (list_ascii_of_string j))).
    rewrite string_of_list_ascii_of_string. reflexivity.
Qed.

Lemma lastComponentRev_slash (pre s : string) :
  isComponent s = true ->
  fspath.lastComponentRev (pre +:+ "/" +:+ s) = rev (list_ascii_of_string s).
Proof.
  intros H. destruct (component_rev s H) as (c & r & E & Hc & Hall).
  unfold fspath.lastComponentRev.
  rewrite chars_app, chars_slash, rev_app_distr.
  change (rev (fspath.slash :: list_ascii_of_string s))
    with (rev (list_ascii_of_string s) ++ [fspath.slash]).
  rewrite <- app_assoc, E. change ([fspath.slash] ++ ?x) with (fspath.slash :: x).
  rewrite <- app_comm_cons, dropSlashes_head by exact Hc.
  rewrite app_comm_cons, component_slash by exact Hall. reflexivity.
Qed.

Lemma length_append (s t : string) :
  String.length (s +:+ t) = String.length s + String.length t.
Proof.
  induction s as [|c s IH]; [reflexivity|]. rewrite append_cons. simpl. rewrite IH. reflexivity.
Qed.

(** [split] on a text that starts with a slash-free word and a slash. *)
Lemma split_word (w t : string) :
  forallb (fun c => negb (fspath.isSlash c)) (list_ascii_of_string w) = true ->
  JsString.split fspath.slash (w +:+ "/" +:+ t) = w :: JsString.split fspath.slash t.
Proof.
  induction w as [|c w IH]; intros H.
  - reflexivity.
  - simpl in H. apply andb_true_iff in H as [Hc Hw].
    rewrite append_cons. simpl JsString.split.
    unfold fspath.isSlash in Hc. destruct (Ascii.eqb c fspath.slash); [discriminate|].
    rewrite IH by exact Hw. reflexivity.
Qed.

Lemma split_join (parts : list string) (t : string) :
  parts <> [] -> Forall (fun s => isComponent s = true) parts ->
  JsString.split fspath.slash (JsString.join "/" parts +:+ "/" +:+ t)
  = parts ++ JsString.split fspath.slash t.
Proof.
  induction parts as [|p parts IH]; [congruence|]. intros _ H.
  apply Forall_cons_1 in H as [Hp Hparts].
  destruct (isComponent_chars p Hp) as [_ Hall].
  destruct parts as [|q parts].
  - simpl JsString.join. rewrite split_word by exact Hall. reflexivity.
  - change (JsString.join "/" (p :: q :: parts))
      with (p +:+ "/" +:+ JsString.join "/" (q :: parts)).
    rewrite !append_assoc, split_word by exact Hall.
    rewrite IH by (discriminate || exact Hparts). reflexivity.
Qed.

Lemma isName_component (l : list string) :
  Forall (fun s => isName s = true) l -> Forall (fun s => isComponent s = true) l.
Proof.
  intros Hl. eapply Forall_impl; [exact Hl|]. intros s H. unfold isName in H.
  apply andb_true_iff in H as [H _]. apply andb_true_iff in H as [H _]. exact H.
Qed.

Lemma filter_names (l : list string) (rest : list string) :
  Forall (fun s => isName s = true) l ->
  filter (fun s => JsString.truthy s = true) (l ++ rest)
  = l ++ filter (fun s => JsString.truthy s = true) rest.
Proof.
  induction 1 as [|s l Hs _ IH]; [reflexivity|].
  simpl app. rewrite filter_cons, IH.
  unfold isName, isComponent in Hs.
  destruct (JsString.truthy s); [|discriminate Hs].
  rewrite decide_True by reflexivity. reflexivity.
Qed.

Lemma normalizeSegments_names (kept l rest : list string) :
  Forall (fun s => isName s = true) l ->
  fspath.normalizeSegments kept (l ++ rest) = fspath.normalizeSegments (rev l ++ kept) rest.
Proof.
  intros H. revert kept. induction H as [|s l Hs _ IH]; intros kept; [reflexivity|].
  simpl app. simpl fspath.normalizeSegments.
  unfold isName in Hs. apply andb_true_iff in Hs as [Hs Hdd]. apply andb_true_iff in Hs as [_ Hd].
  destruct (String.eqb s "."); [discriminate|]. destruct (String.eqb s ".."); [discriminate|].
  rewrite IH. simpl rev. rewrite <- app_assoc. reflexivity.
Qed.

Lemma prefix_slash_false (c : ascii) (s : string) :
  fspath.isSlash c = false -> String.prefix "/" (String c s) = false.
Proof.
  intros H.
  change (String.prefix "/" (String c s))
    with (match ascii_dec "/" c with left _ => String.prefix "" s | right _ => false end).
  destruct (ascii_dec "/" c) as [<-|_]; [discriminate H | reflexivity].
Qed.

(** A relative file name made of names is resolved below the working
    directory. *)
Lemma resolve_below (cwdDirs names : list string) :
  Forall (fun s => isName s = true) cwdDirs ->
  Forall (fun s => isName s = true) names -> names <> [] ->
  fspath.resolve (renderPath cwdDirs) (JsString.join "/" names)
  = renderPath (cwdDirs ++ names).
Proof.
  intros Hcwd Hnames Hne.
  pose proof (isName_component _ Hnames) as Hcomp.
  pose proof (join_components names Hne Hcomp) as Hj.
  unfold fspath.resolve.
  destruct (String.eqb_spec (JsString.join "/" names) "") as [E|_].
  { rewrite E in Hj. contradiction. }
  assert (Hp : String.prefix "/" (JsString.join "/" names) = false).
  { destruct names as [|n names]; [congruence|].
    apply Forall_cons_1 in Hcomp as [Hn _]. destruct (isComponent_chars n Hn) as [Hn1 Hn2].
    destruct n as [|c n]; [exfalso; apply Hn1; reflexivity|]. simpl in Hn2.
    apply andb_true_iff in Hn2 as [Hc _]. apply negb_true_iff in Hc.
    assert (Hj' : exists r, JsString.join "/" (String c n :: names) = String c r).
    { destruct names; [exists n; reflexivity|]. eexists. reflexivity. }
    destruct Hj' as [r ->]. apply prefix_slash_false. exact Hc. }
  rewrite Hp. f_equal. unfold fspath.segments, renderPath.
  assert (Hs : JsString.split fspath.slash
                 (("/" +:+ JsString.join "/" cwdDirs) +:+ "/" +:+ JsString.join "/" names +:+ "/")
               = "" :: (if decide (cwdDirs = []) then [""] else cwdDirs) ++ names ++ [""]).
  { rewrite append_assoc.
    change (JsString.split fspath.slash ("/" +:+ ?x)) with ("" :: JsString.split fspath.slash x).
    f_equal. destruct (decide (cwdDirs = [])) as [->|Hc].
    - change (JsString.split fspath.slash (JsString.join "/" [] +:+ "/" +:+ ?x))
        with ("" :: JsString.split fspath.slash x).
      simpl app. f_equal. apply (split_join names ""); assumption.
    - rewrite split_join by (try assumption; apply isName_component; assumption).
      f_equal. apply (split_join names ""); assumption. }
  rewrite Hs. clear Hs. rewrite filter_cons, decide_False by discriminate.
  assert (Hf : filter (fun s => JsString.truthy s = true)
                 ((if decide (cwdDirs = []) then [""] else cwdDirs) ++ names ++ [""])
               = cwdDirs ++ names).
  { destruct (decide (cwdDirs = [])) as [->|_].
    - simpl app. rewrite filter_cons, decide_False by discriminate.
      rewrite filter_names by assumption. rewrite app_nil_r. reflexivity.
    - rewrite filter_names by assumption. rewrite filter_names by assumption.
      rewrite app_nil_r. reflexivity. }
  rewrite Hf. clear Hf.
  rewrite <- (app_nil_r (cwdDirs ++ names)) at 1.
  rewrite normalizeSegments_names by (apply Forall_app; split; assumption).
  simpl. rewrite app_nil_r, rev_involutive. reflexivity.
Qed.

Lemma app_three {A : Type} (l : list A) (a b c : A) :
  l ++ [a; b; c] = ((l ++ [a]) ++ [b]) ++ [c].
Proof. rewrite <- !app_assoc. reflexivity. Qed.

(** The rule of [generatePrefix], read on the directories of the file. *)
Lemma generatePrefix_directories (dirs : list string) (grandparent parent file : string)
    (basename : string) :
  Forall (fun s => isComponent s = true) (dirs ++ [grandparent; parent; file]) ->
  generatePrefix (fspath.dirname (renderPath (dirs ++ [grandparent; parent; file]))) basename
  = if negb (String.eqb basename "index") then basename
    else if negb (String.eqb parent "src") && negb (String.eqb parent "lib") then parent
    else grandparent.
Proof.
  intros H. rewrite app_three in H.
  apply Forall_app in H as [H Hfile]. apply Forall_cons_1 in Hfile as [Hfile _].
  pose proof H as Hdir.
  apply Forall_app in H as [H Hparent]. apply Forall_cons_1 in Hparent as [Hparent _].
  pose proof H as Hup.
  apply Forall_app in H as [H Hgrand]. apply Forall_cons_1 in Hgrand as [Hgrand _].
  rewrite app_three, dirname_renderPath by assumption.
  unfold generatePrefix.
  rewrite basename1_renderPath by assumption.
  rewrite dirname_renderPath by assumption.
  rewrite basename1_renderPath by assumption.
  reflexivity.
Qed.

Lemma eqb_longer (ext pre s : string) :
  String.length ext < String.length s -> String.eqb ext (pre +:+ "/" +:+ s) = false.
Proof.
  intros H. apply String.eqb_neq. intros E. apply (f_equal String.length) in E.
  rewrite !length_append in E. lia.
Qed.

(** C5.  With the file at [/.../grandparent/parent/file], the prefix is the
    base name of the file without its extension unless that is [index];
    otherwise the name of the parent directory unless that is [src] or
    [lib]; otherwise the name of the grandparent directory.  For the file
    [src/db/models/index.js], below any working directory, the prefix is
    [models]. *)
Theorem prefix_of_file :
  (forall (dirs : list string) (grandparent parent file : string),
     Forall (fun s => isComponent s = true) (dirs ++ [grandparent; parent; file]) ->
     let filename := renderPath (dirs ++ [grandparent; parent; file]) in
     let basename := fspath.basename filename (fspath.extname filename) in
     generatePrefix (fspath.dirname filename) basename
     = if negb (String.eqb basename "index") then basename
       else if negb (String.eqb parent "src") && negb (String.eqb parent "lib") then parent
       else grandparent) /\
  (forall (proc : Process) (path : NodePath) (opts : PluginOptions) (cwdDirs : list string),
     Forall (fun s => isName s = true) cwdDirs ->
     cwd proc = renderPath cwdDirs ->
     path_filename path = "src/db/models/index.js" ->
     prefix (collectMetadata proc path opts) = "models").
Proof.
  split.
  - intros dirs grandparent parent file H filename basename.
    apply generatePrefix_directories. exact H.
  - intros proc path opts cwdDirs Hcwd Ecwd Efile.
    unfold collectMetadata. cbv zeta. unfold prefix at 1.
    rewrite Ecwd, Efile.
    change "src/db/models/index.js" with (JsString.join "/" ["src"; "db"; "models"; "index.js"]).
    rewrite resolve_below;
      [| exact Hcwd | repeat constructor | discriminate].
    assert (Hall : Forall (fun s => isComponent s = true)
                     ((cwdDirs ++ ["src"]) ++ ["db"; "models"; "index.js"])).
    { rewrite <- app_assoc. apply Forall_app. split.
      - apply isName_component. exact Hcwd.
      - repeat constructor. }
    replace (cwdDirs ++ ["src"; "db"; "models"; "index.js"])
      with ((cwdDirs ++ ["src"]) ++ ["db"; "models"; "index.js"])
      by (rewrite <- app_assoc; reflexivity).
    rewrite generatePrefix_directories by exact Hall.
    replace ((cwdDirs ++ ["src"]) ++ ["db"; "models"; "index.js"])
      with (((cwdDirs ++ ["src"]) ++ ["db"; "models"]) ++ ["index.js"])
      by (rewrite <- !app_assoc; reflexivity).
    destruct (renderPath_snoc ((cwdDirs ++ ["src"]) ++ ["db"; "models"]) "index.js")
      as [pre ->].
    assert (Hext : fspath.extname (pre +:+ "/" +:+ "index.js") = ".js").
    { unfold fspath.extname. rewrite lastComponentRev_slash by reflexivity. reflexivity. }
    rewrite Hext.
    assert (Hbase : fspath.basename (pre +:+ "/" +:+ "index.js") ".js" = "index").
    { unfold fspath.basename.
      rewrite lastComponentRev_slash by reflexivity.
      rewrite eqb_longer by (simpl; lia).
      rewrite !length_append.
      replace (String.length pre + (String.length "/" + String.length "index.js")
               <? String.length ".js")%nat with false
        by (symmetry; apply Nat.ltb_ge; simpl; lia).
      reflexivity. }
    rewrite Hbase. reflexivity.
Qed.

(** Close to the root the climb ends at the root, whose name is empty. *)
Example prefix_near_root :
  generatePrefix (fspath.dirname "/src/index.js") "index" = "" /\
  generatePrefix (fspath.dirname "/index.js") "index" = "" /\
  generatePrefix (fspath.dirname "/app/index.js") "index" = "app".
Proof. split; [|split]; reflexivity. Qed.

Lemma prefix_of_file_witness :
  (Forall (fun s => isComponent s = true)
     (["home"; "user"; "project"] ++ ["src"; "lib"; "index.js"]) /\
   generatePrefix (fspath.dirname "/home/user/project/src/lib/index.js")
     (fspath.basename "/home/user/project/src/lib/index.js"
        (fspath.extname "/home/user/project/src/lib/index.js"))
   = "src") /\
  (Forall (fun s => isName s = true) ["home"; "user"; "project"] /\
   prefix (collectMetadata sampleProcess
             (loginPath 0 (ExpressionStatement false (StringLiteral "a"))) noOptions)
   = "models").
Proof.
  assert (Hc : Forall (fun s => isComponent s = true)
                 (["home"; "user"; "project"] ++ ["src"; "lib"; "index.js"]))
    by (repeat constructor).
  assert (Hn : Forall (fun s => isName s = true) ["home"; "user"; "project"])
    by (repeat constructor).
  split; split; [exact Hc | | exact Hn |].
  - exact (proj1 prefix_of_file ["home"; "user"; "project"] "src" "lib" "index.js" Hc).
  - apply (proj2 prefix_of_file sampleProcess _ noOptions ["home"; "user"; "project"] Hn);
      reflexivity.
Defined.

(** ** Start message detection *)

Lemma ancestryStep_parent_kept (acc : Ancestry) (item p : node) :
  parent acc = Some p -> parent (ancestryStep acc item) = Some p.
Proof.
  intros H. unfold ancestryStep, unshift, setParent.
  destruct item as [[]|[]|[]| | |]; simpl; rewrite ?H; try reflexivity;
    try (destruct body; simpl; rewrite ?H; reflexivity).
Qed.

Lemma walk_parent_kept (items : list node) (acc : Ancestry) (p : node) :
  parent acc = Some p -> parent (fold_left ancestryStep items acc) = Some p.
Proof.
  revert acc. induction items as [|item items IH]; intros acc H; [exact H|].
  simpl. apply IH. apply ancestryStep_parent_kept. exact H.
Qed.

Lemma ancestryStep_function (acc : Ancestry) (scope : node) :
  isFunction scope = true -> parent acc = None ->
  parent (ancestryStep acc scope) = Some scope.
Proof.
  intros Hf Hp. unfold ancestryStep, unshift, setParent.
  destruct scope as [[]|[]|[]| | |]; try discriminate Hf; simpl; rewrite Hp; reflexivity.
Qed.

(** The parent scope of a statement that stands in the body of a
    function is that function. *)
Lemma walk_function_body (body : list stmt) (scope : node) (outer : list node) :
  isFunction scope = true ->
  parent (walkAncestry (StmtNode (BlockStatement body) :: scope :: outer)) = Some scope.
Proof.
  intros Hf. unfold walkAncestry. simpl fold_left.
  apply walk_parent_kept. apply ancestryStep_function; [exact Hf | reflexivity].
Qed.

Lemma isFunction_not_program (scope : node) :
  isFunction scope = true -> isProgram scope = false.
Proof. destruct scope as [[]|[]|[]| | |]; simpl; congruence. Qed.

(** The flags of a label that stands in the body of a function. *)
Lemma flags_in_function (proc : Process) (opts : PluginOptions) (path : NodePath)
    (body : list stmt) (scope : node) (outer : list node) :
  isFunction scope = true ->
  scopeChildren scope = map StmtNode body ->
  path_parents path = StmtNode (BlockStatement body) :: scope :: outer ->
  (hasStartMessage (collectMetadata proc path opts),
   isStartMessage (collectMetadata proc path opts))
  = startMessageScan opts path 0 (map StmtNode body).
Proof.
  intros Hf Hc Hp. unfold collectMetadata. cbv zeta. simpl hasStartMessage. simpl isStartMessage.
  rewrite Hp, walk_function_body by exact Hf.
  unfold startMessage. rewrite isFunction_not_program by exact Hf. simpl negb. cbv iota.
  rewrite Hc. destruct (startMessageScan opts path 0 (map StmtNode body)); reflexivity.
Qed.

(** C6, as the code has it.  The flags are those of the scan of the parent
    scope.  Without a parent scope, or with the program as parent scope, no
    flag is set.  Otherwise the statements of the scope are scanned from the
    first: a marked statement sets [hasStartMessage] and stops; a statement
    that is not labeled stops without a flag; a labeled statement with an
    alias as label sets [hasStartMessage], sets [isStartMessage] when it is
    the statement under inspection, and stops.  Hence, of two alias labels
    that open the body of a function, the first gets both flags and the
    second gets [hasStartMessage] only, also once the first is rewritten;
    and a label of a function whose body opens with an unmarked statement
    that is not labeled gets none. *)
Theorem start_message_detection (proc : Process) (opts : PluginOptions) (path : NodePath) :
  ((hasStartMessage (collectMetadata proc path opts),
    isStartMessage (collectMetadata proc path opts))
   = startMessage opts path (parent (walkAncestry (path_parents path)))) /\
  (startMessage opts path None = (false, false) /\
   forall body, startMessage opts path (Some (Program body)) = (false, false)) /\
  (forall scope child rest,
     isProgram scope = false -> scopeChildren scope = child :: rest ->
     (nodeHandled child = true ->
      startMessage opts path (Some scope) = (true, false)) /\
     (nodeHandled child = false -> isLabeledStatement child = false ->
      startMessage opts path (Some scope) = (false, false)) /\
     (forall label body,
        child = StmtNode (LabeledStatement label body) -> isAlias opts label = true ->
        startMessage opts path (Some scope) = (true, sameNode path 0))) /\
  (forall scope outer first bodyFirst second bodySecond rest,
     isFunction scope = true ->
     scopeChildren scope
     = map StmtNode (LabeledStatement first bodyFirst :: LabeledStatement second bodySecond :: rest) ->
     path_parents path
     = StmtNode (BlockStatement
                   (LabeledStatement first bodyFirst :: LabeledStatement second bodySecond :: rest))
       :: scope :: outer ->
     isAlias opts first = true -> isAlias opts second = true ->
     (path_key path = 0 ->
      hasStartMessage (collectMetadata proc path opts) = true /\
      isStartMessage (collectMetadata proc path opts) = true) /\
     (path_key path = 1 ->
      hasStartMessage (collectMetadata proc path opts) = true /\
      isStartMessage (collectMetadata proc path opts) = false)) /\
  (forall scope first rest,
     parent (walkAncestry (path_parents path)) = Some scope ->
     isFunction scope = true ->
     scopeChildren scope = map StmtNode (first :: rest) ->
     (nodeHandled (StmtNode first) = true ->
      hasStartMessage (collectMetadata proc path opts) = true /\
      isStartMessage (collectMetadata proc path opts) = false) /\
     (nodeHandled (StmtNode first) = false ->
      isLabeledStatement (StmtNode first) = false ->
      hasStartMessage (collectMetadata proc path opts) = false /\
      isStartMessage (collectMetadata proc path opts) = false)).
Proof.
  assert (Hflags : (hasStartMessage (collectMetadata proc path opts),
                    isStartMessage (collectMetadata proc path opts))
                   = startMessage opts path (parent (walkAncestry (path_parents path)))).
  { unfold collectMetadata. cbv zeta. simpl hasStartMessage. simpl isStartMessage.
    destruct (startMessage opts path _); reflexivity. }
  split; [exact Hflags|]. split; [|split; [|split]].
  - split; [reflexivity | intros body; reflexivity].
  - intros scope child rest Hs Hc. unfold startMessage. rewrite Hs, Hc. simpl.
    split; [|split].
    + intros ->. reflexivity.
    + intros -> Hl. destruct child as [|[]| | | |]; try reflexivity; discriminate Hl.
    + intros label body -> Ha. simpl. rewrite Ha. reflexivity.
  - intros scope outer first bodyFirst second bodySecond rest Hf Hc Hp Ha1 Ha2.
    pose proof (flags_in_function proc opts path _ scope outer Hf Hc Hp) as H.
    remember (hasStartMessage (collectMetadata proc path opts)) as has eqn:Ehas.
    remember (isStartMessage (collectMetadata proc path opts)) as first_ eqn:Efirst.
    clear Ehas Efirst Hflags.
    simpl in H. rewrite Ha1 in H. unfold sameNode, inParentBody in H. rewrite Hp in H.
    simpl in H. rewrite Hf in H. simpl in H.
    injection H as -> ->.
    split; intros ->; split; reflexivity.
  - intros scope first rest Hp Hf Hc.
    remember (hasStartMessage (collectMetadata proc path opts)) as has eqn:Ehas.
    remember (isStartMessage (collectMetadata proc path opts)) as first_ eqn:Efirst.
    clear Ehas Efirst.
    rewrite Hp in Hflags. unfold startMessage in Hflags.
    rewrite (isFunction_not_program _ Hf), Hc in Hflags. simpl in Hflags.
    split.
    + intros Hh. simpl in Hh. rewrite Hh in Hflags. injection Hflags as -> ->.
      split; reflexivity.
    + intros Hh Hl. simpl in Hh. rewrite Hh in Hflags.
      destruct first; try discriminate Hl; injection Hflags as -> ->; split; reflexivity.
Qed.

(** ** The traversal of a label's body *)

Lemma bind_Ok {A B : Type} (a : A) (k : A -> result B) : (Ok a ≫= k) = k a.
Proof. reflexivity. Qed.

Lemma bind_Throw {A B : Type} (e : error) (k : A -> result B) : (Throw e ≫= k) = Throw e.
Proof. reflexivity. Qed.

Lemma bind_Ok_inv {A B : Type} (r : result A) (k : A -> result B) (b : B) :
  (r ≫= k) = Ok b -> exists a, r = Ok a /\ k a = Ok b.
Proof. destruct r as [a|e]; [intros H; exists a; split; [reflexivity | exact H] | discriminate]. Qed.

Lemma mapList_length {A B : Type} (f : A -> result B) (l : list A) (l' : list B) :
  mapList f l = Ok l' -> length l' = length l.
Proof.
  revert l'. induction l as [|a l IH]; intros l' H; simpl in H.
  - injection H as <-. reflexivity.
  - apply bind_Ok_inv in H as (b & _ & H). apply bind_Ok_inv in H as (bs & Hbs & H).
    injection H as <-. simpl. rewrite (IH bs Hbs). reflexivity.
Qed.

Section TraverseFacts.
Variable sideEffect : error.
Variable render : expr -> result expr.

Lemma visitExpr_Ok (e : expr) (u : unit) :
  visitExpr sideEffect e = Ok u -> scanExpr e = false.
Proof. unfold visitExpr. destruct (scanExpr e); [discriminate | reflexivity]. Qed.

(** The traversal keeps the kind of the statement, and the number of
    statements of a block. *)
Lemma traverse_shape (s s' : stmt) :
  traverse sideEffect render s = Ok s' ->
  isBlockStatement (StmtNode s') = isBlockStatement (StmtNode s) /\
  length (statementsOf s') = length (statementsOf s).
Proof.
  destruct s; simpl; intros H;
    repeat match goal with
    | H : (_ ≫= _) = Ok _ |- _ =>
        let a := fresh "a" in let Ha := fresh "Ha" in
        apply bind_Ok_inv in H as (a & Ha & H)
    | H : (if ?c then _ else _) = Ok _ |- _ => destruct c
    | H : Ok _ = Ok _ |- _ => injection H as <-
    | H : Throw _ = Ok _ |- _ => discriminate H
    end;
    try (split; reflexivity).
  split; [reflexivity|]. simpl. eapply mapList_length. eassumption.
Qed.

End TraverseFacts.

Ltac invert_bind :=
  repeat match goal with
  | H : (_ ≫= _) = Ok _ |- _ =>
      let a := fresh "a" in let Ha := fresh "Ha" in
      apply bind_Ok_inv in H as (a & Ha & H)
  | H : Ok _ = Ok _ |- _ => injection H as <-
  | H : Throw _ = Ok _ |- _ => discriminate H
  end.

Section RewriteFacts.
Variable sideEffect : error.
Variable alias : AliasValue.
Variable metadata : Metadata.

Lemma renderPayload_inv (e e' : expr) :
  renderPayload alias metadata e = Ok e' ->
  callAlias alias (buildMessage metadata e) metadata = Ok (ExprNode e').
Proof.
  unfold renderPayload. intros H. apply bind_Ok_inv in H as (n & Hn & H).
  rewrite Hn. destruct n; try discriminate H. injection H as <-. reflexivity.
Qed.

Lemma mapList_Forall2 (l l' : list stmt) :
  Forall (fun s => forall s', traverse sideEffect (renderPayload alias metadata) s = Ok s' ->
                              Rewritten alias metadata s s') l ->
  mapList (traverse sideEffect (renderPayload alias metadata)) l = Ok l' ->
  Forall2 (Rewritten alias metadata) l l'.
Proof.
  intros Hl. revert l'. induction Hl as [|s l Hs _ IH]; intros l' H; simpl in H; invert_bind.
  - constructor.
  - constructor; [apply Hs; assumption | apply IH; assumption].
Qed.

(** What the traversal returns is the rewrite of the body. *)
Lemma traverse_rewritten (s s' : stmt) :
  traverse sideEffect (renderPayload alias metadata) s = Ok s' ->
  Rewritten alias metadata s s'.
Proof.
  revert s'.
  cut ((forall e : expr, True) /\
       (forall s s', traverse sideEffect (renderPayload alias metadata) s = Ok s' ->
                     Rewritten alias metadata s s') /\
       (forall m : member, True)).
  { intros (_ & H & _). exact (H s). }
  apply (tree_ind (fun _ => True)
           (fun s => forall s', traverse sideEffect (renderPayload alias metadata) s = Ok s' ->
                                Rewritten alias metadata s s')
           (fun _ => True));
    try (intros; exact I); intros; simpl in *.
  - destruct h; invert_bind.
    + constructor.
    + constructor. apply renderPayload_inv. assumption.
  - invert_bind. constructor. auto.
  - invert_bind. constructor. eapply mapList_Forall2; eassumption.
  - invert_bind. constructor.
  - invert_bind. constructor; [auto|].
    destruct a as [alt|]; simpl in *; invert_bind; constructor.
    match goal with Ho : OptQ _ _ |- _ => apply (Ho alt eq_refl) end. assumption.
  - invert_bind. constructor. auto.
  - discriminate.
  - invert_bind. constructor.
  - invert_bind. constructor.
  - discriminate.
  - discriminate.
  - match goal with H : (if ?c then _ else _) = Ok _ |- _ => destruct c end; invert_bind.
    constructor.
Qed.

End RewriteFacts.
(** ** The throwing visitor fires exactly where a listed node occurs *)

Lemma existsb_flat_map {A B : Type} (f : B -> bool) (g : A -> list B) (l : list A) :
  existsb f (flat_map g l) = existsb (fun a => existsb f (g a)) l.
Proof.
  induction l as [|a l IH]; simpl; [reflexivity|].
  rewrite existsb_app, IH. reflexivity.
Qed.

Lemma existsb_Forall_ext {A : Type} (f g : A -> bool) (l : list A) :
  Forall (fun a => f a = g a) l -> existsb f l = existsb g l.
Proof.
  induction 1 as [|a l Ha _ IH]; simpl; [reflexivity|].
  rewrite Ha, IH. reflexivity.
Qed.

Lemma scan_spec :
  (forall e, scanExpr e = mentionsSideEffect (exprNodes e)) /\
  (forall m, scanMember m = mentionsSideEffect (memberNodes m)).
Proof.
  unfold mentionsSideEffect.
  assert (Hopt : forall o : option expr,
    OptP (fun e => scanExpr e = existsb isSideEffect (exprNodes e)) o ->
    match o with Some c => scanExpr c | None => false end
    = existsb isSideEffect (match o with Some c => exprNodes c | None => [] end)).
  { intros [c|] Ho; [apply Ho; reflexivity | reflexivity]. }
  cut ((forall e, scanExpr e = existsb isSideEffect (exprNodes e)) /\
       (forall s : stmt, True) /\
       (forall m, scanMember m = existsb isSideEffect (memberNodes m))).
  { intros (He & _ & Hm). split; assumption. }
  apply tree_ind; intros; simpl; try reflexivity; try exact I;
    repeat rewrite existsb_app; repeat rewrite existsb_flat_map;
    repeat match goal with
    | Hx : scanExpr _ = _ |- _ => rewrite <- Hx; clear Hx
    | Hx : OptP _ _ |- _ => rewrite <- (Hopt _ Hx); clear Hx
    | Hx : Forall _ _ |- _ => rewrite <- (existsb_Forall_ext _ _ _ Hx); clear Hx
    end;
    try reflexivity.
  symmetry; apply orb_assoc.
Qed.

Lemma mentions_expr (e : expr) : existsb isSideEffect (exprNodes e) = scanExpr e.
Proof. symmetry. apply scan_spec. Qed.

Lemma mentions_members (body : list member) :
  existsb isSideEffect (flat_map memberNodes body) = existsb scanMember body.
Proof.
  rewrite existsb_flat_map. apply existsb_ext_In. intros m _. symmetry. apply scan_spec.
Qed.

Lemma mentions_option (o : option expr) :
  existsb isSideEffect (match o with Some c => exprNodes c | None => [] end)
  = match o with Some c => scanExpr c | None => false end.
Proof. destruct o; [apply mentions_expr | reflexivity]. Qed.

(** Where a listed node occurs below a statement. *)
Lemma mentions_stmt (s : stmt) :
  mentionsSideEffect (stmtNodes s)
  = match s with
    | ExpressionStatement _ e => scanExpr e
    | LabeledStatement _ body => mentionsSideEffect (stmtNodes body)
    | BlockStatement body => existsb (fun s => mentionsSideEffect (stmtNodes s)) body
    | EmptyStatement => false
    | IfStatement test consequent alternate =>
        scanExpr test || mentionsSideEffect (stmtNodes consequent)
        || match alternate with
           | Some a => mentionsSideEffect (stmtNodes a)
           | None => false
           end
    | WhileStatement test body => scanExpr test || mentionsSideEffect (stmtNodes body)
    | ReturnStatement _ => true
    | ThrowStatement argument => scanExpr argument
    | BreakStatement _ => false
    | VariableDeclaration _ _ => true
    | FunctionDeclaration _ _ _ => true
    | ClassDeclaration _ _ superClass body =>
        match superClass with Some c => scanExpr c | None => false end
        || existsb scanMember body
    end.
Proof.
  unfold mentionsSideEffect. destruct s; simpl; try reflexivity;
    rewrite ?existsb_app, ?mentions_expr, ?mentions_option, ?mentions_members;
    try reflexivity.
  - apply existsb_flat_map.
  - destruct alternate; simpl; rewrite ?orb_false_r, ?orb_assoc; reflexivity.
Qed.

Section Verdict.
Variable sideEffect : error.
Variable render : expr -> result expr.

Lemma visitExpr_true (e : expr) :
  scanExpr e = true -> visitExpr sideEffect e = Throw sideEffect.
Proof. unfold visitExpr. intros ->. reflexivity. Qed.

Lemma visitExpr_false (e : expr) : scanExpr e = false -> visitExpr sideEffect e = Ok tt.
Proof. unfold visitExpr. intros ->. reflexivity. Qed.

Lemma mapList_throws (l : list stmt) :
  Forall (fun s => (mentionsSideEffect (stmtNodes s) = true ->
                    traverse sideEffect render s = Throw sideEffect) /\ Settled sideEffect render s) l ->
  existsb (fun s => mentionsSideEffect (stmtNodes s)) l = true ->
  mapList (traverse sideEffect render) l = Throw sideEffect.
Proof.
  induction 1 as [|s l [Hs Hset] _ IH]; simpl; [discriminate|]. intros H.
  apply orb_true_iff in H as [H|H].
  - rewrite (Hs H). reflexivity.
  - destruct Hset as [[s' ->] | ->]; [|reflexivity].
    rewrite bind_Ok, (IH H). reflexivity.
Qed.

Lemma mapList_settled (l : list stmt) :
  Forall (Settled sideEffect render) l ->
  (exists l', mapList (traverse sideEffect render) l = Ok l') \/
  mapList (traverse sideEffect render) l = Throw sideEffect.
Proof.
  induction 1 as [|s l Hs _ IH]; simpl; [left; eexists; reflexivity|].
  destruct Hs as [[s' ->] | ->]; [|right; reflexivity].
  rewrite bind_Ok. destruct IH as [[l' ->] | ->]; [left | right]; [eexists|]; reflexivity.
Qed.

Lemma mapList_passes (l : list stmt) :
  Forall (fun s => mentionsSideEffect (stmtNodes s) = false ->
                   exists s', traverse sideEffect render s = Ok s') l ->
  existsb (fun s => mentionsSideEffect (stmtNodes s)) l = false ->
  exists l', mapList (traverse sideEffect render) l = Ok l'.
Proof.
  induction 1 as [|s l Hs _ IH]; simpl; [eexists; reflexivity|]. intros H.
  apply orb_false_iff in H as [H1 H2].
  destruct (Hs H1) as [s' ->]. destruct (IH H2) as [l' ->]. eexists. reflexivity.
Qed.

(** With a renderer that keeps the side effects of the payload, the
    traversal throws the side effect error as soon as a listed node occurs
    below the statement, and it either returns or throws that error. *)
Lemma traverse_throws :
  KeepsSideEffects render ->
  forall s,
    (mentionsSideEffect (stmtNodes s) = true ->
     traverse sideEffect render s = Throw sideEffect) /\ Settled sideEffect render s.
Proof.
  intros Hr.
  cut ((forall e : expr, True) /\
       (forall s, (mentionsSideEffect (stmtNodes s) = true ->
                   traverse sideEffect render s = Throw sideEffect) /\ Settled sideEffect render s) /\
       (forall m : member, True)).
  { intros (_ & H & _). exact H. }
  apply (tree_ind (fun _ => True)
           (fun s => (mentionsSideEffect (stmtNodes s) = true ->
                      traverse sideEffect render s = Throw sideEffect) /\ Settled sideEffect render s)
           (fun _ => True));
    try (intros; exact I); intros; unfold Settled; rewrite mentions_stmt; simpl traverse.
  - destruct h.
    + unfold visitExpr. destruct (scanExpr e); split; intros; try discriminate;
        try reflexivity; [right | left; eexists]; reflexivity.
    + destruct (Hr e) as (e' & -> & He). rewrite bind_Ok. unfold visitExpr.
      destruct (scanExpr e).
      * rewrite (He eq_refl). split; [reflexivity | right; reflexivity].
      * split; [discriminate|]. destruct (scanExpr e'); [right | left; eexists]; reflexivity.
  - destruct H as [Ht [[s' Hs] | Hs]]; rewrite Hs in *.
    + split; [intros Hm; discriminate (Ht Hm) | left; eexists; reflexivity].
    + split; [reflexivity | right; reflexivity].
  - split.
    + intros Hm. rewrite (mapList_throws body H Hm). reflexivity.
    + assert (Hs : Forall (Settled sideEffect render) body).
      { eapply Forall_impl; [exact H|]. intros s [_ Hs]. exact Hs. }
      destruct (mapList_settled body Hs) as [[l' ->] | ->];
        [left; eexists | right]; reflexivity.
  - split; [discriminate | left; eexists; reflexivity].
  - unfold visitExpr. destruct (scanExpr t); [split; [reflexivity | right; reflexivity]|].
    rewrite bind_Ok. simpl orb.
    destruct H0 as [Hc [[c' Hcs] | Hcs]]; rewrite Hcs.
    + rewrite bind_Ok.
      destruct a as [alt|]; simpl mapOpt.
      * destruct (H1 alt eq_refl) as [Ha [[a' Has] | Has]]; rewrite Has.
        -- split; [|left; eexists; reflexivity].
           intros Hm. apply orb_true_iff in Hm as [Hm|Hm].
           ++ rewrite (Hc Hm) in Hcs. discriminate.
           ++ rewrite (Ha Hm) in Has. discriminate.
        -- split; [reflexivity | right; reflexivity].
      * split; [|left; eexists; reflexivity].
        rewrite orb_false_r. intros Hm. rewrite (Hc Hm) in Hcs. discriminate.
    + split; [reflexivity | right; reflexivity].
  - unfold visitExpr. destruct (scanExpr t); [split; [reflexivity | right; reflexivity]|].
    rewrite bind_Ok. simpl orb.
    destruct H0 as [Hb [[b' Hbs] | Hbs]]; rewrite Hbs.
    + split; [|left; eexists; reflexivity].
      intros Hm. rewrite (Hb Hm) in Hbs. discriminate.
    + split; [reflexivity | right; reflexivity].
  - split; [reflexivity | right; reflexivity].
  - unfold visitExpr. destruct (scanExpr a);
      [split; [reflexivity | right; reflexivity]
      | split; [discriminate | left; eexists; reflexivity]].
  - split; [discriminate | left; eexists; reflexivity].
  - split; [reflexivity | right; reflexivity].
  - split; [reflexivity | right; reflexivity].
  - destruct (match sup with Some c => scanExpr c | None => false end || existsb scanMember body);
      [split; [reflexivity | right; reflexivity]
      | split; [discriminate | left; eexists; reflexivity]].
Qed.

(** With a faithful renderer, the traversal returns when no listed node
    occurs below the statement. *)
Lemma traverse_passes :
  Faithful render ->
  forall s, mentionsSideEffect (stmtNodes s) = false ->
            exists s', traverse sideEffect render s = Ok s'.
Proof.
  intros Hr.
  cut ((forall e : expr, True) /\
       (forall s, mentionsSideEffect (stmtNodes s) = false ->
                  exists s', traverse sideEffect render s = Ok s') /\
       (forall m : member, True)).
  { intros (_ & H & _). exact H. }
  apply (tree_ind (fun _ => True)
           (fun s => mentionsSideEffect (stmtNodes s) = false ->
                     exists s', traverse sideEffect render s = Ok s')
           (fun _ => True));
    try (intros; exact I); intros;
    match goal with
    | Hm : mentionsSideEffect (stmtNodes _) = false |- _ => rewrite mentions_stmt in Hm
    end;
    simpl traverse; try discriminate.
  - destruct h.
    + rewrite visitExpr_false by assumption. eexists. reflexivity.
    + destruct (Hr e) as (e' & -> & He). rewrite bind_Ok.
      rewrite visitExpr_false by congruence. eexists. reflexivity.
  - destruct (H H0) as [s' ->]. eexists. reflexivity.
  - destruct (mapList_passes body H H0) as [l' ->]. eexists. reflexivity.
  - eexists. reflexivity.
  - apply orb_false_iff in H2 as [H2 Ha]. apply orb_false_iff in H2 as [Ht Hc].
    rewrite visitExpr_false by assumption. rewrite bind_Ok.
    destruct (H0 Hc) as [c' ->]. rewrite bind_Ok.
    destruct a as [alt|]; simpl mapOpt.
    + destruct (H1 alt eq_refl Ha) as [a' ->]. eexists. reflexivity.
    + eexists. reflexivity.
  - apply orb_false_iff in H1 as [Ht Hb].
    rewrite visitExpr_false by assumption. rewrite bind_Ok.
    destruct (H0 Hb) as [b' ->]. eexists. reflexivity.
  - rewrite visitExpr_false by assumption. eexists. reflexivity.
  - eexists. reflexivity.
  - rewrite H1. eexists. reflexivity.
Qed.

End Verdict.

Lemma Faithful_keeps (render : expr -> result expr) :
  Faithful render -> KeepsSideEffects render.
Proof.
  intros H e. destruct (H e) as (e' & He & Hs). exists e'. split; [exact He|].
  rewrite Hs. trivial.
Qed.

(** The default renderers are faithful. *)
Lemma default_renderer_faithful (babel : PluginParams) (level : string) (metadata : Metadata) :
  TemplateLaw babel ->
  Faithful (renderPayload (AliasFunction (getLogFunction babel level)) metadata).
Proof.
  intros Hlaw e. unfold renderPayload, callAlias. rewrite bind_Ok.
  destruct (isSequenceExpression e) eqn:Hseq.
  - destruct e; try discriminate Hseq.
    rewrite (getLogFunction_sequence babel level
               (buildMessage metadata (SequenceExpression expressions)) metadata
               expressions eq_refl).
    eexists. split; reflexivity.
  - rewrite (getLogFunction_single babel level (buildMessage metadata e) metadata Hlaw Hseq).
    eexists. split; [reflexivity|]. simpl. rewrite orb_false_r. reflexivity.
Qed.

(** ** Labels below the traversed body *)

Lemma existsb_flat_map_false {A B : Type} (f : A -> bool) (g : B -> bool)
    (h : A -> list B) (l : list A) :
  Forall (fun a => f a = false -> existsb g (h a) = false) l ->
  existsb f l = false -> existsb g (flat_map h l) = false.
Proof.
  induction 1 as [|a l Ha _ IH]; simpl; [reflexivity|]. intros H.
  apply orb_false_iff in H as [H1 H2]. rewrite existsb_app, (Ha H1), (IH H2). reflexivity.
Qed.

Ltac split_orb :=
  repeat match goal with
  | H : _ || _ = false |- _ => apply orb_false_iff in H as [? ?]
  end.

(** An expression below which the throwing visitor does not fire holds no
    statement: statements only stand in functions and methods. *)
Lemma scan_no_statement :
  (forall e, scanExpr e = false -> existsb isStatement (exprNodes e) = false) /\
  (forall m, scanMember m = false -> existsb isStatement (memberNodes m) = false).
Proof.
  assert (Hopt : forall o : option expr,
    OptP (fun e => scanExpr e = false -> existsb isStatement (exprNodes e) = false) o ->
    match o with Some c => scanExpr c | None => false end = false ->
    existsb isStatement (match o with Some c => exprNodes c | None => [] end) = false).
  { intros [c|] Ho H; [apply (Ho c eq_refl H) | reflexivity]. }
  cut ((forall e, scanExpr e = false -> existsb isStatement (exprNodes e) = false) /\
       (forall s : stmt, True) /\
       (forall m, scanMember m = false -> existsb isStatement (memberNodes m) = false)).
  { intros (He & _ & Hm). split; assumption. }
  apply tree_ind; try (intros; exact I); intros; simpl in *; try discriminate;
    try reflexivity; split_orb; rewrite ?existsb_app;
    repeat match goal with
    | Hx : scanExpr ?e = false -> _, Hs : scanExpr ?e = false |- _ =>
        rewrite (Hx Hs); clear Hx
    | Hx : OptP _ ?o, Hs : match ?o with Some _ => _ | None => _ end = false |- _ =>
        rewrite (Hopt o Hx Hs); clear Hx
    | Hx : Forall _ ?l, Hs : existsb _ ?l = false |- _ =>
        rewrite (existsb_flat_map_false _ _ _ l Hx Hs); clear Hx
    end;
    reflexivity.
Qed.

Lemma isLabeled_statement (label : string) (n : node) :
  isLabeled label n = true -> isStatement n = true.
Proof. destruct n as [|[]| | | |]; simpl; congruence. Qed.

Lemma no_statement_no_label (label : string) (nodes : list node) :
  existsb isStatement nodes = false -> labelOccurs label nodes = false.
Proof.
  unfold labelOccurs. induction nodes as [|n nodes IH]; simpl; [reflexivity|]. intros H.
  apply orb_false_iff in H as [H1 H2]. rewrite (IH H2), orb_false_r.
  destruct (isLabeled label n) eqn:E; [|reflexivity].
  rewrite (isLabeled_statement _ _ E) in H1. discriminate.
Qed.

Lemma labelOccurs_app (label : string) (l1 l2 : list node) :
  labelOccurs label (l1 ++ l2) = labelOccurs label l1 || labelOccurs label l2.
Proof. apply existsb_app. Qed.

Section Labels.
Variable sideEffect : error.
Variable render : expr -> result expr.
Variable label : string.

Lemma mapList_labels (l l' : list stmt) :
  Forall (fun s => forall s', traverse sideEffect render s = Ok s' ->
                              labelOccurs label (stmtNodes s) = false ->
                              labelOccurs label (stmtNodes s') = false) l ->
  mapList (traverse sideEffect render) l = Ok l' ->
  labelOccurs label (flat_map stmtNodes l) = false ->
  labelOccurs label (flat_map stmtNodes l') = false.
Proof.
  intros Hl. revert l'. induction Hl as [|s l Hs _ IH]; intros l' H Hno; simpl in H; invert_bind.
  - reflexivity.
  - simpl in *. rewrite labelOccurs_app in *. apply orb_false_iff in Hno as [H1 H2].
    rewrite (Hs _ Ha H1), (IH _ Ha0 H2). reflexivity.
Qed.

(** The traversal brings no label under a statement that did not hold
    it. *)
Lemma traverse_labels (s s' : stmt) :
  traverse sideEffect render s = Ok s' ->
  labelOccurs label (stmtNodes s) = false ->
  labelOccurs label (stmtNodes s') = false.
Proof.
  revert s'.
  cut ((forall e : expr, True) /\
       (forall s s', traverse sideEffect render s = Ok s' ->
                     labelOccurs label (stmtNodes s) = false ->
                     labelOccurs label (stmtNodes s') = false) /\
       (forall m : member, True)).
  { intros (_ & H & _). exact (H s). }
  apply (tree_ind (fun _ => True)
           (fun s => forall s', traverse sideEffect render s = Ok s' ->
                                labelOccurs label (stmtNodes s) = false ->
                                labelOccurs label (stmtNodes s') = false)
           (fun _ => True));
    try (intros; exact I); intros; simpl in *.
  - destruct h; invert_bind; [assumption|].
    unfold labelOccurs. simpl. apply (no_statement_no_label label).
    apply scan_no_statement. eapply visitExpr_Ok. eassumption.
  - invert_bind. unfold labelOccurs in *. simpl in *.
    apply orb_false_iff in H1 as [H1 H2]. rewrite H1. simpl. apply (H _ Ha H2).
  - invert_bind. unfold labelOccurs in *. simpl in *.
    eapply mapList_labels; eassumption.
  - invert_bind. assumption.
  - invert_bind. unfold labelOccurs in *. simpl in *.
    rewrite !existsb_app in *. split_orb.
    match goal with Ht : existsb _ (exprNodes t) = false |- _ => rewrite Ht end.
    match goal with
    | Hc : traverse _ _ c = Ok ?c', Hn : existsb _ (stmtNodes c) = false |- _ =>
        rewrite (H0 c' Hc Hn)
    end.
    simpl. destruct a as [alt|]; simpl in *; invert_bind; [|reflexivity].
    match goal with
    | Hc : traverse _ _ alt = Ok ?c', Hn : existsb _ (stmtNodes alt) = false |- _ =>
        apply (H1 alt eq_refl c' Hc Hn)
    end.
  - invert_bind. unfold labelOccurs in *. simpl in *.
    rewrite !existsb_app in *. split_orb.
    match goal with Ht : existsb _ (exprNodes t) = false |- _ => rewrite Ht end.
    simpl. eauto.
  - discriminate.
  - invert_bind. assumption.
  - invert_bind. assumption.
  - discriminate.
  - discriminate.
  - match goal with H : (if ?c then _ else _) = Ok _ |- _ => destruct c end; invert_bind.
    assumption.
Qed.

End Labels.

(** ** The rewrite of a labeled statement *)

Lemma handle_alias (babel : PluginParams) (proc : Process) (path : NodePath)
    (opts : PluginOptions) (alias : AliasValue) :
  aliasLookup (normalizeOpts babel opts) (path_label path) = Some alias ->
  snd (handleLabeledStatement babel proc path opts)
  = if shouldStrip proc (path_label path)
         (collectMetadata proc path (normalizeOpts babel opts)) (normalizeOpts babel opts)
    then Ok Remove
    else
      body ← traverse (CodeFrameError (path_node path) sideEffectMessage)
                (renderPayload alias (collectMetadata proc path (normalizeOpts babel opts)))
                (path_body path);
      Ok (match body with
          | BlockStatement statements => ReplaceWithMultiple statements
          | single => ReplaceWith single
          end).
Proof.
  intros H. unfold handleLabeledStatement. rewrite H.
  destruct (shouldStrip _ _ _ _); [reflexivity|]. simpl.
  destruct (traverse _ _ _) as [body|e]; [|reflexivity].
  rewrite !bind_Ok. destruct body; reflexivity.
Qed.

Lemma contributed_body (original body : stmt) :
  contributed original
    (match body with
     | BlockStatement statements => ReplaceWithMultiple statements
     | single => ReplaceWith single
     end)
  = statementsOf body.
Proof. destruct body; reflexivity. Qed.

Lemma labelOccurs_statementsOf (label : string) (body : stmt) :
  labelOccurs label (stmtNodes body) = false ->
  labelOccurs label (flat_map stmtNodes (statementsOf body)) = false.
Proof.
  unfold labelOccurs. destruct body; simpl; rewrite ?app_nil_r; intros H; exact H.
Qed.

(** C1, as the code has it.  For a labeled statement whose label is an
    alias of the normalized table: if the strip decision is true, the
    statement is removed, and in a list of statements nothing stands in its
    place.  Otherwise, if the traversal of the body returns, the labeled
    statement is replaced by the traversed body.  When it is an element of
    a list of statements (of a block or of the program), the statements of
    the body stand in its place: as many as the block has, one for a body
    that is not a block.  When it fills a slot for one statement (the
    consequent or the alternate of an [if], the body of a loop), one
    statement stands in its place, the traversed body itself: a block that
    holds as many statements as the block of the body has, or the body that
    is not a block.  No
    statement with that label is in what stands there when none is nested
    in the body (JavaScript forbids to nest a label in a statement with the
    same label).  If the traversal throws, so does the call.  With a
    faithful renderer and a body without any listed node, the traversal
    returns. *)
Theorem label_wrapper_removed (babel : PluginParams) (proc : Process) (path : NodePath)
    (opts : PluginOptions) (alias : AliasValue) :
  let opts' := normalizeOpts babel opts in
  let metadata := collectMetadata proc path opts' in
  let sideEffect := CodeFrameError (path_node path) sideEffectMessage in
  let outcome := snd (handleLabeledStatement babel proc path opts) in
  aliasLookup opts' (path_label path) = Some alias ->
  (shouldStrip proc (path_label path) metadata opts' = true ->
   outcome = Ok Remove /\
   (container path = InList -> placed path Remove = Some [])) /\
  (shouldStrip proc (path_label path) metadata opts' = false ->
   (forall body',
      traverse sideEffect (renderPayload alias metadata) (path_body path) = Ok body' ->
      exists m,
        outcome = Ok m /\ m <> Untouched /\
        contributed (path_node path) m = statementsOf body' /\
        (container path = InList ->
         placed path m = Some (statementsOf body') /\
         (forall statements,
            path_body path = BlockStatement statements ->
            length (statementsOf body') = length statements) /\
         (isBlockStatement (StmtNode (path_body path)) = false ->
          length (statementsOf body') = 1)) /\
        (container path = InSlot ->
         placed path m = Some [body'] /\
         (forall statements,
            path_body path = BlockStatement statements ->
            exists statements',
              body' = BlockStatement statements' /\
              length statements' = length statements)) /\
        (labelOccurs (path_label path) (stmtNodes (path_body path)) = false ->
         forall standing,
           placed path m = Some standing ->
           labelOccurs (path_label path) (flat_map stmtNodes standing) = false)) /\
   (forall e,
      traverse sideEffect (renderPayload alias metadata) (path_body path) = Throw e ->
      outcome = Throw e) /\
   (Faithful (renderPayload alias metadata) ->
    mentionsSideEffect (stmtNodes (path_body path)) = false ->
    exists body',
      traverse sideEffect (renderPayload alias metadata) (path_body path) = Ok body')).
Proof.
  intros opts' metadata sideEffect outcome Halias.
  unfold outcome. rewrite (handle_alias _ _ _ _ _ Halias).
  fold opts'. fold metadata. fold sideEffect.
  split.
  - intros ->. split; [reflexivity|]. intros Hc. unfold placed. rewrite Hc. reflexivity.
  - intros ->. split; [|split].
    + intros body' Hbody. rewrite Hbody, bind_Ok. eexists. split; [reflexivity|].
      destruct (traverse_shape _ _ _ _ Hbody) as [Hkind Hlen].
      split; [destruct body'; discriminate|].
      split; [apply contributed_body|]. split; [|split].
      * intros Hc. split; [|split].
        -- unfold placed. rewrite Hc. destruct body'; reflexivity.
        -- intros statements E. rewrite Hlen, E. reflexivity.
        -- intros Hb. rewrite Hlen. destruct (path_body path); try reflexivity.
           discriminate Hb.
      * intros Hc. split.
        -- unfold placed. rewrite Hc. destruct body'; reflexivity.
        -- intros statements E. rewrite E in Hkind, Hlen.
           destruct body'; try discriminate Hkind.
           eexists. split; [reflexivity | exact Hlen].
      * intros Hno standing Hp.
        assert (Hl : labelOccurs (path_label path) (stmtNodes body') = false).
        { eapply traverse_labels; eassumption. }
        pose proof (labelOccurs_statementsOf _ _ Hl) as Hs.
        unfold placed in Hp.
        destruct body'; destruct (container path); try discriminate Hp;
          injection Hp as <-; try exact Hs;
          simpl flat_map; rewrite app_nil_r; exact Hl.
    + intros e He. rewrite He. reflexivity.
    + intros Hf Hm. apply traverse_passes; assumption.
Qed.

(** C2, as the code has it.  For a labeled statement whose label is an
    alias, that is not stripped, and whose renderer keeps the side effects
    of the payload: if a variable declaration, a function (declaration,
    expression, arrow function, object or class method), an assignment, an
    update, a yield or a return occurs anywhere in the body, the call throws
    the error "Logging statements cannot have side effects." tied to the
    labeled statement.  A function is such a node whatever its body holds. *)
Theorem side_effects_rejected (babel : PluginParams) (proc : Process) (path : NodePath)
    (opts : PluginOptions) (alias : AliasValue) :
  let opts' := normalizeOpts babel opts in
  let metadata := collectMetadata proc path opts' in
  aliasLookup opts' (path_label path) = Some alias ->
  shouldStrip proc (path_label path) metadata opts' = false ->
  KeepsSideEffects (renderPayload alias metadata) ->
  forall n,
    In n (stmtNodes (path_body path)) ->
    isSideEffect n = true \/ isFunction n = true ->
    snd (handleLabeledStatement babel proc path opts)
    = Throw (CodeFrameError (path_node path) "Logging statements cannot have side effects.").
Proof.
  intros opts' metadata Halias Hstrip Hkeeps n Hin Hn.
  rewrite (handle_alias _ _ _ _ _ Halias). fold opts'. fold metadata. rewrite Hstrip.
  assert (Hm : mentionsSideEffect (stmtNodes (path_body path)) = true).
  { apply existsb_exists. exists n. split; [exact Hin|].
    destruct Hn as [Hn|Hn]; [exact Hn|].
    destruct n as [[]|[]|[]| | |]; try discriminate Hn; reflexivity. }
  destruct (traverse_throws (CodeFrameError (path_node path) sideEffectMessage) _ Hkeeps
              (path_body path)) as [Ht _].
  rewrite (Ht Hm). reflexivity.
Qed.

(** C7, as the code has it.  For a labeled statement whose label is an
    alias and that is not stripped, when the call returns, the statements
    that replace it are those of the rewritten body: every unmarked
    expression statement, at any depth, is replaced by a marked expression
    statement that wraps the result of the renderer, applied to the message
    and the metadata; the marked ones and the other statements are kept.
    The call returns when the renderer is faithful and no listed node
    occurs in the body.  The message holds the payload and, as literals,
    the prefix, the two start flags, the indentation, the parent name and
    the four file names; it has no entry for the context. *)
Theorem expression_statements_rewritten (babel : PluginParams) (proc : Process)
    (path : NodePath) (opts : PluginOptions) (alias : AliasValue) :
  let opts' := normalizeOpts babel opts in
  let metadata := collectMetadata proc path opts' in
  let outcome := snd (handleLabeledStatement babel proc path opts) in
  aliasLookup opts' (path_label path) = Some alias ->
  shouldStrip proc (path_label path) metadata opts' = false ->
  (forall m,
     outcome = Ok m ->
     exists body',
       Rewritten alias metadata (path_body path) body' /\
       contributed (path_node path) m = statementsOf body') /\
  (Faithful (renderPayload alias metadata) ->
   mentionsSideEffect (stmtNodes (path_body path)) = false ->
   exists m, outcome = Ok m) /\
  (forall content,
     map fst (messageEntries (buildMessage metadata content))
     = ["prefix"; "content"; "hasStartMessage"; "isStartMessage"; "indent";
        "parentName"; "filename"; "dirname"; "basename"; "extname"] /\
     messageIds (buildMessage metadata content) !! "content" = Some (ExprNode content) /\
     messageIds (buildMessage metadata content) !! "context" = None).
Proof.
  intros opts' metadata outcome Halias Hstrip. unfold outcome.
  rewrite (handle_alias _ _ _ _ _ Halias). fold opts'. fold metadata. rewrite Hstrip.
  split; [|split].
  - intros m Hm. apply bind_Ok_inv in Hm as (body' & Hbody & Hm).
    injection Hm as <-. exists body'. split; [|apply contributed_body].
    eapply traverse_rewritten. exact Hbody.
  - intros Hf Hno.
    destruct (traverse_passes (CodeFrameError (path_node path) sideEffectMessage) _ Hf
                (path_body path) Hno) as [body' ->].
    rewrite bind_Ok. eexists. reflexivity.
  - intros content. split; [reflexivity|]. split; reflexivity.
Qed.

(** ** The claims on sample inputs *)

Lemma traceAlias_lookup :
  aliasLookup (normalizeOpts sampleBabel noOptions) "trace" = Some traceAlias.
Proof. reflexivity. Qed.

Lemma traceAlias_faithful (metadata : Metadata) :
  Faithful (renderPayload traceAlias metadata).
Proof. apply default_renderer_faithful. exact sampleBabel_law. Qed.

(** C1 as stated fails.  In [if (c) trace: { 'a'; 'b', c; }] the labeled
    statement is the consequent of the [if]; its label is an alias, it is
    not stripped, and its body is a block of two statements.  The call
    returns, and one statement stands in the place of the labeled
    statement, a block, not two. *)
Lemma label_in_consequent_wrapped :
  isAlias (normalizeOpts sampleBabel noOptions) "trace" = true /\
  shouldStrip sampleProcess "trace"
    (collectMetadata sampleProcess consequentPath (normalizeOpts sampleBabel noOptions))
    (normalizeOpts sampleBabel noOptions) = false /\
  container consequentPath = InSlot /\
  length (statementsOf (path_body consequentPath)) = 2 /\
  exists m standing,
    snd (handleLabeledStatement sampleBabel sampleProcess consequentPath noOptions) = Ok m /\
    placed consequentPath m = Some standing /\
    standing
    = [ BlockStatement
          [ ExpressionStatement true
              (CallExpression
                 (MemberExpression (Identifier "console") (Identifier "log") false)
                 [StringLiteral "a::  "; StringLiteral "a"]);
            ExpressionStatement true
              (CallExpression
                 (MemberExpression (Identifier "console") (Identifier "log") false)
                 [StringLiteral "a::  "; StringLiteral "b"; Identifier "c"]) ] ] /\
    length standing = 1.
Proof.
  split; [reflexivity|]. split; [reflexivity|]. split; [reflexivity|].
  split; [reflexivity|].
  eexists. eexists. split; [reflexivity|]. split; [reflexivity|].
  split; reflexivity.
Qed.

Lemma label_wrapper_removed_witness :
  aliasLookup (normalizeOpts sampleBabel noOptions) "trace" = Some traceAlias /\
  (exists m,
     snd (handleLabeledStatement sampleBabel sampleProcess
            (topLevel "trace" twoStatements) noOptions) = Ok m /\
     placed (topLevel "trace" twoStatements) m
     = Some [ ExpressionStatement true
                (CallExpression
                   (MemberExpression (Identifier "console") (Identifier "log") false)
                   [StringLiteral "a::"; StringLiteral "a"]);
              ExpressionStatement true
                (CallExpression
                   (MemberExpression (Identifier "console") (Identifier "log") false)
                   [StringLiteral "a::"; StringLiteral "b"; Identifier "c"]) ]) /\
  (exists m statements,
     snd (handleLabeledStatement sampleBabel sampleProcess consequentPath noOptions) = Ok m /\
     placed consequentPath m = Some [BlockStatement statements] /\
     length statements = 2 /\
     labelOccurs "trace" (flat_map stmtNodes [BlockStatement statements]) = false).
Proof.
  split; [exact traceAlias_lookup|]. split.
  - destruct (label_wrapper_removed sampleBabel sampleProcess (topLevel "trace" twoStatements)
                noOptions traceAlias traceAlias_lookup) as [_ Hkept].
    destruct (Hkept eq_refl) as (Hreturns & _ & Hpasses).
    destruct (Hpasses (traceAlias_faithful _) eq_refl) as [body' Hbody].
    destruct (Hreturns body' Hbody) as (m & Hm & _ & _ & Hlist & _ & _).
    destruct (Hlist eq_refl) as (Hplaced & _ & _).
    exists m. split; [exact Hm|]. rewrite Hplaced.
    injection Hbody as <-. reflexivity.
  - destruct (label_wrapper_removed sampleBabel sampleProcess consequentPath
                noOptions traceAlias traceAlias_lookup) as [_ Hkept].
    destruct (Hkept eq_refl) as (Hreturns & _ & Hpasses).
    destruct (Hpasses (traceAlias_faithful _) eq_refl) as [body' Hbody].
    destruct (Hreturns body' Hbody) as (m & Hm & _ & _ & _ & Hslot & Hlabel).
    destruct (Hslot eq_refl) as (Hplaced & Hblock).
    destruct (Hblock _ eq_refl) as (statements & -> & Hlength).
    exists m, statements. split; [exact Hm|]. split; [exact Hplaced|].
    split; [exact Hlength|]. exact (Hlabel eq_refl _ Hplaced).
Defined.

(** C2 as stated fails.  A stripped label whose body holds an assignment is
    removed without an error; and a class definition in the body of a label
    that is not stripped, be it a declaration or an expression, is not
    rejected. *)
Lemma side_effect_not_rejected :
  (In (ExprNode (AssignmentExpression "=" (Identifier "x") (NumericLiteral 5)))
      (stmtNodes assignmentStatement) /\
   isAlias (normalizeOpts sampleBabel stripAll) "trace" = true /\
   snd (handleLabeledStatement sampleBabel sampleProcess
          (topLevel "trace" assignmentStatement) stripAll) = Ok Remove) /\
  (In (StmtNode classDeclaration) (stmtNodes (BlockStatement [classDeclaration])) /\
   isClass (StmtNode classDeclaration) = true /\
   isAlias (normalizeOpts sampleBabel noOptions) "trace" = true /\
   snd (handleLabeledStatement sampleBabel sampleProcess
          (topLevel "trace" (BlockStatement [classDeclaration])) noOptions)
   = Ok (ReplaceWithMultiple [classDeclaration])) /\
  (In (ExprNode (ClassExpression None 1 None [])) (stmtNodes classStatement) /\
   isClass (ExprNode (ClassExpression None 1 None [])) = true /\
   snd (handleLabeledStatement sampleBabel sampleProcess
          (topLevel "trace" classStatement) noOptions)
   = Ok (ReplaceWith
           (ExpressionStatement true
              (CallExpression
                 (MemberExpression (Identifier "console") (Identifier "log") false)
                 [StringLiteral "a::"; ClassExpression None 1 None []])))).
Proof.
  split; [|split].
  - split; [right; left; reflexivity|]. split; vm_compute; reflexivity.
  - split; [right; left; reflexivity|]. split; [reflexivity|]. split; vm_compute; reflexivity.
  - split; [right; left; reflexivity|]. split; [reflexivity|]. vm_compute; reflexivity.
Qed.

Lemma side_effects_rejected_witness :
  aliasLookup (normalizeOpts sampleBabel noOptions) "trace" = Some traceAlias /\
  snd (handleLabeledStatement sampleBabel sampleProcess
         (topLevel "trace" assignmentStatement) noOptions)
  = Throw (CodeFrameError (LabeledStatement "trace" assignmentStatement)
             "Logging statements cannot have side effects.").
Proof.
  split; [exact traceAlias_lookup|].
  apply (side_effects_rejected sampleBabel sampleProcess (topLevel "trace" assignmentStatement)
           noOptions traceAlias traceAlias_lookup eq_refl
           (Faithful_keeps _ (traceAlias_faithful _))
           (ExprNode (AssignmentExpression "=" (Identifier "x") (NumericLiteral 5)))).
  - right. left. reflexivity.
  - left. reflexivity.
Defined.

(** C7 as stated fails.  An expression statement two blocks below the
    label is rewritten as well; and the message has no entry for the
    context. *)
Lemma nested_statement_rewritten :
  snd (handleLabeledStatement sampleBabel sampleProcess
         (topLevel "trace" nestedStatement) noOptions)
  = Ok (ReplaceWithMultiple
          [IfStatement (Identifier "c")
             (BlockStatement
                [ExpressionStatement true
                   (CallExpression
                      (MemberExpression (Identifier "console") (Identifier "log") false)
                      [StringLiteral "a::"; StringLiteral "x"])])
             None]) /\
  messageIds (buildMessage sampleMetadata (StringLiteral "x")) !! "context" = None /\
  map fst (messageEntries (buildMessage sampleMetadata (StringLiteral "x")))
  = ["prefix"; "content"; "hasStartMessage"; "isStartMessage"; "indent";
     "parentName"; "filename"; "dirname"; "basename"; "extname"].
Proof. split; [|split]; vm_compute; reflexivity. Qed.

Lemma expression_statements_rewritten_witness :
  aliasLookup (normalizeOpts sampleBabel noOptions) "trace" = Some traceAlias /\
  exists m body',
    snd (handleLabeledStatement sampleBabel sampleProcess
           (topLevel "trace" nestedStatement) noOptions) = Ok m /\
    Rewritten traceAlias
      (collectMetadata sampleProcess (topLevel "trace" nestedStatement)
         (normalizeOpts sampleBabel noOptions))
      nestedStatement body' /\
    contributed (LabeledStatement "trace" nestedStatement) m = statementsOf body'.
Proof.
  split; [exact traceAlias_lookup|].
  destruct (expression_statements_rewritten sampleBabel sampleProcess
              (topLevel "trace" nestedStatement) noOptions traceAlias
              traceAlias_lookup eq_refl) as (Hrewritten & Hreturns & _).
  destruct (Hreturns (traceAlias_faithful _) eq_refl) as [m Hm].
  destruct (Hrewritten m Hm) as (body' & Hrw & Hc).
  exists m, body'. split; [exact Hm|]. split; [exact Hrw | exact Hc].
Defined.

(** C6 as stated fails.  The last label of
    [function authenticate () { trace: 'a'; setup(); trace: 'x'; }] is
    preceded by a statement that is not labeled, and [hasStartMessage] is
    set for it, before and after the first label is rewritten. *)
Lemma later_label_has_start_message :
  (authenticateBody !! 1 = Some (ExpressionStatement false (CallExpression (Identifier "setup") [])) /\
   authenticateBody !! 2 = Some innerLabel /\
   isAlias (normalizeOpts sampleBabel noOptions) "trace" = true) /\
  hasStartMessage (collectMetadata sampleProcess (lastLabelPath authenticateBody)
                     (normalizeOpts sampleBabel noOptions)) = true /\
  hasStartMessage (collectMetadata sampleProcess (lastLabelPath authenticateRewritten)
                     (normalizeOpts sampleBabel noOptions)) = true.
Proof. split; [|split]; [split; [|split]| |]; vm_compute; reflexivity. Qed.

Lemma start_message_detection_witness :
  (hasStartMessage (collectMetadata sampleProcess (loginPath 0 (ExpressionStatement false (StringLiteral "a")))
                      (normalizeOpts sampleBabel noOptions)) = true /\
   isStartMessage (collectMetadata sampleProcess (loginPath 0 (ExpressionStatement false (StringLiteral "a")))
                     (normalizeOpts sampleBabel noOptions)) = true) /\
  (hasStartMessage (collectMetadata sampleProcess (loginPath 1 sequenceStatement)
                      (normalizeOpts sampleBabel noOptions)) = true /\
   isStartMessage (collectMetadata sampleProcess (loginPath 1 sequenceStatement)
                     (normalizeOpts sampleBabel noOptions)) = false) /\
  (hasStartMessage (collectMetadata sampleProcess laterPath
                      (normalizeOpts sampleBabel noOptions)) = false /\
   isStartMessage (collectMetadata sampleProcess laterPath
                     (normalizeOpts sampleBabel noOptions)) = false).
Proof.
  split; [|split].
  - destruct (start_message_detection sampleProcess (normalizeOpts sampleBabel noOptions)
                (loginPath 0 (ExpressionStatement false (StringLiteral "a"))))
      as (_ & _ & _ & Htwo & _).
    destruct (Htwo (StmtNode loginFunction) [Program [loginFunction]]
                "trace" (ExpressionStatement false (StringLiteral "a"))
                "trace" sequenceStatement [ReturnStatement None]
                eq_refl eq_refl eq_refl eq_refl eq_refl) as [Hfirst _].
    exact (Hfirst eq_refl).
  - destruct (start_message_detection sampleProcess (normalizeOpts sampleBabel noOptions)
                (loginPath 1 sequenceStatement))
      as (_ & _ & _ & Htwo & _).
    destruct (Htwo (StmtNode loginFunction) [Program [loginFunction]]
                "trace" (ExpressionStatement false (StringLiteral "a"))
                "trace" sequenceStatement [ReturnStatement None]
                eq_refl eq_refl eq_refl eq_refl eq_refl) as [_ Hsecond].
    exact (Hsecond eq_refl).
  - destruct (start_message_detection sampleProcess (normalizeOpts sampleBabel noOptions)
                laterPath) as (_ & _ & _ & _ & Hlater).
    destruct (Hlater (StmtNode laterFunction)
                (ExpressionStatement false (CallExpression (Identifier "setup") [])) [innerLabel]
                eq_refl eq_refl eq_refl) as [_ Hopen].
    exact (Hopen eq_refl eq_refl).
Defined.

(** * Further properties of the code *)

(** ** The environment override reader *)

Lemma trimStart_fixed (s : string) :
  JsString.trimStart (JsString.trimStart s) = JsString.trimStart s.
Proof.
  induction s as [|c s IH]; simpl; [reflexivity|].
  destruct (JsString.isSpace c) eqn:E; [exact IH|]. simpl. rewrite E. reflexivity.
Qed.

Lemma trimEnd_fixed (s : string) :
  JsString.trimEnd (JsString.trimEnd s) = JsString.trimEnd s.
Proof.
  induction s as [|c s IH]; simpl; [reflexivity|].
  destruct (JsString.trimEnd s) as [|a r] eqn:E.
  - destruct (JsString.isSpace c) eqn:Ec; simpl; [reflexivity|]. rewrite Ec. reflexivity.
  - simpl in IH |- *. rewrite IH. reflexivity.
Qed.

Lemma trimStart_trimEnd (s : string) :
  JsString.trimStart (JsString.trimEnd s) = JsString.trimEnd (JsString.trimStart s).
Proof.
  induction s as [|c s IH]; simpl; [reflexivity|].
  destruct (JsString.isSpace c) eqn:Ec.
  - rewrite <- IH. destruct (JsString.trimEnd s) as [|a r] eqn:E; simpl; [reflexivity|].
    rewrite Ec. reflexivity.
  - simpl. destruct (JsString.trimEnd s) as [|a r] eqn:E; simpl; rewrite Ec; reflexivity.
Qed.

Lemma trim_fixed (s : string) : JsString.trim (JsString.trim s) = JsString.trim s.
Proof.
  unfold JsString.trim.
  rewrite trimStart_trimEnd, trimStart_fixed, trimEnd_fixed. reflexivity.
Qed.

Lemma includes_comma_cons (c : ascii) (s : string) :
  JsString.includes (String c s) "," = Ascii.eqb c "," || JsString.includes s ",".
Proof.
  change (JsString.includes (String c s) ",")
    with (String.prefix "," (String c s) || JsString.includes s ",").
  f_equal.
  change (String.prefix "," (String c s))
    with (if ascii_dec "," c then String.prefix "" s else false).
  destruct (ascii_dec "," c) as [<-|n].
  - destruct s; reflexivity.
  - symmetry. apply Ascii.eqb_neq. congruence.
Qed.

Lemma split_comma_free (s : string) :
  Forall (fun w => JsString.includes w "," = false) (JsString.split "," s).
Proof.
  induction s as [|c s IH]; simpl.
  - constructor; [reflexivity | constructor].
  - destruct (Ascii.eqb c ",") eqn:E.
    + constructor; [reflexivity | exact IH].
    + destruct (JsString.split "," s) as [|w ws].
      * constructor; [|constructor]. rewrite includes_comma_cons, E. reflexivity.
      * inversion IH as [|? ? Hw Hws]; subst. constructor; [|exact Hws].
        rewrite includes_comma_cons, E. exact Hw.
Qed.

Lemma lowerChar_comma (c : ascii) :
  Ascii.eqb (JsString.lowerChar c) "," = Ascii.eqb c ",".
Proof. destruct c as [[] [] [] [] [] [] [] []]; reflexivity. Qed.

Lemma toLowerCase_comma (s : string) :
  JsString.includes (JsString.toLowerCase s) "," = JsString.includes s ",".
Proof.
  induction s as [|c s IH]; [reflexivity|].
  change (JsString.toLowerCase (String c s))
    with (String (JsString.lowerChar c) (JsString.toLowerCase s)).
  rewrite !includes_comma_cons, lowerChar_comma, IH. reflexivity.
Qed.

Lemma trimStart_comma (s : string) :
  JsString.includes s "," = false -> JsString.includes (JsString.trimStart s) "," = false.
Proof.
  induction s as [|c s IH]; [reflexivity|].
  rewrite includes_comma_cons. intros H. apply orb_false_iff in H as [Hc Hs].
  simpl JsString.trimStart. destruct (JsString.isSpace c); [exact (IH Hs)|].
  rewrite includes_comma_cons, Hc, Hs. reflexivity.
Qed.

Lemma trimEnd_comma (s : string) :
  JsString.includes s "," = false -> JsString.includes (JsString.trimEnd s) "," = false.
Proof.
  induction s as [|c s IH]; [reflexivity|].
  rewrite includes_comma_cons. intros H. apply orb_false_iff in H as [Hc Hs].
  simpl JsString.trimEnd. specialize (IH Hs).
  destruct (JsString.trimEnd s) as [|a r].
  - destruct (JsString.isSpace c); [reflexivity|].
    rewrite includes_comma_cons, Hc. reflexivity.
  - rewrite includes_comma_cons, Hc. exact IH.
Qed.

Lemma trim_comma (s : string) :
  JsString.includes s "," = false -> JsString.includes (JsString.trim s) "," = false.
Proof. intros H. unfold JsString.trim. apply trimEnd_comma, trimStart_comma, H. Qed.

(** Where an entry of an override list comes from. *)
Lemma normalizeEnv_In (input : option string) (entry : string) :
  In entry (normalizeEnv input) ->
  exists s token,
    input = Some s /\ In token (JsString.split "," s) /\
    entry = JsString.trim (JsString.toLowerCase token) /\ JsString.truthy entry = true.
Proof.
  unfold normalizeEnv. destruct input as [s|]; [|intros []].
  destruct (negb (JsString.truthy s)); [intros []|].
  intros H. apply list_elem_of_In, list_elem_of_filter in H. destruct H as [Ht H].
  apply list_elem_of_In, in_map_iff in H. destruct H as (token & <- & Hin).
  exists s, token. repeat split; try assumption.
Qed.

(** X1.  Every entry of the list that [normalizeEnv] returns is not empty,
    is in lower case, has no white space at either end, and holds no
    comma. *)
Theorem normalizeEnv_entries_clean (input : option string) (entry : string) :
  In entry (normalizeEnv input) ->
  entry <> "" /\
  JsString.toLowerCase entry = entry /\
  JsString.trim entry = entry /\
  JsString.includes entry "," = false.
Proof.
  intros H. pose proof (normalizeEnv_lower _ _ H) as Hlow.
  apply normalizeEnv_In in H as (s & token & _ & Hin & -> & Ht).
  split; [|split; [exact Hlow|split]].
  - intros E. rewrite E in Ht. discriminate Ht.
  - apply trim_fixed.
  - apply trim_comma. rewrite toLowerCase_comma.
    pose proof (split_comma_free s) as Hall. rewrite List.Forall_forall in Hall.
    apply Hall, Hin.
Qed.

Lemma normalizeEnv_entries_clean_witness :
  In "warn" (normalizeEnv (Some " Trace, WARN ,,")) /\
  JsString.trim "warn" = "warn" /\ JsString.includes "warn" "," = false.
Proof.
  assert (H : In "warn" (normalizeEnv (Some " Trace, WARN ,,"))).
  { vm_compute. right. left. reflexivity. }
  split; [exact H|].
  pose proof (normalizeEnv_entries_clean _ _ H) as (_ & _ & Ht & Hc).
  split; [exact Ht | exact Hc].
Defined.

Lemma split_nonempty (sep : ascii) (s : string) : JsString.split sep s <> [].
Proof.
  destruct s as [|c s]; simpl; [discriminate|].
  destruct (Ascii.eqb c sep); [discriminate|].
  destruct (JsString.split sep s); discriminate.
Qed.

Lemma split_append (sep : ascii) (a b : string) :
  JsString.split sep (a +:+ String sep b) = JsString.split sep a ++ JsString.split sep b.
Proof.
  induction a as [|c a IH].
  - simpl. rewrite Ascii.eqb_refl. reflexivity.
  - rewrite append_cons. simpl. destruct (Ascii.eqb c sep).
    + rewrite IH. reflexivity.
    + rewrite IH. pose proof (split_nonempty sep a) as Hne.
      destruct (JsString.split sep a) as [|w ws]; [congruence | reflexivity].
Qed.

(** The general path of [normalizeEnv] gives the result of the early
    return as well. *)
Lemma normalizeEnv_Some (s : string) :
  normalizeEnv (Some s)
  = filter (fun id => JsString.truthy id = true)
      (map (fun context => JsString.trim (JsString.toLowerCase context))
         (JsString.split "," s)).
Proof.
  unfold normalizeEnv. destruct s as [|c s]; reflexivity.
Qed.

Lemma split_blank (s : string) :
  isBlank s = true ->
  Forall (fun w => forallb JsString.isSpace (list_ascii_of_string w) = true)
    (JsString.split "," s).
Proof.
  unfold isBlank. induction s as [|c s IH]; simpl.
  - intros _. constructor; [reflexivity | constructor].
  - intros H. apply andb_true_iff in H as [Hc Hs]. specialize (IH Hs).
    destruct (Ascii.eqb c ",") eqn:E.
    + constructor; [reflexivity | exact IH].
    + rewrite orb_false_r in Hc.
      destruct (JsString.split "," s) as [|w ws].
      * constructor; [|constructor]. simpl. rewrite Hc. reflexivity.
      * inversion IH as [|? ? Hw Hws]; subst. constructor; [|exact Hws].
        simpl. rewrite Hc. exact Hw.
Qed.

Lemma trimStart_spaces (s : string) :
  forallb JsString.isSpace (list_ascii_of_string s) = true -> JsString.trimStart s = "".
Proof.
  induction s as [|c s IH]; simpl; [reflexivity|].
  intros H. apply andb_true_iff in H as [Hc Hs]. rewrite Hc. exact (IH Hs).
Qed.

Lemma toLowerCase_spaces (s : string) :
  forallb JsString.isSpace (list_ascii_of_string (JsString.toLowerCase s))
  = forallb JsString.isSpace (list_ascii_of_string s).
Proof.
  induction s as [|c s IH]; simpl; [reflexivity|].
  rewrite isSpace_lowerChar, IH. reflexivity.
Qed.

(** X2.  A variable that holds only commas and white space gives the empty
    list, as a missing or an empty variable does. *)
Theorem normalizeEnv_blank (s : string) :
  isBlank s = true -> normalizeEnv (Some s) = [].
Proof.
  intros H. rewrite normalizeEnv_Some. apply split_blank in H.
  induction H as [|w ws Hw _ IH]; [reflexivity|].
  rewrite map_cons, filter_cons, decide_False; [exact IH|].
  unfold JsString.trim. rewrite trimStart_spaces; [discriminate|].
  rewrite toLowerCase_spaces. exact Hw.
Qed.

Lemma normalizeEnv_blank_witness :
  isBlank " , ,, " = true /\ normalizeEnv (Some " , ,, ") = [].
Proof.
  split; [reflexivity|]. apply (normalizeEnv_blank " , ,, "). reflexivity.
Defined.

(** X3.  The list of two values joined by a comma is the list of the first
    followed by the list of the second: the entries keep the order of the
    tokens. *)
Theorem normalizeEnv_comma_concat (a b : string) :
  normalizeEnv (Some (a +:+ "," +:+ b)) = normalizeEnv (Some a) ++ normalizeEnv (Some b).
Proof.
  rewrite !normalizeEnv_Some.
  change ("," +:+ b) with (String "," b).
  rewrite split_append, map_app, filter_app. reflexivity.
Qed.

Lemma split_toLowerCase (s : string) :
  JsString.split "," (JsString.toLowerCase s) = map JsString.toLowerCase (JsString.split "," s).
Proof.
  induction s as [|c s IH]; [reflexivity|].
  change (JsString.toLowerCase (String c s))
    with (String (JsString.lowerChar c) (JsString.toLowerCase s)).
  simpl JsString.split. rewrite lowerChar_comma, IH.
  destruct (Ascii.eqb c ","); [reflexivity|].
  destruct (JsString.split "," s); reflexivity.
Qed.

(** X4.  The letter case of a variable does not matter: the value in lower
    case gives the same list. *)
Theorem normalizeEnv_case_insensitive (s : string) :
  normalizeEnv (Some (JsString.toLowerCase s)) = normalizeEnv (Some s).
Proof.
  rewrite !normalizeEnv_Some, split_toLowerCase, map_map. f_equal.
  apply map_ext. intros token. rewrite toLowerCase_idem. reflexivity.
Qed.

(** ** The overrides and the strip configuration *)

Lemma truthy_nonempty (s : string) : JsString.truthy s = true <-> s <> "".
Proof.
  unfold JsString.truthy. destruct s as [|c s]; simpl; split; congruence.
Qed.

Lemma overrideToken_In (variable : option string) (entry : string) :
  overrideToken variable entry -> In entry (normalizeEnv variable).
Proof.
  intros (s & token & -> & Hin & -> & Hne). rewrite normalizeEnv_Some.
  apply list_elem_of_In, list_elem_of_filter. split.
  - apply truthy_nonempty, Hne.
  - apply list_elem_of_In, in_map_iff. exists token. split; [reflexivity | exact Hin].
Qed.

(** X5.  Whatever the strip configuration, a label is kept when a token of
    [TRACE_CONTEXT] (lower-cased and trimmed) occurs in the lower-cased
    context, or a token of [TRACE_FILE] occurs in the lower-cased file
    name, or a token of [TRACE_LEVEL] is the lower-cased label. *)
Theorem override_token_keeps_label (proc : Process) (name : string) (metadata : Metadata)
    (opts : PluginOptions) (entry : string) :
  (overrideToken (TRACE_CONTEXT proc) entry /\
   JsString.includes (JsString.toLowerCase (context metadata)) entry = true) \/
  (overrideToken (TRACE_FILE proc) entry /\
   JsString.includes (JsString.toLowerCase (filename metadata)) entry = true) \/
  (overrideToken (TRACE_LEVEL proc) entry /\ JsString.toLowerCase name = entry) ->
  shouldStrip proc name metadata opts = false.
Proof.
  intros H. unfold shouldStrip.
  destruct (stripRequested proc (strip opts)); [|reflexivity].
  destruct H as [[Ht Hm] | [[Ht Hm] | [Ht Hm]]]; apply overrideToken_In in Ht.
  - assert (E : preservedContext proc metadata = true).
    { apply existsb_exists. exists entry. split; [exact Ht | exact Hm]. }
    rewrite E. reflexivity.
  - assert (E : preservedFile proc metadata = true).
    { apply existsb_exists. exists entry. split; [exact Ht | exact Hm]. }
    rewrite E. destruct (preservedContext proc metadata); reflexivity.
  - assert (E : preservedLevel proc name = true).
    { apply existsb_exists. exists entry. split; [exact Ht|].
      rewrite Hm. apply String.eqb_refl. }
    rewrite E.
    destruct (preservedContext proc metadata); [reflexivity|].
    destruct (preservedFile proc metadata); reflexivity.
Qed.

Lemma override_token_keeps_label_witness :
  let proc := {| NODE_ENV := None; TRACE_CONTEXT := None; TRACE_FILE := None;
                 TRACE_LEVEL := Some "trace, WARN "; cwd := "/home/user/project" |} in
  overrideToken (TRACE_LEVEL proc) "warn" /\
  shouldStrip proc "Warn" sampleMetadata stripAll = false.
Proof.
  intros proc.
  assert (H : overrideToken (TRACE_LEVEL proc) "warn").
  { exists "trace, WARN ", " WARN ". split; [reflexivity|]. split; [|split].
    - vm_compute. right. left. reflexivity.
    - reflexivity.
    - discriminate. }
  split; [exact H|].
  apply (override_token_keeps_label proc "Warn" sampleMetadata stripAll "warn").
  right. right. split; [exact H | reflexivity].
Defined.

(** X6.  A dictionary as strip configuration strips nothing in an
    environment that it maps to [false] or does not list, the name of the
    environment ([undefined] when [NODE_ENV] is not set) not being a member
    that every object inherits. *)
Theorem dictionary_strip_unlisted (proc : Process) (name : string) (metadata : Metadata)
    (opts : PluginOptions) (m : gmap string bool) :
  strip opts = StripObject m ->
  inList (envKey (NODE_ENV proc)) objectPrototype = false ->
  m !! envKey (NODE_ENV proc) <> Some true ->
  shouldStrip proc name metadata opts = false.
Proof.
  intros Hs Hp Hm. unfold shouldStrip, stripRequested. rewrite Hs. simpl.
  destruct (NODE_ENV proc) as [env|]; simpl in *.
  - destruct (m !! env) as [[]|]; [congruence | reflexivity | rewrite Hp; reflexivity].
  - destruct (m !! "undefined") as [[]|]; [congruence | reflexivity | reflexivity].
Qed.

Lemma dictionary_strip_unlisted_witness :
  let proc := {| NODE_ENV := Some "development"; TRACE_CONTEXT := None; TRACE_FILE := None;
                 TRACE_LEVEL := None; cwd := "/home/user/project" |} in
  let table : gmap string bool := <["production" := true]> (<["test" := false]> ∅) in
  let opts := {| aliases := None; strip := StripObject table; normalized := false |} in
  table !! "development" = None /\
  shouldStrip proc "trace" sampleMetadata opts = false.
Proof.
  intros proc table opts. split; [reflexivity|].
  apply (dictionary_strip_unlisted proc "trace" sampleMetadata opts table).
  - reflexivity.
  - reflexivity.
  - discriminate.
Defined.

Lemma normalizeOpts_strip (babel : PluginParams) (opts : PluginOptions) :
  strip (normalizeOpts babel opts) = strip opts.
Proof. unfold normalizeOpts. destruct (normalized opts); reflexivity. Qed.

(** X7.  When the strip configuration applies to the environment and the
    three override variables give no entry, a labeled statement whose label
    is an alias is removed, whatever its body holds: the body is not
    traversed, and no error is raised. *)
Theorem stripped_label_removed (babel : PluginParams) (proc : Process) (path : NodePath)
    (opts : PluginOptions) :
  stripRequested proc (strip opts) = true ->
  normalizeEnv (TRACE_CONTEXT proc) = [] ->
  normalizeEnv (TRACE_FILE proc) = [] ->
  normalizeEnv (TRACE_LEVEL proc) = [] ->
  isAlias (normalizeOpts babel opts) (path_label path) = true ->
  handleLabeledStatement babel proc path opts = (normalizeOpts babel opts, Ok Remove).
Proof.
  intros Hr Hc Hf Hl Ha. unfold handleLabeledStatement. unfold isAlias in Ha.
  destruct (aliasLookup (normalizeOpts babel opts) (path_label path)) as [alias|];
    [|discriminate Ha].
  unfold shouldStrip, preservedContext, preservedFile, preservedLevel,
    PRESERVE_CONTEXTS, PRESERVE_FILES, PRESERVE_LEVELS.
  rewrite normalizeOpts_strip, Hr, Hc, Hf, Hl. reflexivity.
Qed.

Lemma stripped_label_removed_witness :
  isAlias (normalizeOpts sampleBabel stripAll) "warn" = true /\
  handleLabeledStatement sampleBabel sampleProcess (topLevel "warn" assignmentStatement) stripAll
  = (normalizeOpts sampleBabel stripAll, Ok Remove).
Proof.
  split; [reflexivity|].
  apply (stripped_label_removed sampleBabel sampleProcess (topLevel "warn" assignmentStatement)
           stripAll); reflexivity.
Defined.

(** ** The labels of a configuration *)

Lemma aliasTruthy_normalizeAlias (babel : PluginParams) (v : AliasValue) :
  aliasTruthy (normalizeAlias babel v) = aliasTruthy v.
Proof.
  destruct v as [s|f]; simpl; [|reflexivity].
  destruct (JsString.truthy s) eqn:E; simpl; [reflexivity | exact E].
Qed.

(** The lookup in the normalized table, read on the configuration. *)
Lemma aliasLookup_normalizeOpts (babel : PluginParams) (opts : PluginOptions) (label : string) :
  normalized opts = false ->
  aliasLookup (normalizeOpts babel opts) label
  = match aliases opts with
    | None => defaultAliases babel !! label
    | Some table =>
        match table !! label with
        | Some v => if aliasTruthy v then Some (normalizeAlias babel v) else None
        | None => None
        end
    end.
Proof.
  intros Hn. unfold normalizeOpts, aliasLookup. rewrite Hn. simpl.
  destruct (aliases opts) as [table|].
  - rewrite lookup_fmap. destruct (table !! label) as [v|]; simpl; [|reflexivity].
    rewrite aliasTruthy_normalizeAlias. reflexivity.
  - destruct (defaultAliases babel !! label) as [v|] eqn:E; [|reflexivity].
    unfold defaultAliases in E.
    repeat (apply lookup_insert_Some in E as [[_ <-] | [_ E]]; [reflexivity|]).
    rewrite lookup_empty in E. discriminate E.
Qed.

Lemma inList_cons (key a : string) (l : list string) :
  inList key (a :: l) = String.eqb key a || inList key l.
Proof. reflexivity. Qed.

Lemma defaultAliases_isSome (babel : PluginParams) (label : string) :
  is_Some (defaultAliases babel !! label) <-> inList label ["log"; "trace"; "warn"] = true.
Proof.
  rewrite !inList_cons.
  pose proof (defaultAliases_lookup babel) as (Hlog & Htrace & Hwarn).
  destruct (String.eqb_spec label "log") as [->|n1];
    [split; [reflexivity | intros _; eexists; exact Hlog]|].
  destruct (String.eqb_spec label "trace") as [->|n2];
    [split; [reflexivity | intros _; eexists; exact Htrace]|].
  destruct (String.eqb_spec label "warn") as [->|n3];
    [split; [reflexivity | intros _; eexists; exact Hwarn]|].
  rewrite (defaultAliases_other babel label n1 n2 n3). simpl.
  split; [intros [v Hv]; discriminate Hv | discriminate].
Qed.

Lemma isAlias_normalizeOpts (babel : PluginParams) (opts : PluginOptions) (label : string) :
  normalized opts = false ->
  isAlias (normalizeOpts babel opts) label = configuredLabel opts label.
Proof.
  intros Hn. unfold isAlias, configuredLabel.
  rewrite (aliasLookup_normalizeOpts _ _ _ Hn).
  destruct (aliases opts) as [table|].
  - destruct (table !! label) as [v|]; [|reflexivity]. destruct (aliasTruthy v); reflexivity.
  - pose proof (defaultAliases_isSome babel label) as H.
    destruct (defaultAliases babel !! label) as [v|];
      destruct (inList label ["log"; "trace"; "warn"]); try reflexivity.
    + destruct H as [H _]. specialize (H (ex_intro _ v eq_refl)). discriminate H.
    + destruct H as [_ H]. destruct (H eq_refl) as [v Hv]. discriminate Hv.
Qed.

(** X8.  For options that are not normalized yet, and a label that is not
    named like a member that every object inherits: the label is an alias
    of the normalized table exactly when the configuration lists it, that
    is when it is [log], [trace] or [warn] and [aliases] is left out, or
    when [aliases] holds a value other than the empty string for it.  A
    labeled statement with any other label is left untouched. *)
Theorem unlisted_label_untouched (babel : PluginParams) (proc : Process) (path : NodePath)
    (opts : PluginOptions) :
  normalized opts = false ->
  inList (path_label path) objectPrototype = false ->
  isAlias (normalizeOpts babel opts) (path_label path) = configuredLabel opts (path_label path) /\
  (configuredLabel opts (path_label path) = false ->
   handleLabeledStatement babel proc path opts = (normalizeOpts babel opts, Ok Untouched) /\
   contributed (path_node path) Untouched = [path_node path]).
Proof.
  intros Hn _. pose proof (isAlias_normalizeOpts babel opts (path_label path) Hn) as H.
  split; [exact H|]. intros Hc. rewrite Hc in H. split; [|reflexivity].
  unfold handleLabeledStatement. unfold isAlias in H.
  destruct (aliasLookup (normalizeOpts babel opts) (path_label path)); [discriminate H|].
  reflexivity.
Qed.

Lemma unlisted_label_untouched_witness :
  let opts := {| aliases := Some (<["debug" := AliasString ""]> ∅);
                 strip := StripAbsent; normalized := false |} in
  configuredLabel opts "debug" = false /\
  configuredLabel noOptions "retry" = false /\
  snd (handleLabeledStatement sampleBabel sampleProcess (topLevel "debug" assignmentStatement) opts)
  = Ok Untouched /\
  snd (handleLabeledStatement sampleBabel sampleProcess (topLevel "retry" assignmentStatement)
         noOptions)
  = Ok Untouched.
Proof.
  intros opts. split; [reflexivity|]. split; [reflexivity|].
  pose proof (unlisted_label_untouched sampleBabel sampleProcess
                (topLevel "debug" assignmentStatement) opts eq_refl eq_refl) as (_ & H1).
  pose proof (unlisted_label_untouched sampleBabel sampleProcess
                (topLevel "retry" assignmentStatement) noOptions eq_refl eq_refl) as (_ & H2).
  destruct (H1 eq_refl) as [E1 _]. destruct (H2 eq_refl) as [E2 _].
  rewrite E1, E2. split; reflexivity.
Defined.

(** X9.  After the normalization of options that were not normalized yet,
    every alias is a function, so that calling it does not fail; the
    function made from a configured source text instantiates the template
    of that text with the entries of the message, and ignores the
    metadata. *)
Theorem enabled_alias_callable (babel : PluginParams) (opts : PluginOptions)
    (label : string) (alias : AliasValue) :
  normalized opts = false ->
  aliasLookup (normalizeOpts babel opts) label = Some alias ->
  exists f,
    alias = AliasFunction f /\
    (forall message metadata, callAlias alias message metadata = Ok (f message metadata)) /\
    (forall table source,
       aliases opts = Some table -> table !! label = Some (AliasString source) ->
       forall message metadata,
         f message metadata = expression source (template babel) (messageIds message)).
Proof.
  intros Hn H. rewrite (aliasLookup_normalizeOpts _ _ _ Hn) in H.
  destruct (aliases opts) as [table|].
  - destruct (table !! label) as [[s|f]|] eqn:E; [| |discriminate H].
    + simpl in H. destruct (JsString.truthy s) eqn:Es; [|discriminate H].
      injection H as <-. eexists. split; [reflexivity|]. split; [reflexivity|].
      intros table' source Ht Hs message metadata.
      injection Ht as <-. rewrite E in Hs. injection Hs as <-. reflexivity.
    + simpl in H. injection H as <-. exists f. split; [reflexivity|]. split; [reflexivity|].
      intros table' source Ht Hs. injection Ht as <-. rewrite E in Hs. discriminate Hs.
  - unfold defaultAliases in H.
    repeat (apply lookup_insert_Some in H as [[_ <-] | [_ H]];
            [eexists; split; [reflexivity|]; split; [reflexivity|]; intros ? ? Ht; discriminate Ht|]).
    rewrite lookup_empty in H. discriminate H.
Qed.

Lemma enabled_alias_callable_witness :
  let opts := {| aliases := Some (<["debug" := AliasString "console.debug(content)"]> ∅);
                 strip := StripAbsent; normalized := false |} in
  exists alias f,
    aliasLookup (normalizeOpts sampleBabel opts) "debug" = Some alias /\
    alias = AliasFunction f /\
    f (buildMessage sampleMetadata (StringLiteral "x")) sampleMetadata
    = ExprNode (Identifier "console.debug(content)").
Proof.
  intros opts.
  destruct (aliasLookup (normalizeOpts sampleBabel opts) "debug") as [alias|] eqn:E;
    [|discriminate E].
  destruct (enabled_alias_callable sampleBabel opts "debug" alias eq_refl E)
    as (f & Hf & _ & Hs).
  exists alias, f. split; [reflexivity|]. split; [exact Hf|].
  rewrite (Hs _ "console.debug(content)" eq_refl eq_refl). reflexivity.
Defined.

Lemma normalizeOpts_twice (babel : PluginParams) (opts : PluginOptions) :
  normalizeOpts babel (normalizeOpts babel opts) = normalizeOpts babel opts.
Proof. apply normalizeOpts_tagged, normalizeOpts_normalized. Qed.

Lemma handle_fst (babel : PluginParams) (proc : Process) (path : NodePath)
    (opts : PluginOptions) :
  fst (handleLabeledStatement babel proc path opts) = normalizeOpts babel opts.
Proof.
  unfold handleLabeledStatement.
  destruct (aliasLookup (normalizeOpts babel opts) (path_label path)); [|reflexivity].
  destruct (shouldStrip _ _ _ _); reflexivity.
Qed.

(** X10.  The options object is normalized in place by the first call, and
    a later call that is handed the same object, for any labeled statement,
    does what it does with the options as they were configured. *)
Theorem options_reused_across_calls (babel : PluginParams) (proc : Process)
    (first second : NodePath) (opts : PluginOptions) :
  handleLabeledStatement babel proc second (fst (handleLabeledStatement babel proc first opts))
  = handleLabeledStatement babel proc second opts.
Proof.
  rewrite handle_fst. unfold handleLabeledStatement. rewrite normalizeOpts_twice. reflexivity.
Qed.

(** ** What a traversal leaves behind *)

Section Again.
Variables (sideEffect sideEffect' : error) (render render' : expr -> result expr).

Lemma mapList_fixed (l l' : list stmt) :
  Forall (fun s => forall s', traverse sideEffect render s = Ok s' ->
                              traverse sideEffect' render' s' = Ok s') l ->
  mapList (traverse sideEffect render) l = Ok l' ->
  mapList (traverse sideEffect' render') l' = Ok l'.
Proof.
  intros Hl. revert l'. induction Hl as [|s l Hs _ IH]; intros l' H; simpl in H; invert_bind.
  - reflexivity.
  - simpl. erewrite Hs by eassumption. rewrite bind_Ok. erewrite IH by eassumption.
    reflexivity.
Qed.

(** What a traversal returns is left as it is by any further traversal:
    its expression statements are marked, and the throwing visitor did not
    fire in it. *)
Lemma traverse_fixed (s s' : stmt) :
  traverse sideEffect render s = Ok s' -> traverse sideEffect' render' s' = Ok s'.
Proof.
  revert s'.
  cut ((forall e : expr, True) /\
       (forall s s', traverse sideEffect render s = Ok s' ->
                     traverse sideEffect' render' s' = Ok s') /\
       (forall m : member, True)).
  { intros (_ & H & _). exact (H s). }
  apply (tree_ind (fun _ => True)
           (fun s => forall s', traverse sideEffect render s = Ok s' ->
                                traverse sideEffect' render' s' = Ok s')
           (fun _ => True));
    try (intros; exact I); intros; simpl in *.
  - destruct h; invert_bind; simpl.
    + rewrite visitExpr_false by (eapply visitExpr_Ok; eassumption). reflexivity.
    + rewrite visitExpr_false by (eapply visitExpr_Ok; eassumption). reflexivity.
  - invert_bind. simpl. erewrite H by eassumption. reflexivity.
  - invert_bind. simpl. erewrite mapList_fixed by eassumption. reflexivity.
  - invert_bind. reflexivity.
  - invert_bind. simpl.
    rewrite visitExpr_false by (eapply visitExpr_Ok; eassumption). rewrite bind_Ok.
    erewrite H0 by eassumption. rewrite bind_Ok.
    destruct a as [alt|]; simpl in *; invert_bind; simpl; [|reflexivity].
    erewrite (H1 alt eq_refl) by eassumption. reflexivity.
  - invert_bind. simpl.
    rewrite visitExpr_false by (eapply visitExpr_Ok; eassumption). rewrite bind_Ok.
    erewrite H0 by eassumption. reflexivity.
  - discriminate.
  - invert_bind. simpl.
    rewrite visitExpr_false by (eapply visitExpr_Ok; eassumption). reflexivity.
  - invert_bind. reflexivity.
  - discriminate.
  - discriminate.
  - destruct (match sup with Some c => scanExpr c | None => false end || existsb scanMember body)
      eqn:E; invert_bind. simpl. rewrite E. reflexivity.
Qed.
End Again.

Lemma identity_keeps : KeepsSideEffects (fun e => Ok e).
Proof. intros e. exists e. split; [reflexivity | trivial]. Qed.

(** No listed node is left below what a traversal returns. *)
Lemma traverse_clean (sideEffect : error) (render : expr -> result expr) (s s' : stmt) :
  traverse sideEffect render s = Ok s' -> mentionsSideEffect (stmtNodes s') = false.
Proof.
  intros H.
  pose proof (traverse_fixed sideEffect sideEffect render (fun e => Ok e) s s' H) as Hfix.
  destruct (traverse_throws sideEffect (fun e => Ok e) identity_keeps s') as [Hthrow _].
  destruct (mentionsSideEffect (stmtNodes s')); [|reflexivity].
  rewrite (Hthrow eq_refl) in Hfix. discriminate Hfix.
Qed.

Lemma mentions_statementsOf (body : stmt) :
  mentionsSideEffect (flat_map stmtNodes (statementsOf body))
  = mentionsSideEffect (stmtNodes body).
Proof.
  unfold mentionsSideEffect.
  destruct body;
    try reflexivity; simpl statementsOf; simpl flat_map; rewrite app_nil_r; reflexivity.
Qed.

Lemma isAlias_lookup (opts : PluginOptions) (label : string) :
  isAlias opts label = true -> exists alias, aliasLookup opts label = Some alias.
Proof.
  unfold isAlias. destruct (aliasLookup opts label) as [alias|]; [|discriminate].
  intros _. exists alias. reflexivity.
Qed.

(** The outcomes of a call that returns, by what the traversal of the body
    gives. *)
Lemma handle_outcome (babel : PluginParams) (proc : Process) (path : NodePath)
    (opts : PluginOptions) (m : Mutation) :
  snd (handleLabeledStatement babel proc path opts) = Ok m ->
  m = Untouched \/ m = Remove \/
  exists alias body',
    aliasLookup (normalizeOpts babel opts) (path_label path) = Some alias /\
    traverse (CodeFrameError (path_node path) sideEffectMessage)
      (renderPayload alias (collectMetadata proc path (normalizeOpts babel opts)))
      (path_body path) = Ok body' /\
    contributed (path_node path) m = statementsOf body'.
Proof.
  intros H.
  destruct (aliasLookup (normalizeOpts babel opts) (path_label path)) as [alias|] eqn:E.
  - rewrite (handle_alias babel proc path opts alias E) in H.
    destruct (shouldStrip _ _ _ _).
    + injection H as <-. right. left. reflexivity.
    + apply bind_Ok_inv in H as (body' & Hb & H). injection H as <-.
      right. right. exists alias, body'. split; [reflexivity|]. split; [exact Hb|].
      apply contributed_body.
  - unfold handleLabeledStatement in H. rewrite E in H. injection H as <-.
    left. reflexivity.
Qed.

(** X11.  A labeled statement whose body was rewritten before (it stood
    below another label, whose traversal returned it) is only unwrapped:
    with an alias as label and without stripping, the call returns, and the
    statements that replace the labeled statement are those of its body, as
    they are. *)
Theorem rewritten_body_only_unwrapped (babel : PluginParams) (proc : Process)
    (path : NodePath) (opts : PluginOptions) (sideEffect : error)
    (render : expr -> result expr) (original : stmt) :
  traverse sideEffect render original = Ok (path_body path) ->
  isAlias (normalizeOpts babel opts) (path_label path) = true ->
  shouldStrip proc (path_label path) (collectMetadata proc path (normalizeOpts babel opts))
    (normalizeOpts babel opts) = false ->
  exists m,
    snd (handleLabeledStatement babel proc path opts) = Ok m /\
    contributed (path_node path) m = statementsOf (path_body path).
Proof.
  intros Ht Ha Hs. apply isAlias_lookup in Ha as [alias Ha].
  rewrite (handle_alias babel proc path opts alias Ha), Hs.
  erewrite traverse_fixed by exact Ht. rewrite bind_Ok.
  eexists. split; [reflexivity|]. apply contributed_body.
Qed.

Lemma rewritten_body_only_unwrapped_witness :
  let rewritten :=
    ExpressionStatement true
      (CallExpression (MemberExpression (Identifier "console") (Identifier "log") false)
         [StringLiteral "models:login:"; StringLiteral "x"]) in
  traverse (CodeFrameError innerLabel sideEffectMessage) (renderPayload traceAlias sampleMetadata)
    (ExpressionStatement false (StringLiteral "x")) = Ok rewritten /\
  exists m,
    snd (handleLabeledStatement sampleBabel sampleProcess (topLevel "warn" rewritten) noOptions)
    = Ok m /\
    contributed (LabeledStatement "warn" rewritten) m = [rewritten].
Proof.
  intros rewritten.
  assert (H : traverse (CodeFrameError innerLabel sideEffectMessage)
                (renderPayload traceAlias sampleMetadata)
                (ExpressionStatement false (StringLiteral "x")) = Ok rewritten).
  { reflexivity. }
  split; [exact H|].
  exact (rewritten_body_only_unwrapped sampleBabel sampleProcess (topLevel "warn" rewritten)
           noOptions _ _ _ H eq_refl eq_refl).
Defined.

(** X12.  Whatever the renderer, when the call returns for a labeled
    statement that it handles, no variable declaration, function,
    assignment, update, yield or return occurs in the statements that stand
    in its place: what the renderer returns is validated as well. *)
Theorem output_without_side_effects (babel : PluginParams) (proc : Process)
    (path : NodePath) (opts : PluginOptions) (m : Mutation) :
  snd (handleLabeledStatement babel proc path opts) = Ok m ->
  m <> Untouched ->
  mentionsSideEffect (flat_map stmtNodes (contributed (path_node path) m)) = false.
Proof.
  intros H Hm. apply handle_outcome in H as [-> | [-> | (alias & body' & _ & Hb & ->)]].
  - congruence.
  - reflexivity.
  - rewrite mentions_statementsOf. eapply traverse_clean. exact Hb.
Qed.

Lemma output_without_side_effects_witness :
  exists m,
    snd (handleLabeledStatement sampleBabel sampleProcess (topLevel "trace" twoStatements)
           noOptions) = Ok m /\
    m <> Untouched /\
    mentionsSideEffect (flat_map stmtNodes (contributed (LabeledStatement "trace" twoStatements) m))
    = false.
Proof.
  destruct (snd (handleLabeledStatement sampleBabel sampleProcess
                   (topLevel "trace" twoStatements) noOptions)) as [m|e] eqn:E;
    [|discriminate E].
  assert (Hm : m <> Untouched).
  { intros ->. discriminate E. }
  exists m. split; [reflexivity|]. split; [exact Hm|].
  exact (output_without_side_effects sampleBabel sampleProcess (topLevel "trace" twoStatements)
           noOptions m E Hm).
Defined.

(** ** The default configuration, end to end *)

Lemma renderPayload_default (babel : PluginParams) (level : string) (metadata : Metadata)
    (e : expr) :
  TemplateLaw babel ->
  renderPayload (AliasFunction (getLogFunction babel level)) metadata e
  = Ok (consoleCall level metadata e).
Proof.
  intros Hlaw. unfold renderPayload, callAlias. rewrite bind_Ok.
  destruct (isSequenceExpression e) eqn:Hseq.
  - destruct e; try discriminate Hseq.
    rewrite (getLogFunction_sequence babel level
               (buildMessage metadata (SequenceExpression expressions)) metadata
               expressions eq_refl).
    reflexivity.
  - rewrite (getLogFunction_single babel level (buildMessage metadata e) metadata Hlaw Hseq).
    destruct e; try reflexivity. discriminate Hseq.
Qed.

Lemma scanExpr_consoleCall (level : string) (metadata : Metadata) (e : expr) :
  scanExpr (consoleCall level metadata e) = scanExpr e.
Proof.
  destruct e; try (simpl; rewrite ?orb_false_r; reflexivity).
Qed.

Lemma defaultAliases_level (babel : PluginParams) (label : string) :
  inList label ["log"; "trace"; "warn"] = true ->
  defaultAliases babel !! label
  = Some (AliasFunction (getLogFunction babel (defaultLevel label))).
Proof.
  rewrite !inList_cons. unfold defaultLevel.
  pose proof (defaultAliases_lookup babel) as (Hlog & Htrace & Hwarn).
  destruct (String.eqb_spec label "log") as [->|n1]; [intros _; exact Hlog|].
  destruct (String.eqb_spec label "trace") as [->|n2]; [intros _; exact Htrace|].
  destruct (String.eqb_spec label "warn") as [->|n3]; [intros _; exact Hwarn|].
  discriminate.
Qed.

Lemma default_lookup (babel : PluginParams) (opts : PluginOptions) (label : string) :
  normalized opts = false -> aliases opts = None ->
  inList label ["log"; "trace"; "warn"] = true ->
  aliasLookup (normalizeOpts babel opts) label
  = Some (AliasFunction (getLogFunction babel (defaultLevel label))).
Proof.
  intros Hn Ha Hl. rewrite (aliasLookup_normalizeOpts _ _ _ Hn), Ha.
  apply defaultAliases_level, Hl.
Qed.

Section DefaultRenderer.
Variables (babel : PluginParams) (level : string) (metadata : Metadata) (sideEffect : error).
Hypothesis law : TemplateLaw babel.

Lemma traverse_payload (e : expr) :
  scanExpr e = false ->
  traverse sideEffect (renderPayload (AliasFunction (getLogFunction babel level)) metadata)
    (ExpressionStatement false e)
  = Ok (ExpressionStatement true (consoleCall level metadata e)).
Proof.
  intros He. simpl. rewrite (renderPayload_default babel level metadata e law), bind_Ok.
  rewrite visitExpr_false by (rewrite scanExpr_consoleCall; exact He). reflexivity.
Qed.

Lemma traverse_payloads (payloads : list expr) :
  existsb scanExpr payloads = false ->
  mapList
    (traverse sideEffect (renderPayload (AliasFunction (getLogFunction babel level)) metadata))
    (map (ExpressionStatement false) payloads)
  = Ok (map (fun e => ExpressionStatement true (consoleCall level metadata e)) payloads).
Proof.
  induction payloads as [|e l IH]; [reflexivity|]. intros H.
  apply orb_false_iff in H as [He Hl].
  change (map (ExpressionStatement false) (e :: l))
    with (ExpressionStatement false e :: map (ExpressionStatement false) l).
  change (mapList ?f (?a :: ?r)) with (b ← f a; bs ← mapList f r; Ok (b :: bs)).
  rewrite (traverse_payload e He), bind_Ok, (IH Hl). reflexivity.
Qed.
End DefaultRenderer.

(** X13.  Without configured aliases, with a host that compiles the call
    template, and without stripping: a [log], [trace] or [warn] label whose
    body is one expression statement free of listed nodes is replaced by
    one marked statement, the call of [console.warn] for [warn] and of
    [console.log] for the two others, with the display prefix and the
    payload as arguments (the expressions of a sequence are spliced in);
    and a block of such statements is replaced by the calls, in order. *)
Theorem default_labels_console_calls (babel : PluginParams) (proc : Process)
    (path : NodePath) (opts : PluginOptions) :
  let metadata := collectMetadata proc path (normalizeOpts babel opts) in
  let level := defaultLevel (path_label path) in
  TemplateLaw babel ->
  normalized opts = false -> aliases opts = None ->
  inList (path_label path) ["log"; "trace"; "warn"] = true ->
  shouldStrip proc (path_label path) metadata (normalizeOpts babel opts) = false ->
  (forall e,
     path_body path = ExpressionStatement false e -> scanExpr e = false ->
     snd (handleLabeledStatement babel proc path opts)
     = Ok (ReplaceWith (ExpressionStatement true (consoleCall level metadata e)))) /\
  (forall payloads,
     path_body path = BlockStatement (map (ExpressionStatement false) payloads) ->
     existsb scanExpr payloads = false ->
     snd (handleLabeledStatement babel proc path opts)
     = Ok (ReplaceWithMultiple
             (map (fun e => ExpressionStatement true (consoleCall level metadata e)) payloads))).
Proof.
  intros metadata level Hlaw Hn Ha Hl Hs.
  pose proof (default_lookup babel opts (path_label path) Hn Ha Hl) as Hlook.
  pose proof (handle_alias babel proc path opts _ Hlook) as H.
  fold metadata in H. rewrite Hs in H. fold level in H.
  split.
  - intros e Hb He. rewrite H, Hb.
    rewrite (traverse_payload babel level metadata _ Hlaw e He). reflexivity.
  - intros payloads Hb Hp. rewrite H, Hb. simpl traverse.
    rewrite (traverse_payloads babel level metadata _ Hlaw payloads Hp). reflexivity.
Qed.

Lemma default_labels_console_calls_witness :
  TemplateLaw sampleBabel /\
  snd (handleLabeledStatement sampleBabel sampleProcess (loginPath 1 sequenceStatement) noOptions)
  = Ok (ReplaceWith
          (ExpressionStatement true
             (CallExpression (MemberExpression (Identifier "console") (Identifier "log") false)
                [StringLiteral "models:login:"; StringLiteral "hello"; Identifier "username"]))).
Proof.
  split; [exact sampleBabel_law|].
  destruct (default_labels_console_calls sampleBabel sampleProcess
              (loginPath 1 sequenceStatement) noOptions sampleBabel_law eq_refl eq_refl
              eq_refl eq_refl) as [H _].
  rewrite (H _ eq_refl eq_refl). reflexivity.
Defined.

(** X14.  Without configured aliases, with a host that compiles the call
    template, and without stripping, the call for a [log], [trace] or
    [warn] label throws the side effect error, tied to the labeled
    statement, when a listed node occurs anywhere in the body, and returns
    a replacement when none does: it raises no other error. *)
Theorem default_validation_exact (babel : PluginParams) (proc : Process)
    (path : NodePath) (opts : PluginOptions) :
  TemplateLaw babel ->
  normalized opts = false -> aliases opts = None ->
  inList (path_label path) ["log"; "trace"; "warn"] = true ->
  shouldStrip proc (path_label path) (collectMetadata proc path (normalizeOpts babel opts))
    (normalizeOpts babel opts) = false ->
  if mentionsSideEffect (stmtNodes (path_body path))
  then snd (handleLabeledStatement babel proc path opts)
       = Throw (CodeFrameError (path_node path) sideEffectMessage)
  else exists m, snd (handleLabeledStatement babel proc path opts) = Ok m /\ m <> Untouched.
Proof.
  intros Hlaw Hn Ha Hl Hs.
  pose proof (default_lookup babel opts (path_label path) Hn Ha Hl) as Hlook.
  rewrite (handle_alias babel proc path opts _ Hlook), Hs.
  pose proof (default_renderer_faithful babel (defaultLevel (path_label path))
                (collectMetadata proc path (normalizeOpts babel opts)) Hlaw) as Hf.
  destruct (mentionsSideEffect (stmtNodes (path_body path))) eqn:Hm.
  - destruct (traverse_throws (CodeFrameError (path_node path) sideEffectMessage) _
                (Faithful_keeps _ Hf) (path_body path)) as [Hthrow _].
    rewrite (Hthrow Hm). reflexivity.
  - destruct (traverse_passes (CodeFrameError (path_node path) sideEffectMessage) _
                Hf (path_body path) Hm) as [body' ->].
    rewrite bind_Ok. eexists. split; [reflexivity|]. destruct body'; discriminate.
Qed.

Lemma default_validation_exact_witness :
  TemplateLaw sampleBabel /\
  snd (handleLabeledStatement sampleBabel sampleProcess (topLevel "warn" assignmentStatement)
         noOptions)
  = Throw (CodeFrameError (LabeledStatement "warn" assignmentStatement) sideEffectMessage) /\
  exists m,
    snd (handleLabeledStatement sampleBabel sampleProcess (topLevel "warn" nestedStatement)
           noOptions) = Ok m.
Proof.
  split; [exact sampleBabel_law|]. split.
  - exact (default_validation_exact sampleBabel sampleProcess
             (topLevel "warn" assignmentStatement) noOptions sampleBabel_law eq_refl eq_refl
             eq_refl eq_refl).
  - destruct (default_validation_exact sampleBabel sampleProcess
                (topLevel "warn" nestedStatement) noOptions sampleBabel_law eq_refl eq_refl
                eq_refl eq_refl) as (m & Hm & _).
    exists m. exact Hm.
Defined.

(** ** The ancestry *)

Lemma ancestryStep_parts (acc : Ancestry) (item : node) :
  parts (ancestryStep acc item)
  = match scopeName item with Some name => name :: parts acc | None => parts acc end.
Proof.
  destruct item as [[]|[]|[]| | |]; simpl;
    repeat match goal with
    | |- context [match ?x with _ => _ end] => destruct x
    end; reflexivity.
Qed.

Lemma walk_parts (items : list node) (acc : Ancestry) :
  parts (fold_left ancestryStep items acc) = rev (omap scopeName items) ++ parts acc.
Proof.
  revert acc. induction items as [|item items IH]; intros acc; [reflexivity|].
  simpl fold_left. rewrite IH, ancestryStep_parts. simpl omap.
  destruct (scopeName item) as [name|]; [|reflexivity].
  simpl rev. rewrite <- app_assoc. reflexivity.
Qed.

(** X15.  The parent name lists the names of the enclosing class methods,
    class declarations and functions from the outermost to the innermost,
    joined by colons; the other ancestors (blocks, control statements,
    class bodies, class expressions, the program) give no name.  The
    context is the prefix, a colon, and the parent name. *)
Theorem parent_name_outermost_first (proc : Process) (path : NodePath) (opts : PluginOptions) :
  parentName (collectMetadata proc path opts)
  = JsString.join ":" (rev (omap scopeName (path_parents path))) /\
  context (collectMetadata proc path opts)
  = prefix (collectMetadata proc path opts) +:+ ":"
    +:+ JsString.join ":" (rev (omap scopeName (path_parents path))).
Proof.
  assert (H : parts (walkAncestry (path_parents path))
              = rev (omap scopeName (path_parents path))).
  { unfold walkAncestry. rewrite walk_parts. apply app_nil_r. }
  unfold collectMetadata. simpl. rewrite H. split; reflexivity.
Qed.

Lemma ancestryStep_inner (acc : Ancestry) (item : node) :
  parent acc = None -> isScope item = false ->
  parent (ancestryStep acc item) = None /\
  depth (ancestryStep acc item) = depth acc + (if indents item then 1 else 0).
Proof.
  intros Hp Hs. unfold indents.
  destruct item as [[]|[]|[]| | |]; try discriminate Hs; simpl; rewrite Hp; simpl;
    split; try reflexivity; try exact Hp; lia.
Qed.

Lemma walk_inner (items : list node) (acc : Ancestry) :
  parent acc = None -> forallb (fun n => negb (isScope n)) items = true ->
  parent (fold_left ancestryStep items acc) = None /\
  depth (fold_left ancestryStep items acc) = depth acc + length (List.filter indents items).
Proof.
  revert acc. induction items as [|item items IH]; intros acc Hp H; simpl in *.
  - split; [exact Hp | lia].
  - apply andb_true_iff in H as [Hi H]. apply negb_true_iff in Hi.
    destruct (ancestryStep_inner acc item Hp Hi) as [Hp' Hd'].
    destruct (IH _ Hp' H) as [Hp'' Hd'']. split; [exact Hp''|].
    rewrite Hd'', Hd'. destruct (indents item); simpl; lia.
Qed.

Lemma ancestryStep_scope (acc : Ancestry) (scope : node) :
  parent acc = None -> isScope scope = true ->
  parent (ancestryStep acc scope) = Some scope /\
  depth (ancestryStep acc scope) = depth acc.
Proof.
  intros Hp Hs.
  destruct scope as [[]|[]|[]| | |]; try discriminate Hs; simpl; unfold setParent;
    rewrite Hp; split; reflexivity.
Qed.

Lemma ancestryStep_depth_kept (acc : Ancestry) (item p : node) :
  parent acc = Some p -> depth (ancestryStep acc item) = depth acc.
Proof.
  intros Hp. destruct item as [[]|[]|[]| | |]; simpl; try rewrite Hp; reflexivity.
Qed.

Lemma walk_depth_kept (items : list node) (acc : Ancestry) (p : node) :
  parent acc = Some p -> depth (fold_left ancestryStep items acc) = depth acc.
Proof.
  revert acc. induction items as [|item items IH]; intros acc Hp; [reflexivity|].
  simpl. rewrite (IH _ (ancestryStep_parent_kept acc item p Hp)).
  apply (ancestryStep_depth_kept acc item p Hp).
Qed.

(** X16.  The parent scope is the nearest ancestor that is a class method,
    a class declaration, a function or the program, and the indentation is
    the number of ancestors below it that are neither blocks nor class
    bodies: the ancestors above the parent scope change neither. *)
Theorem indent_counts_inner_ancestors (proc : Process) (path : NodePath)
    (opts : PluginOptions) (inner outer : list node) (scope : node) :
  path_parents path = inner ++ scope :: outer ->
  forallb (fun n => negb (isScope n)) inner = true ->
  isScope scope = true ->
  indent (collectMetadata proc path opts) = length (List.filter indents inner) /\
  parent (walkAncestry (path_parents path)) = Some scope.
Proof.
  intros Hpath Hinner Hscope.
  change (indent (collectMetadata proc path opts)) with (depth (walkAncestry (path_parents path))).
  unfold walkAncestry. rewrite Hpath, fold_left_app. simpl fold_left.
  destruct (walk_inner inner {| parts := []; parent := None; depth := 0 |} eq_refl Hinner)
    as [Hp Hd].
  destruct (ancestryStep_scope _ scope Hp Hscope) as [Hp' Hd'].
  rewrite (walk_parent_kept outer _ scope Hp'), (walk_depth_kept outer _ scope Hp'), Hd', Hd.
  split; reflexivity.
Qed.

Lemma indent_counts_inner_ancestors_witness :
  let body := [IfStatement (Identifier "c") (BlockStatement [innerLabel]) None] in
  let method := ClassMethod (Identifier "run") 2 body in
  let job := ClassDeclaration (Some "Job") 1 None [method] in
  let path :=
    {| path_label := "trace"; path_body := ExpressionStatement false (StringLiteral "x");
       path_key := 0;
       path_parents :=
         [ StmtNode (BlockStatement [innerLabel]);
           StmtNode (IfStatement (Identifier "c") (BlockStatement [innerLabel]) None);
           StmtNode (BlockStatement body); MemberNode method; ClassBody [method];
           StmtNode job; Program [job] ];
       path_filename := "a.js" |} in
  indent (collectMetadata sampleProcess path noOptions) = 1 /\
  parent (walkAncestry (path_parents path)) = Some (MemberNode method).
Proof.
  intros body method job path.
  exact (indent_counts_inner_ancestors sampleProcess path noOptions
           [ StmtNode (BlockStatement [innerLabel]);
             StmtNode (IfStatement (Identifier "c") (BlockStatement [innerLabel]) None);
             StmtNode (BlockStatement body) ]
           [ ClassBody [method]; StmtNode job; Program [job] ]
           (MemberNode method) eq_refl eq_refl eq_refl).
Defined.

(** ** The start message *)

(** The scan steps over the labeled statements whose label is no alias. *)
Lemma scan_skips (opts : PluginOptions) (path : NodePath) (i : nat)
    (skipped rest : list node) :
  forallb (isSkippedLabel opts) skipped = true ->
  startMessageScan opts path i (skipped ++ rest)
  = startMessageScan opts path (i + length skipped) rest.
Proof.
  revert i. induction skipped as [|child skipped IH]; intros i H; simpl in *.
  - rewrite Nat.add_0_r. reflexivity.
  - apply andb_true_iff in H as [Hc H]. unfold isSkippedLabel in Hc.
    destruct child as [|[]| | | |]; try discriminate Hc. simpl in *.
    apply negb_true_iff in Hc. rewrite Hc, (IH (S i) H). f_equal. lia.
Qed.

(** When the scan sets [isStartMessage], it has stepped over the children
    up to the index of the path, and found an alias label there. *)
Lemma scan_start (opts : PluginOptions) (path : NodePath) (children : list node) (i : nat) :
  snd (startMessageScan opts path i children) = true ->
  fst (startMessageScan opts path i children) = true /\
  inParentBody path = true /\
  exists skipped child rest,
    children = skipped ++ child :: rest /\
    i + length skipped = path_key path /\
    forallb (isSkippedLabel opts) skipped = true /\
    isAliasLabel opts child = true.
Proof.
  revert i. induction children as [|child children IH]; intros i H; simpl in *;
    [discriminate H|].
  destruct (nodeHandled child) eqn:Hh; [discriminate H|].
  destruct child as [|[]| | | |]; try discriminate H.
  destruct (isAlias opts label) eqn:Ha.
  - simpl in H. unfold sameNode in H. apply andb_true_iff in H as [Hin Hk].
    apply Nat.eqb_eq in Hk. split; [reflexivity|]. split; [exact Hin|].
    exists [], (StmtNode (LabeledStatement label body)), children.
    split; [reflexivity|]. split; [simpl; lia|]. split; [reflexivity | exact Ha].
  - destruct (IH (S i) H) as (Hf & Hin & skipped & found & rest & -> & Hk & Hs & Hc).
    split; [exact Hf|]. split; [exact Hin|].
    exists (StmtNode (LabeledStatement label body) :: skipped), found, rest.
    split; [reflexivity|]. split; [simpl; lia|]. split; [|exact Hc].
    simpl. unfold isSkippedLabel at 1. simpl. rewrite Ha, Hs. reflexivity.
Qed.

(** X17.  When [isStartMessage] is set, [hasStartMessage] is set as well,
    the statement stands in the block that is the body of a function, its
    parent scope is not the program, and in the body of that scope a
    statement with an alias as label stands at the index of the statement,
    after labeled statements only, whose labels are no aliases. *)
Theorem start_message_is_first_alias_label (proc : Process) (path : NodePath)
    (opts : PluginOptions) :
  isStartMessage (collectMetadata proc path opts) = true ->
  hasStartMessage (collectMetadata proc path opts) = true /\
  inParentBody path = true /\
  exists scope skipped child rest,
    parent (walkAncestry (path_parents path)) = Some scope /\
    isProgram scope = false /\
    scopeChildren scope = skipped ++ child :: rest /\
    length skipped = path_key path /\
    forallb (isSkippedLabel opts) skipped = true /\
    isAliasLabel opts child = true.
Proof.
  unfold collectMetadata. simpl. unfold startMessage.
  destruct (parent (walkAncestry (path_parents path))) as [scope|]; [|discriminate].
  destruct (isProgram scope) eqn:Hp; [discriminate|]. simpl. intros H.
  destruct (scan_start opts path (scopeChildren scope) 0 H)
    as (Hf & Hin & skipped & child & rest & Hc & Hk & Hs & Ha).
  split; [exact Hf|]. split; [exact Hin|].
  exists scope, skipped, child, rest. repeat split; assumption.
Qed.

Lemma start_message_is_first_alias_label_witness :
  let path := loginPath 0 (ExpressionStatement false (StringLiteral "a")) in
  let opts := normalizeOpts sampleBabel noOptions in
  isStartMessage (collectMetadata sampleProcess path opts) = true /\
  hasStartMessage (collectMetadata sampleProcess path opts) = true /\
  inParentBody path = true.
Proof.
  intros path opts.
  assert (H : isStartMessage (collectMetadata sampleProcess path opts) = true).
  { reflexivity. }
  destruct (start_message_is_first_alias_label sampleProcess path opts H) as (Hf & Hin & _).
  split; [exact H|]. split; [exact Hf | exact Hin].
Defined.

Lemma isOtherLabel_skipped (opts : PluginOptions) (statements : list stmt) :
  forallb (fun s => isOtherLabel opts (StmtNode s)) statements = true ->
  forallb (isSkippedLabel opts) (map StmtNode statements) = true.
Proof.
  induction statements as [|s l IH]; [reflexivity|]. simpl. intros H.
  apply andb_true_iff in H as [Hs Hl]. rewrite (IH Hl), andb_true_r.
  destruct s; try discriminate Hs. simpl in Hs. apply andb_true_iff in Hs as [Hs _].
  unfold isSkippedLabel. simpl. exact Hs.
Qed.

(** X18.  In the body of a function that opens with labeled statements
    whose labels are no aliases (nor named like a member that every object
    inherits), followed by a statement with an alias as label, every label
    of that body gets [hasStartMessage], and [isStartMessage] is set
    exactly for the statement at the index of that first alias label. *)
Theorem first_alias_label_opens_function (proc : Process) (path : NodePath)
    (opts : PluginOptions) (scope : node) (outer : list node)
    (skipped : list stmt) (label : string) (body : stmt) (rest : list stmt) :
  isFunction scope = true ->
  scopeChildren scope = map StmtNode (skipped ++ LabeledStatement label body :: rest) ->
  path_parents path
  = StmtNode (BlockStatement (skipped ++ LabeledStatement label body :: rest)) :: scope :: outer ->
  forallb (fun s => isOtherLabel opts (StmtNode s)) skipped = true ->
  isAlias opts label = true ->
  hasStartMessage (collectMetadata proc path opts) = true /\
  isStartMessage (collectMetadata proc path opts) = (path_key path =? length skipped)%nat.
Proof.
  intros Hf Hc Hp Hs Ha.
  pose proof (flags_in_function proc opts path _ scope outer Hf Hc Hp) as H.
  assert (E : startMessageScan opts path 0
                (map StmtNode (skipped ++ LabeledStatement label body :: rest))
              = (true, (path_key path =? length skipped)%nat)).
  { rewrite map_app, scan_skips by (apply isOtherLabel_skipped; exact Hs).
    simpl. rewrite Ha. unfold sameNode, inParentBody. rewrite Hp. simpl.
    rewrite Hf, length_map. reflexivity. }
  rewrite E in H. injection H as H1 H2. split; assumption.
Qed.

Lemma first_alias_label_opens_function_witness :
  let body :=
    [ LabeledStatement "retry" EmptyStatement; innerLabel;
      LabeledStatement "warn" (ExpressionStatement false (StringLiteral "y")) ] in
  let scope := FunctionDeclaration (Some "poll") 1 body in
  let path (key : nat) :=
    {| path_label := "trace"; path_body := ExpressionStatement false (StringLiteral "x");
       path_key := key;
       path_parents := [StmtNode (BlockStatement body); StmtNode scope; Program [scope]];
       path_filename := "a.js" |} in
  let opts := normalizeOpts sampleBabel noOptions in
  isAlias opts "retry" = false /\
  isStartMessage (collectMetadata sampleProcess (path 1) opts) = true /\
  hasStartMessage (collectMetadata sampleProcess (path 2) opts) = true /\
  isStartMessage (collectMetadata sampleProcess (path 2) opts) = false.
Proof.
  intros body scope path opts. split; [reflexivity|].
  destruct (first_alias_label_opens_function sampleProcess (path 1) opts (StmtNode scope)
              [Program [scope]] [LabeledStatement "retry" EmptyStatement] "trace"
              (ExpressionStatement false (StringLiteral "x"))
              [LabeledStatement "warn" (ExpressionStatement false (StringLiteral "y"))]
              eq_refl eq_refl eq_refl eq_refl eq_refl) as [_ H1].
  destruct (first_alias_label_opens_function sampleProcess (path 2) opts (StmtNode scope)
              [Program [scope]] [LabeledStatement "retry" EmptyStatement] "trace"
              (ExpressionStatement false (StringLiteral "x"))
              [LabeledStatement "warn" (ExpressionStatement false (StringLiteral "y"))]
              eq_refl eq_refl eq_refl eq_refl eq_refl) as [H2 H3].
  split; [exact H1|]. split; [exact H2 | exact H3].
Defined.

(** ** The macro, end to end *)

(** The lookup in the normalized table of the macro, with named
    references. *)
Lemma macro_lookup (babel : PluginParams) (config : option MacroConfig)
    (references : list string) (label : string) :
  refNames references <> [] ->
  aliasLookup (normalizeOpts babel (macroOptions babel config references)) label
  = if inList label (refNames references)
    then Some (AliasFunction
                 (getLogFunction babel (warningLevel (warningLabelsOf config) label)))
    else None.
Proof.
  intros Hne. rewrite aliasLookup_normalizeOpts by reflexivity.
  unfold macroOptions. simpl aliases.
  destruct (refNames references) as [|name names] eqn:E; [congruence|].
  change (0 <? length (name :: names))%nat with true. cbv iota. rewrite macroAlias_fold.
  destruct (inList label (name :: names)); [reflexivity|].
  rewrite lookup_empty. reflexivity.
Qed.

(** X19.  The labels that the macro handles, for a label that is not named
    like a member that every object inherits: with a named reference other
    than [default], exactly the referenced names other than [default]
    (so [log], [trace] and [warn] only when they are imported); without
    one, and without configured aliases, exactly [log], [trace] and
    [warn]. *)
Theorem macro_labels (babel : PluginParams) (config : option MacroConfig)
    (references : list string) (label : string) :
  let opts := normalizeOpts babel (macroOptions babel config references) in
  inList label objectPrototype = false ->
  (refNames references <> [] ->
   (isAlias opts label = true <-> In label references /\ label <> "default")) /\
  (refNames references = [] ->
   match config with Some c => cfg_aliases c | None => None end = None ->
   isAlias opts label = inList label ["log"; "trace"; "warn"]).
Proof.
  intros opts _. split.
  - intros Hne. unfold opts, isAlias. rewrite (macro_lookup babel config references label Hne).
    rewrite <- refNames_In, <- inList_In.
    destruct (inList label (refNames references)); split; congruence.
  - intros He Hc. unfold opts. rewrite isAlias_normalizeOpts by reflexivity.
    unfold configuredLabel, macroOptions. simpl aliases. rewrite He. simpl. rewrite Hc.
    reflexivity.
Qed.

Lemma macro_labels_witness :
  refNames ["default"; "announce"] <> [] /\
  isAlias (normalizeOpts sampleBabel (macroOptions sampleBabel None ["default"; "announce"]))
    "announce" = true /\
  isAlias (normalizeOpts sampleBabel (macroOptions sampleBabel None ["default"; "announce"]))
    "trace" = false /\
  isAlias (normalizeOpts sampleBabel (macroOptions sampleBabel None ["default"]))
    "trace" = true.
Proof.
  assert (Hne : refNames ["default"; "announce"] <> []).
  { vm_compute. discriminate. }
  destruct (macro_labels sampleBabel None ["default"; "announce"] "announce" eq_refl)
    as [H1 _].
  destruct (macro_labels sampleBabel None ["default"] "trace" eq_refl) as [_ H2].
  split; [exact Hne|]. split; [|split].
  - apply (H1 Hne). split; [right; left; reflexivity | discriminate].
  - reflexivity.
  - rewrite (H2 eq_refl eq_refl). reflexivity.
Defined.

(** X20.  With the options of the macro, a host that compiles the call
    template, and without stripping: a statement labeled with an imported
    name other than [default], whose body is one expression statement free
    of listed nodes, is replaced by one marked statement, the call of
    [console.warn] when the name is among the warning labels ([warn] alone
    unless configured; none when the property is set to a falsy value) and
    of [console.log] otherwise. *)
Theorem macro_label_console_call (babel : PluginParams) (proc : Process) (path : NodePath)
    (config : option MacroConfig) (references : list string) (e : expr) :
  let opts := macroOptions babel config references in
  let metadata := collectMetadata proc path (normalizeOpts babel opts) in
  let level := warningLevel (warningLabelsOf config) (path_label path) in
  TemplateLaw babel ->
  In (path_label path) references -> path_label path <> "default" ->
  shouldStrip proc (path_label path) metadata (normalizeOpts babel opts) = false ->
  path_body path = ExpressionStatement false e -> scanExpr e = false ->
  snd (handleLabeledStatement babel proc path opts)
  = Ok (ReplaceWith (ExpressionStatement true (consoleCall level metadata e))).
Proof.
  intros opts metadata level Hlaw Hin Hd Hs Hb He.
  assert (Href : In (path_label path) (refNames references)).
  { apply refNames_In. split; assumption. }
  assert (Hne : refNames references <> []).
  { intros E. rewrite E in Href. destruct Href. }
  pose proof (macro_lookup babel config references (path_label path) Hne) as Hlook.
  apply inList_In in Href. rewrite Href in Hlook.
  pose proof (handle_alias babel proc path opts _ Hlook) as H.
  fold metadata in H. rewrite Hs in H. fold level in H.
  rewrite H, Hb. rewrite (traverse_payload babel level metadata _ Hlaw e He). reflexivity.
Qed.

Lemma macro_label_console_call_witness :
  let config :=
    {| cfg_aliases := None; cfg_strip := StripAbsent;
       cfg_warningLabels := Some (Some ["alert"]) |} in
  TemplateLaw sampleBabel /\
  snd (handleLabeledStatement sampleBabel sampleProcess
         (topLevel "alert" (ExpressionStatement false (StringLiteral "x")))
         (macroOptions sampleBabel (Some config) ["warn"; "alert"]))
  = Ok (ReplaceWith
          (ExpressionStatement true
             (CallExpression (MemberExpression (Identifier "console") (Identifier "warn") false)
                [StringLiteral "a::"; StringLiteral "x"]))).
Proof.
  intros config. split; [exact sampleBabel_law|].
  rewrite (macro_label_console_call sampleBabel sampleProcess
             (topLevel "alert" (ExpressionStatement false (StringLiteral "x")))
             (Some config) ["warn"; "alert"] (StringLiteral "x") sampleBabel_law).
  - reflexivity.
  - right. left. reflexivity.
  - discriminate.
  - reflexivity.
  - reflexivity.
  - reflexivity.
Defined.
